(** * gddown: the Google Drive PDF downloader (src/gddown.py)

    A shallow embedding of the pure and the stateful parts of
    [GoogleDrivePDFDownloader] and the properties of its discovery loops,
    its file naming and its PDF assembly.

    Conventions of the embedding.
    - A Python [str] is a Rocq [string]; character-level work is done on
      its [list ascii] (one [ascii] per character, so the development
      covers the strings whose characters are below code point 256).
    - A Python exception is the [Raise] case of [result]; [try]/[except]
      is [try_except].
    - The browser (Playwright page) is an oracle: what each call answers
      is a field of an environment record, indexed by the loop attempt or
      by the argument of the call.
    - The file system is the map [files] of a state, with oracles for
      the calls that can fail. The log file of line 32, which every
      logging call appends to, is kept apart from that map: its lines
      are the [log] of the state, and the properties about files speak
      of the paths other than the log file. *)

From Stdlib Require Import Ascii String List Arith Lia Bool Permutation.
From stdpp Require Import base tactics option list strings pretty gmap.
Import ListNotations.

Local Open Scope string_scope.
Local Open Scope list_scope.
Local Open Scope nat_scope.

(* ===================================================================== *)
(** ** Python strings *)
(* ===================================================================== *)

Module PyStr.

Definition chars (s : string) : list ascii := list_ascii_of_string s.
Definition str (l : list ascii) : string := string_of_list_ascii l.

(** [needle in hay] *)
Fixpoint startswith (needle hay : list ascii) : bool :=
  match needle, hay with
  | [], _ => true
  | _ :: _, [] => false
  | a :: needle', b :: hay' => Ascii.eqb a b && startswith needle' hay'
  end.

Fixpoint contains (needle hay : list ascii) : bool :=
  startswith needle hay ||
  match hay with
  | [] => false
  | _ :: hay' => contains needle hay'
  end.

(** [s.rstrip(chars)]: the longest suffix made of [strip] characters is
    removed. *)
Fixpoint rstrip (strip : ascii → bool) (s : list ascii) : list ascii :=
  match s with
  | [] => []
  | c :: s' =>
      match rstrip strip s' with
      | [] => if strip c then [] else [c]
      | t => c :: t
      end
  end.

End PyStr.

Import PyStr.

(* ===================================================================== *)
(** ** [sanitize_filename] (gddown.py, lines 58-68) *)
(* ===================================================================== *)

Definition dquote : ascii := ascii_of_nat 34.

(** The character class of [illegal_chars]: the nine punctuation
    characters of the pattern (less-than, greater-than, colon, double
    quote, slash, backslash, bar, question mark, star) and the control
    range 0x00-0x1f. *)
Definition illegal_chars (c : ascii) : bool :=
  existsb (Ascii.eqb c)
    ["<"; ">"; ":"; dquote; "/"; "\"; "|"; "?"; "*"]%char
  || Nat.leb (nat_of_ascii c) 31.

(** [re.sub(illegal_chars, '_', filename)]: the class matches one
    character at a time, each match is replaced by an underscore. *)
Definition re_sub_illegal (s : list ascii) : list ascii :=
  map (λ c, if illegal_chars c then "_"%char else c) s.

Definition dot_or_space (c : ascii) : bool :=
  Ascii.eqb c "." || Ascii.eqb c " ".

Definition sanitize_filename (filename : string) : string :=
  let sanitized := re_sub_illegal (chars filename) in
  let sanitized := rstrip dot_or_space sanitized in
  let sanitized :=
    if Nat.ltb 200 (length sanitized) then firstn 200 sanitized else sanitized in
  str sanitized.

(** The sanitization rule in the words of the specification: the
    characters are stripped, and an empty result falls back to a default
    name. Used only to compare with [sanitize_filename]. *)
Definition spec_sanitize (default : string) (filename : string) : string :=
  let kept := filter (λ c, negb (illegal_chars c)) (chars filename) in
  let kept := firstn 200 (rstrip dot_or_space kept) in
  match kept with
  | [] => default
  | _ => str kept
  end.

(* ===================================================================== *)
(** ** Regular expressions of the URL helpers (lines 70-102) *)
(* ===================================================================== *)

(** The two patterns of the source are a literal prefix, one capturing
    group around a greedy [[class]+], and an optional literal tail. *)
Inductive atom :=
  | Lit (c : ascii)
  | GroupPlus (cls : ascii → bool).

(** Greedy [+] with backtracking: at least one character of the class;
    longer runs are tried first, the continuation [k] gets the run and
    the rest of the subject. *)
Fixpoint plus_greedy {R} (cls : ascii → bool)
    (k : list ascii → list ascii → option R)
    (run s : list ascii) : option R :=
  match s with
  | [] => None
  | c :: s' =>
      if cls c then
        match plus_greedy cls k (run ++ [c]) s' with
        | Some r => Some r
        | None => k (run ++ [c]) s'
        end
      else None
  end.

(** Match the pattern at the start of [s]; the result is group 1. *)
Fixpoint match_atoms (p : list atom) (grp s : list ascii)
    : option (list ascii) :=
  match p with
  | [] => Some grp
  | Lit c :: p' =>
      match s with
      | [] => None
      | c' :: s' => if Ascii.eqb c c' then match_atoms p' grp s' else None
      end
  | GroupPlus cls :: p' =>
      plus_greedy cls (λ g rest, match_atoms p' g rest) [] s
  end.

(** [re.search(p, s)]: the leftmost position where the pattern matches;
    the answer is [match.group(1)]. *)
Fixpoint re_search (p : list atom) (s : list ascii) : option (list ascii) :=
  match match_atoms p [] s with
  | Some g => Some g
  | None =>
      match s with
      | [] => None
      | _ :: s' => re_search p s'
      end
  end.

Definition in_range (lo hi c : ascii) : bool :=
  Nat.leb (nat_of_ascii lo) (nat_of_ascii c)
  && Nat.leb (nat_of_ascii c) (nat_of_ascii hi).

(** The class [[a-zA-Z0-9-_]]: three ranges, then the literals [-] and
    [_]. *)
Definition id_class (c : ascii) : bool :=
  in_range "a" "z" c || in_range "A" "Z" c || in_range "0" "9" c
  || Ascii.eqb c "-" || Ascii.eqb c "_".

Definition lits (s : string) : list atom := map Lit (chars s).

Definition file_id_pattern : list atom :=
  lits "/file/d/" ++ [GroupPlus id_class] ++ lits "/".

Definition folder_id_pattern : list atom :=
  lits "/drive/folders/" ++ [GroupPlus id_class].

Definition extract_file_id_from_url (url : string) : option string :=
  match re_search file_id_pattern (chars url) with
  | Some g => Some (str g)
  | None => None
  end.

Definition extract_folder_id_from_url (url : string) : option string :=
  match re_search folder_id_pattern (chars url) with
  | Some g => Some (str g)
  | None => None
  end.

Definition is_folder_url (url : string) : bool :=
  contains (chars "/drive/folders/") (chars url).

Definition is_file_url (url : string) : bool :=
  contains (chars "/file/d/") (chars url).

(** The URL built for a collected id (line 491). *)
Definition file_url_of (file_id : string) : string :=
  "https://drive.google.com/file/d/" ++ file_id ++ "/view".

(* ===================================================================== *)
(** ** Exceptions *)
(* ===================================================================== *)

Inductive result (A : Type) : Type :=
  | Ok (a : A)
  | Raise.
Arguments Ok {A} a.
Arguments Raise {A}.

Definition rbind {A B} (r : result A) (k : A → result B) : result B :=
  match r with
  | Ok a => k a
  | Raise => Raise
  end.

(** [try: body except Exception: handler] *)
Definition try_except {A} (body handler : result A) : result A :=
  match body with
  | Ok a => Ok a
  | Raise => handler
  end.

Definition is_raise {A} (r : result A) : bool :=
  match r with
  | Ok _ => false
  | Raise => true
  end.

(** Python [bytes]. *)
Abbreviation bytes := (list Byte.byte).

#[global] Instance byte_eq_dec : EqDecision Byte.byte := Byte.byte_eq_dec.

(* ===================================================================== *)
(** ** Output naming in [download_pdf] (lines 551-561) *)
(* ===================================================================== *)

(** [f"{sanitized_title}.pdf"] and [f"{sanitized_title}_{counter}.pdf"]. *)
Definition pdf_filename (sanitized_title : string) : string :=
  sanitized_title ++ ".pdf".

Definition pdf_filename_n (sanitized_title : string) (counter : nat) : string :=
  sanitized_title ++ "_" ++ pretty counter ++ ".pdf".

(** What [Path.exists()] answers in a directory state. [dir] is the set
    of the paths that exist; [refused p] tells that the test raises for
    [p] instead of answering, as it does with an [OSError] for a name
    that the file system does not take (a name too long, which a title
    of 200 characters can make). *)
Definition path_exists (dir : gset string) (refused : string → bool)
    (p : string) : result bool :=
  if refused p then Raise else Ok (bool_decide (p ∈ dir)).

(** The [while output_path.exists()] loop. [fuel] bounds the number of
    times the loop condition is evaluated: [None] is a loop that has not
    ended within [fuel] tests, [Some Raise] a loop that its test has
    left by raising, [Some (Ok name)] a loop that has ended with
    [name]. *)
Fixpoint while_exists (fuel : nat) (exists_ : string → result bool)
    (sanitized_title output_path : string) (counter : nat)
    : option (result string) :=
  match fuel with
  | 0 => None
  | S fuel' =>
      match exists_ output_path with
      | Raise => Some Raise
      | Ok true =>
          while_exists fuel' exists_ sanitized_title
            (pdf_filename_n sanitized_title counter) (S counter)
      | Ok false => Some (Ok output_path)
      end
  end.

Definition free_output_path (fuel : nat) (exists_ : string → result bool)
    (sanitized_title : string) : option (result string) :=
  while_exists fuel exists_ sanitized_title (pdf_filename sanitized_title) 1.

(** The names numbered [counter], ..., [counter + m - 1] are all taken:
    the test answers [True] for each. *)
Definition taken (exists_ : string → result bool) (sanitized_title : string)
    (counter m : nat) : Prop :=
  ∀ j, counter ≤ j < counter + m →
       exists_ (pdf_filename_n sanitized_title j) = Ok true.

(* ===================================================================== *)
(** ** Page discovery and capture: [capture_blob_images] (lines 160-312) *)
(* ===================================================================== *)

Module Pages.

(** What the page answers. [blob_urls k] is the result of the probe of
    attempt [k] (line 181), [scroll_last k] and [press_page_down k] are
    the two advance actions of attempt [k] (lines 220 and 233);
    [fetch_blob] is the primary capture and [canvas_png] the fallback
    with its base-64 decoding (lines 249 and 271-293; [None] is the
    falsy answer of line 292). *)
Record env := {
  blob_urls : nat → result (list string);
  scroll_last : nat → result unit;
  press_page_down : nat → result unit;
  fetch_blob : string → result bytes;
  canvas_png : string → result (option bytes)
}.

Definition max_scroll_attempts : nat := 8.
Definition max_pages_cap : nat := 200.
Definition max_attempts : nat := 1000.

(** Lines 196-199, one turn of [for u in urls]. *)
Definition add_url (st : list string * nat) (u : string) : list string * nat :=
  if bool_decide (u ∈ st.1) then st else (st.1 ++ [u], S st.2).

Definition add_urls (collected_urls : list string) (urls : list string)
    : list string * nat :=
  fold_left add_url urls (collected_urls, 0).

(** Lines 219-235. *)
Definition advance (e : env) (attempt : nat) : result unit :=
  try_except (scroll_last e attempt)
    (try_except (press_page_down e attempt) (Ok tt)).

(** How the [for attempt in range(0, 1000)] loop was left. *)
Inductive exit :=
  | CapReached       (* line 204: break *)
  | NoNewUrls        (* line 214: break *)
  | RangeExhausted.  (* the range is used up *)

Record discovery := {
  collected_urls : list string;
  no_new_count : nat;
  how : exit
}.

(** The loop of lines 179-238. [fuel] is what is left of the range and
    [attempt] the loop variable. The second component counts the probes
    made; it is not a value of the program. *)
Fixpoint discovery_loop (e : env) (fuel attempt : nat)
    (collected : list string) (no_new : nat) : result discovery * nat :=
  match fuel with
  | 0 => (Ok {| collected_urls := collected; no_new_count := no_new;
                how := RangeExhausted |}, attempt)
  | S fuel' =>
      match blob_urls e attempt with
      | Raise => (Raise, S attempt)
      | Ok urls =>
          let '(collected, added) := add_urls collected urls in
          if Nat.leb max_pages_cap (length collected) then
            (Ok {| collected_urls := collected; no_new_count := no_new;
                   how := CapReached |}, S attempt)
          else
            let no_new := if Nat.eqb added 0 then no_new + 1 else 0 in
            if Nat.leb max_scroll_attempts no_new then
              (Ok {| collected_urls := collected; no_new_count := no_new;
                     how := NoNewUrls |}, S attempt)
            else
              match advance e attempt with
              | Raise => (Raise, S attempt)
              | Ok _ => discovery_loop e fuel' (S attempt) collected no_new
              end
      end
  end.

Definition discover (e : env) : result discovery * nat :=
  discovery_loop e max_attempts 0 [] 0.

(** Lines 243-305, one turn of [for idx, blob_url in enumerate(...)]. *)
Definition capture_one (e : env) (image_data_list : list bytes)
    (blob_url : string) : list bytes :=
  let primary :=
    rbind (fetch_blob e blob_url) (λ image_buffer,
      Ok (image_data_list ++ [image_buffer])) in
  let fallback :=
    try_except
      (rbind (canvas_png e blob_url) (λ img_b64,
         match img_b64 with
         | Some image_buffer => Ok (image_data_list ++ [image_buffer])
         | None => Ok image_data_list
         end))
      (Ok image_data_list) in
  match try_except (try_except primary fallback) (Ok image_data_list) with
  | Ok l => l
  | Raise => image_data_list
  end.

Definition capture_blob_images (e : env) : list bytes :=
  let body :=
    rbind (discover e).1 (λ d,
      Ok (fold_left (capture_one e) (collected_urls d) [])) in
  match try_except body (Ok []) with
  | Ok l => l
  | Raise => []
  end.

(** The identifiers presented by the probes of attempts below [n]. *)
Fixpoint seen (e : env) (n : nat) : list string :=
  match n with
  | 0 => []
  | S n' =>
      seen e n' ++
      match blob_urls e n' with
      | Ok urls => urls
      | Raise => []
      end
  end.

(** Every probe presents an identifier that no earlier probe has
    presented. *)
Definition fresh_each_probe (e : env) : Prop :=
  ∀ k, ∃ urls u, blob_urls e k = Ok urls ∧ u ∈ urls ∧ u ∉ seen e k.

(** Every probe presents exactly one such identifier. *)
Definition one_fresh_each_probe (e : env) : Prop :=
  ∀ k, ∃ urls u,
    blob_urls e k = Ok urls ∧ u ∈ urls ∧ (u ∉ seen e k)
    ∧ ∀ v, v ∈ urls → v = u ∨ v ∈ seen e k.

(** The environment in which a failed probe answers an empty list. *)
Definition forgiving (e : env) : env :=
  {| blob_urls := λ k, try_except (blob_urls e k) (Ok []);
     scroll_last := scroll_last e;
     press_page_down := press_page_down e;
     fetch_blob := fetch_blob e;
     canvas_png := canvas_png e |}.

End Pages.

(* ===================================================================== *)
(** ** Folder scan: [extract_files_from_folder] (lines 375-505) *)
(* ===================================================================== *)

Module Folder.

(** One entry of [file_data]: the dictionaries [{id: ..., name: ...}]
    of line 443. *)
Record file_row := { row_id : string; row_name : string }.

(** [open_page] stands for [browser.new_page] and [page.goto] (lines
    390-394), [file_rows k] for the probe of attempt [k] (line 420),
    [scroll_by k] and [press_page_down k] for the advance actions
    (lines 476 and 479), [close_page] for line 496. *)
Record env := {
  open_page : result unit;
  file_rows : nat → result (list file_row);
  scroll_by : nat → result unit;
  press_page_down : nat → result unit;
  close_page : result unit
}.

Definition max_scroll_attempts : nat := 15.
Definition max_attempts : nat := 100.

(** Lines 455-459, one turn of [for file_data_item in file_data]; the
    empty id is falsy. *)
Definition add_row (st : gset string * nat) (r : file_row) : gset string * nat :=
  if negb (String.eqb (row_id r) "") && negb (bool_decide (row_id r ∈ st.1))
  then ({[row_id r]} ∪ st.1, S st.2)
  else st.

Definition add_rows (collected_file_ids : gset string) (file_data : list file_row)
    : gset string * nat :=
  fold_left add_row file_data (collected_file_ids, 0).

(** Lines 475-481. *)
Definition advance (e : env) (attempt : nat) : result unit :=
  try_except (scroll_by e attempt)
    (try_except (press_page_down e attempt) (Ok tt)).

Inductive exit :=
  | NoNewFiles       (* line 470: break *)
  | Excepted         (* line 485: except Exception ... break *)
  | RangeExhausted.

Record scan := {
  collected_file_ids : gset string;
  probes : nat;
  how : exit
}.

(** The loop of lines 416-487; every turn is inside [try ... except
    Exception: break]. *)
Fixpoint scan_loop (e : env) (fuel attempt : nat)
    (collected : gset string) (no_new : nat) : scan :=
  match fuel with
  | 0 => {| collected_file_ids := collected; probes := attempt;
            how := RangeExhausted |}
  | S fuel' =>
      match file_rows e attempt with
      | Raise => {| collected_file_ids := collected; probes := S attempt;
                    how := Excepted |}
      | Ok file_data =>
          let '(collected, added) := add_rows collected file_data in
          let no_new := if Nat.eqb added 0 then no_new + 1 else 0 in
          if Nat.leb max_scroll_attempts no_new then
            {| collected_file_ids := collected; probes := S attempt;
               how := NoNewFiles |}
          else
            match advance e attempt with
            | Raise => {| collected_file_ids := collected;
                          probes := S attempt; how := Excepted |}
            | Ok _ => scan_loop e fuel' (S attempt) collected no_new
            end
      end
  end.

Definition scan_folder (e : env) : scan := scan_loop e max_attempts 0 ∅ 0.

(** The whole function, without the folder name (lines 399-407 compute
    it inside a [try] whose handler is [pass]; it takes no part in the
    list of URLs). [iter] is the order in which Python iterates over a
    set: it is fixed by the hash values of the elements and is not the
    order of insertion. *)
Definition extract_files_from_folder (iter : gset string → list string)
    (e : env) : list string :=
  let body :=
    rbind (open_page e) (λ _,
      let ids := collected_file_ids (scan_folder e) in
      let file_urls := map file_url_of (iter ids) in
      rbind (close_page e) (λ _, Ok file_urls)) in
  match try_except body (Ok []) with
  | Ok l => l
  | Raise => []
  end.

(** The non-empty ids of a probe result. *)
Definition row_ids (rows : list file_row) : list string :=
  filter (λ i, i ≠ "") (row_id <$> rows).

(** The non-empty ids presented by the probes of attempts below [n]. *)
Fixpoint seen (e : env) (n : nat) : list string :=
  match n with
  | 0 => []
  | S n' =>
      seen e n' ++
      match file_rows e n' with
      | Ok rows => row_ids rows
      | Raise => []
      end
  end.

(** First-seen order: each id once, at its first occurrence. *)
Definition first_seen (ids : list string) : list string :=
  (Pages.add_urls [] ids).1.

(** An iteration order is any enumeration of the members of the set. *)
Definition iteration_order (iter : gset string → list string) : Prop :=
  ∀ s, iter s ≡ₚ elements s.

Definition forgiving (e : env) : env :=
  {| open_page := open_page e;
     file_rows := λ k, try_except (file_rows e k) (Ok []);
     scroll_by := scroll_by e;
     press_page_down := press_page_down e;
     close_page := close_page e |}.

End Folder.

(* ===================================================================== *)
(** ** PDF assembly: [compile_pdf] (lines 314-373) *)
(* ===================================================================== *)

Module Assemble.

(** [img.mode], as far as line 345 looks at it. *)
Inductive mode := RGBA | LA | P | OtherMode.

Definition needs_rgb (m : mode) : bool :=
  match m with
  | RGBA | LA | P => true
  | OtherMode => false
  end.

(** The records handed to the logging handlers of lines 27-35, as far
    as their level lets them through ([INFO] and above: the [debug]
    calls write nothing). First those of [compile_pdf], then those of
    [download_pdf] and of the functions it calls; a URL or the text of
    an exception in a message is not kept. *)
Inductive event :=
  | ErrorNoImages                      (* line 326 *)
  | InfoCompiling (n : nat)            (* line 330 *)
  | WarningConverting (img_path : string)  (* line 355 *)
  | InfoCompiled (output_path : string)    (* line 362 *)
  | ErrorCompiling                     (* line 372 *)
  | InfoProcessing                     (* line 521 *)
  | InfoLoading                        (* line 534 *)
  | InfoWaiting                        (* line 110 *)
  | InfoFoundPages (count : nat)       (* line 135 *)
  | WarningNoPages                     (* line 140 *)
  | InfoTitle (title : string)         (* line 543 *)
  | InfoCapturing                      (* line 166 *)
  | WarningPageCap                     (* line 205 *)
  | InfoFoundUrls (n : nat)            (* line 240 *)
  | InfoCapturingPage (idx n : nat)    (* line 245 *)
  | WarningCanvasNoData (idx : nat)    (* line 297 *)
  | WarningCanvasFailed (idx : nat)    (* line 300 *)
  | InfoCaptured (n : nat)             (* line 307 *)
  | ErrorCapturing                     (* line 311 *)
  | InfoSaved (output_path : string)   (* line 566 *)
  | ErrorDownloading.                  (* line 570 *)

(** The file system and the libraries as oracles.
    - [open_wb p]: does [open(p, 'wb')] succeed (the file then exists
      and is empty);
    - [write_bytes p b]: does [f.write(b)] on the file opened at [p],
      with the closing of the file, succeed;
    - [torn_write p b]: what a failed [f.write(b)] leaves in the file at
      [p] (some part of [b]; nothing is assumed of it);
    - [image_open b]: [Image.open] on a file of content [b], and the
      mode of the image;
    - [composite_rgb b]: lines 347-348 and the JPEG encoding of line
      350, on the image of content [b];
    - [save_at p]: can line 350 store its result at [p] (a failed
      [save] leaves no file behind);
    - [img2pdf_convert bs]: [img2pdf.convert] on files of contents
      [bs];
    - [stat p]: does [Path.exists()] answer for [p], or raise (an
      [OSError] other than the file being absent, such as a name too
      long);
    - [unlink_at p]: does [unlink] succeed on the file at [p]. *)
Record env := {
  open_wb : string → result unit;
  write_bytes : string → bytes → result unit;
  torn_write : string → bytes → bytes;
  image_open : bytes → result mode;
  composite_rgb : bytes → result bytes;
  save_at : string → result unit;
  img2pdf_convert : list bytes → result bytes;
  stat : string → result unit;
  unlink_at : string → result unit
}.

(** The file that the handler of line 32 appends every record to. *)
Definition log_file : string := "gdrive_pdf_downloader.log".

(** [log] is what has been logged: the lines of [log_file] (and of
    stdout), in order. [files] is the rest of the file system: the
    content of every file other than [log_file]. A statement about
    [files] is a statement about those paths; what [files] holds at
    [log_file] stands for nothing. *)
Record state := {
  files : gmap string bytes;
  log : list event
}.

(** State and exceptions: a raised exception keeps the state reached. *)
Definition M (A : Type) : Type := state → result A * state.

Definition ret {A} (a : A) : M A := λ st, (Ok a, st).

Definition bind {A B} (m : M A) (k : A → M B) : M B :=
  λ st, match m st with
        | (Ok a, st') => k a st'
        | (Raise, st') => (Raise, st')
        end.

Definition try_exceptM {A} (body handler : M A) : M A :=
  λ st, match body st with
        | (Ok a, st') => (Ok a, st')
        | (Raise, st') => handler st'
        end.

Definition lift {A} (r : result A) : M A := λ st, (r, st).

Definition raise {A} : M A := λ st, (Raise, st).

(** A record is appended to the log; the logging calls do not raise. *)
Definition logger (ev : event) : M unit :=
  λ st, (Ok tt, {| files := files st; log := log st ++ [ev] |}).

Definition put_file (p : string) (b : bytes) : M unit :=
  λ st, (Ok tt, {| files := <[p := b]> (files st); log := log st |}).

Definition remove_file (p : string) : M unit :=
  λ st, (Ok tt, {| files := delete p (files st); log := log st |}).

(** [img_path.unlink()]: the file is removed, or the call raises and
    the file stays. *)
Definition unlink (e : env) (p : string) : M unit :=
  match unlink_at e p with
  | Ok _ => remove_file p
  | Raise => raise
  end.

(** [img_path.exists()]: the answer, or an exception. *)
Definition exists_ (e : env) (p : string) : M bool :=
  λ st, (path_exists (dom (files st)) (λ q, is_raise (stat e q)) p, st).

Definition read_file (p : string) : M bytes :=
  λ st, match files st !! p with
        | Some b => (Ok b, st)
        | None => (Raise, st)
        end.

#[export] Instance M_ret : MRet M := @ret.
#[export] Instance M_bind : MBind M := λ A B k m, bind m k.

Fixpoint foldM {A B} (f : B → A → M B) (l : list A) (b : B) : M B :=
  match l with
  | [] => ret b
  | a :: l' => b' ← f b a; foldM f l' b'
  end.

Fixpoint mapM {A B} (f : A → M B) (l : list A) : M (list B) :=
  match l with
  | [] => ret []
  | a :: l' => b ← f a; bs ← mapM f l'; ret (b :: bs)
  end.

(** [f.write(b)] on the file opened at [p]: the file holds [b], or the
    call raises and the file holds what had been written by then. *)
Definition write_to (e : env) (p : string) (b : bytes) : M unit :=
  match write_bytes e p b with
  | Ok _ => put_file p b
  | Raise => put_file p (torn_write e p b);; raise
  end.

(** [with open(p, 'wb') as f: f.write(b)] *)
Definition write_file (e : env) (p : string) (b : bytes) : M unit :=
  lift (open_wb e p);;
  put_file p [];;
  write_to e p b.

(** [f"{idx:04d}"] *)
Definition pad4 (idx : nat) : string :=
  let digits := pretty idx in
  str (replicate (4 - String.length digits) "0"%char) ++ digits.

Definition temp_dir : string := "temp_images".

(** [self.temp_dir / f"page_{idx:04d}.png"] *)
Definition temp_path (idx : nat) : string :=
  temp_dir ++ "/page_" ++ pad4 idx ++ ".png".

(** [Path.with_suffix]: the part of the last path component from its
    last dot on is replaced; a component without such a part gets the
    suffix appended. [r] is the path reversed, [seen] tells that a
    character of the component was passed. *)
Fixpoint cut_suffix (r : list ascii) (seen : bool) : option (list ascii) :=
  match r with
  | [] => None
  | c :: r' =>
      if Ascii.eqb c "/" then None
      else if Ascii.eqb c "." then
        match r' with
        | [] => None
        | d :: _ => if Ascii.eqb d "/" || negb seen then None else Some r'
        end
      else cut_suffix r' true
  end.

Definition with_suffix (p suffix : string) : string :=
  match cut_suffix (rev (chars p)) false with
  | Some r => str (rev r) ++ suffix
  | None => p ++ suffix
  end.

(** Lines 334-338. *)
Definition save_temp (e : env) (acc : nat * list string) (img_data : bytes)
    : M (nat * list string) :=
  let temp_path := temp_path acc.1 in
  write_file e temp_path img_data;;
  ret (S acc.1, acc.2 ++ [temp_path]).

(** Lines 342-356. *)
Definition convert_one (e : env) (rgb_image_paths : list string)
    (img_path : string) : M (list string) :=
  try_exceptM
    (b ← read_file img_path;
     m ← lift (image_open e b);
     if needs_rgb m then
       jpeg ← lift (composite_rgb e b);
       let rgb_path := with_suffix img_path ".jpg" in
       lift (save_at e rgb_path);;
       put_file rgb_path jpeg;;
       ret (rgb_image_paths ++ [rgb_path])
     else ret (rgb_image_paths ++ [img_path]))
    (logger (WarningConverting img_path);;
     ret (rgb_image_paths ++ [img_path])).

(** Lines 334-338, the whole loop. *)
Definition save_temps (e : env) (image_data_list : list bytes)
    : M (list string) :=
  saved ← foldM (save_temp e) image_data_list (0, []);
  ret saved.2.

(** Lines 341-356, the whole loop. *)
Definition convert_images (e : env) (temp_image_paths : list string)
    : M (list string) :=
  foldM (convert_one e) temp_image_paths [].

(** Lines 359-360: the destination is opened, then the PDF is
    computed, then it is written. *)
Definition write_pdf (e : env) (rgb_image_paths : list string)
    (output_path : string) : M unit :=
  lift (open_wb e output_path);;
  put_file output_path [];;
  contents ← mapM read_file rgb_image_paths;
  pdf ← lift (img2pdf_convert e contents);
  write_to e output_path pdf.

(** Lines 365-367. *)
Definition clean_one (e : env) (_ : unit) (img_path : string) : M unit :=
  present ← exists_ e img_path;
  if (present : bool) then unlink e img_path else ret tt.

Definition clean_up (e : env) (paths : list string) : M unit :=
  foldM (clean_one e) paths tt.

(** Lines 330-369, the body of the [try]. *)
Definition compile_body (e : env) (image_data_list : list bytes)
    (output_path : string) : M bool :=
  logger (InfoCompiling (length image_data_list));;
  temp_image_paths ← save_temps e image_data_list;
  rgb_image_paths ← convert_images e temp_image_paths;
  write_pdf e rgb_image_paths output_path;;
  logger (InfoCompiled output_path);;
  clean_up e (temp_image_paths ++ rgb_image_paths);;
  ret true.

Definition compile_pdf (e : env) (image_data_list : list bytes)
    (output_path : string) : M bool :=
  match image_data_list with
  | [] => logger ErrorNoImages;; ret false
  | _ :: _ =>
      try_exceptM (compile_body e image_data_list output_path)
        (logger ErrorCompiling;; ret false)
  end.

Definition is_ok {A} (r : result A) : bool := negb (is_raise r).

(** Can the image at [img_path] not be decoded or normalized, in the
    state [st]: the body of the [try] of lines 343-353 raises. *)
Definition normalize_fails (e : env) (st : state) (img_path : string) : bool :=
  match files st !! img_path with
  | None => true
  | Some b =>
      match image_open e b with
      | Raise => true
      | Ok m =>
          needs_rgb m
          && (is_raise (composite_rgb e b)
              || is_raise (save_at e (with_suffix img_path ".jpg")))
      end
  end.

(** Do all the writes of lines 336-337 succeed, from index [idx] on. *)
Fixpoint temps_saved (e : env) (idx : nat) (image_data_list : list bytes)
    : bool :=
  match image_data_list with
  | [] => true
  | img_data :: rest =>
      is_ok (open_wb e (temp_path idx))
      && is_ok (write_bytes e (temp_path idx) img_data)
      && temps_saved e (S idx) rest
  end.

(** Does [compile_pdf] get as far as opening the destination: every
    temporary page file is written and the destination opens. *)
Definition destination_opened (e : env) (image_data_list : list bytes)
    (output_path : string) : bool :=
  match image_data_list with
  | [] => false
  | _ :: _ =>
      temps_saved e 0 image_data_list && is_ok (open_wb e output_path)
  end.

(** The paths [compile_pdf] may create for [n] images. *)
Definition is_temp_file (n : nat) (p : string) : Prop :=
  ∃ idx, idx < n ∧ (p = temp_path idx ∨ p = with_suffix (temp_path idx) ".jpg").

End Assemble.

(* ===================================================================== *)
(** ** Scenarios *)
(* ===================================================================== *)

Module Scenario.

Definition blob_name (i : nat) : string :=
  "blob:https://drive.google.com/" ++ pretty i.

Definition png : bytes := [Byte.x89; Byte.x50; Byte.x4e; Byte.x47].

(** A viewer that shows [n] pages more at every probe. *)
Definition burst (n : nat) : Pages.env :=
  {| Pages.blob_urls := λ k, Ok (blob_name <$> seq (n * k) n);
     Pages.scroll_last := λ _, Ok tt;
     Pages.press_page_down := λ _, Ok tt;
     Pages.fetch_blob := λ _, Ok png;
     Pages.canvas_png := λ _, Ok None |}.


Definition row_a := {| Folder.row_id := "a"; Folder.row_name := "x.pdf" |}.
Definition row_b := {| Folder.row_id := "b"; Folder.row_name := "y.pdf" |}.

Definition folder_of (rows : nat → result (list Folder.file_row))
    : Folder.env :=
  {| Folder.open_page := Ok tt;
     Folder.file_rows := rows;
     Folder.scroll_by := λ _, Ok tt;
     Folder.press_page_down := λ _, Ok tt;
     Folder.close_page := Ok tt |}.

(** The folder of the first end-to-end scenario: [a], then [a] and
    [b]. *)
Definition folder_ab : Folder.env :=
  folder_of (λ k, match k with
                  | 0 => Ok [row_a]
                  | S _ => Ok [row_a; row_b]
                  end).

(** The same entries met in the other order. *)
Definition folder_ba : Folder.env :=
  folder_of (λ k, match k with
                  | 0 => Ok [row_b]
                  | S _ => Ok [row_b; row_a]
                  end).


Definition bad_image : bytes := [Byte.x00].

(** Libraries that cannot read [bad_image]: [Image.open] raises on it
    and so does [img2pdf.convert]; every other image is RGBA. The file
    system never fails. *)
Definition strict_pdf : Assemble.env :=
  {| Assemble.open_wb := λ _, Ok tt;
     Assemble.write_bytes := λ _ _, Ok tt;
     Assemble.torn_write := λ _ _, [];
     Assemble.image_open := λ b,
       if decide (b = bad_image) then Raise else Ok Assemble.RGBA;
     Assemble.composite_rgb := λ b, Ok (b ++ [Byte.xff]);
     Assemble.save_at := λ _, Ok tt;
     Assemble.img2pdf_convert := λ bs,
       if decide (bad_image ∈ bs) then Raise else Ok (concat bs);
     Assemble.stat := λ _, Ok tt;
     Assemble.unlink_at := λ _, Ok tt |}.

(** The same, with an [img2pdf.convert] that takes every file. *)
Definition lenient_pdf : Assemble.env :=
  {| Assemble.open_wb := λ _, Ok tt;
     Assemble.write_bytes := λ _ _, Ok tt;
     Assemble.torn_write := λ _ _, [];
     Assemble.image_open := λ b,
       if decide (b = bad_image) then Raise else Ok Assemble.RGBA;
     Assemble.composite_rgb := λ b, Ok (b ++ [Byte.xff]);
     Assemble.save_at := λ _, Ok tt;
     Assemble.img2pdf_convert := λ bs, Ok (concat bs);
     Assemble.stat := λ _, Ok tt;
     Assemble.unlink_at := λ _, Ok tt |}.

(** The libraries of [strict_pdf] on a file system where a file, once
    written, cannot be removed: [unlink] raises. *)
Definition sticky_pdf : Assemble.env :=
  {| Assemble.open_wb := λ _, Ok tt;
     Assemble.write_bytes := λ _ _, Ok tt;
     Assemble.torn_write := λ _ _, [];
     Assemble.image_open := λ b,
       if decide (b = bad_image) then Raise else Ok Assemble.RGBA;
     Assemble.composite_rgb := λ b, Ok (b ++ [Byte.xff]);
     Assemble.save_at := λ _, Ok tt;
     Assemble.img2pdf_convert := λ bs,
       if decide (bad_image ∈ bs) then Raise else Ok (concat bs);
     Assemble.stat := λ _, Ok tt;
     Assemble.unlink_at := λ _, Raise |}.

(** The libraries of [strict_pdf] on a file system where the write of
    the document breaks off after its first two bytes; the temporary
    files are written in full. *)
Definition full_disk_pdf : Assemble.env :=
  {| Assemble.open_wb := λ _, Ok tt;
     Assemble.write_bytes := λ p _,
       if decide (p = "out.pdf") then Raise else Ok tt;
     Assemble.torn_write := λ _ b, take 2 b;
     Assemble.image_open := λ b,
       if decide (b = bad_image) then Raise else Ok Assemble.RGBA;
     Assemble.composite_rgb := λ b, Ok (b ++ [Byte.xff]);
     Assemble.save_at := λ _, Ok tt;
     Assemble.img2pdf_convert := λ bs,
       if decide (bad_image ∈ bs) then Raise else Ok (concat bs);
     Assemble.stat := λ _, Ok tt;
     Assemble.unlink_at := λ _, Ok tt |}.

(** The length of a name in UTF-8 bytes, for characters below code
    point 256: two bytes from code point 128 on. *)
Definition utf8_length (p : string) : nat :=
  sum_list ((λ c, if Nat.ltb (nat_of_ascii c) 128 then 1 else 2) <$> chars p).

(** A file system that takes no name of more than [n] bytes, as Linux
    does with [n = 255]: the existence test raises for a longer one. *)
Definition name_limit (n : nat) (p : string) : bool :=
  Nat.ltb n (utf8_length p).

(** A title of 126 times the letter e with an acute accent (code point
    233). *)
Definition accented_title : string :=
  str (replicate 126 (ascii_of_nat 233)).

Definition empty_disk : Assemble.state :=
  {| Assemble.files := ∅; Assemble.log := [] |}.

End Scenario.

(* ===================================================================== *)
(** ** Names that need no sanitizing *)
(* ===================================================================== *)

(** The three conditions under which a name is left as it is. *)
Definition clean_name (s : list ascii) : Prop :=
  Forall (λ c, illegal_chars c = false) s
  ∧ (∀ c, last s = Some c → dot_or_space c = false)
  ∧ length s ≤ 200.

(** A name without any of the illegal characters. *)
Definition legal_name (s : string) : Prop :=
  Forall (λ c, illegal_chars c = false) (chars s).

(* ===================================================================== *)
(** ** Measures and inputs of the further properties *)
(* ===================================================================== *)

(** The elements of a list, each once, at the place of its first
    occurrence. *)
Fixpoint first_occurrences (l : list string) : list string :=
  match l with
  | [] => []
  | x :: l' => x :: filter (λ y, y ≠ x) (first_occurrences l')
  end.

Module PagesMore.

(** The probes page discovery may still make at the head of a turn, when
    nothing new is presented from attempt [m] on. *)
Definition turns_left (m attempt nn : nat) : nat :=
  if decide (attempt < m) then m - attempt + Pages.max_scroll_attempts
  else Pages.max_scroll_attempts - nn.

End PagesMore.

Module Cases.

(** A viewer that shows the same [n] pages at every probe. *)
Definition steady_pages (n : nat) : Pages.env :=
  {| Pages.blob_urls := λ _, Ok (Scenario.blob_name <$> seq 0 n);
     Pages.scroll_last := λ _, Ok tt;
     Pages.press_page_down := λ _, Ok tt;
     Pages.fetch_blob := λ _, Ok Scenario.png;
     Pages.canvas_png := λ _, Ok None |}.

End Cases.

Module Capture.

(** The payload that the capture loop of lines 243-305 gets for one url:
    the fetched bytes, else the decoded canvas picture, else nothing. *)
Definition captured (e : Pages.env) (blob_url : string) : option bytes :=
  match Pages.fetch_blob e blob_url with
  | Ok image_buffer => Some image_buffer
  | Raise =>
      match Pages.canvas_png e blob_url with
      | Ok (Some image_buffer) => Some image_buffer
      | Ok None | Raise => None
      end
  end.

End Capture.

Module FolderMore.

(** The probes the folder scan may still make at the head of a turn,
    when nothing new is presented from attempt [m] on. *)
Definition turns_left (m attempt nn : nat) : nat :=
  if decide (attempt < m) then m - attempt + Folder.max_scroll_attempts
  else Folder.max_scroll_attempts - nn.

(** A folder that lists the same two entries at every probe. *)
Definition steady_folder : Folder.env :=
  Scenario.folder_of (λ _, Ok [Scenario.row_a; Scenario.row_b]).

End FolderMore.

(* ===================================================================== *)
(** ** More of Python's [str] *)
(* ===================================================================== *)

Module PyStrMore.

(** [str.isspace] on the characters below 256: the ASCII white space,
    the separators 0x1c-0x1f, NEL and the no-break space. *)
Definition isspace (c : ascii) : bool :=
  let n := nat_of_ascii c in
  (Nat.leb 9 n && Nat.leb n 13) || (Nat.leb 28 n && Nat.leb n 32)
  || Nat.eqb n 133 || Nat.eqb n 160.

Fixpoint lstrip (strip : ascii → bool) (s : list ascii) : list ascii :=
  match s with
  | [] => []
  | c :: s' => if strip c then lstrip strip s' else s
  end.

(** [s.strip()] *)
Definition strip (s : string) : string :=
  str (rstrip isspace (lstrip isspace (chars s))).

(** [s.startswith(prefix)] and [s.endswith(suffix)] *)
Definition str_startswith (prefix s : string) : bool :=
  startswith (chars prefix) (chars s).

Definition str_endswith (suffix s : string) : bool :=
  startswith (rev (chars suffix)) (rev (chars s)).

(** [s.lower()] on the characters below 256: the letters A-Z and the
    capital letters of Latin-1 (0xc0-0xde but the multiplication sign). *)
Definition lower_char (c : ascii) : ascii :=
  let n := nat_of_ascii c in
  if (Nat.leb 65 n && Nat.leb n 90)
     || (Nat.leb 192 n && Nat.leb n 222 && negb (Nat.eqb n 215))
  then ascii_of_nat (n + 32) else c.

Definition lower (s : string) : string := str (map lower_char (chars s)).

(** The first occurrence of a non-empty [needle] is taken out of [s]:
    JavaScript's [s.replace(needle, '')]. *)
Fixpoint remove_first (needle s : list ascii) : list ascii :=
  if startswith needle s then drop (length needle) s
  else match s with
       | [] => []
       | c :: s' => c :: remove_first needle s'
       end.

(** All the occurrences of a non-empty [needle], found from left to
    right without overlap, are taken out of [s]: Python's
    [s.replace(needle, '')]. [skip] counts the characters of the
    occurrence under way that are still to be dropped. *)
Fixpoint remove_all (needle : list ascii) (skip : nat) (s : list ascii)
    : list ascii :=
  match s with
  | [] => []
  | c :: s' =>
      match skip with
      | S skip' => remove_all needle skip' s'
      | 0 =>
          if startswith needle s then remove_all needle (length needle - 1) s'
          else c :: remove_all needle 0 s'
      end
  end.

End PyStrMore.

(* ===================================================================== *)
(** ** [wait_for_pdf_pages] (lines 104-141) *)
(* ===================================================================== *)

Module Wait.

(** [network_idle k] is the wait of line 115 at attempt [k] and
    [blob_images_count k] the count that line 120 gets at attempt [k]. *)
Record env := {
  network_idle : nat → result unit;
  blob_images_count : nat → result nat
}.

(** The loop of lines 112-138; the second component counts the
    evaluations of line 120. *)
Fixpoint wait_loop (e : env) (fuel attempt : nat) : result bool * nat :=
  match fuel with
  | 0 => (Ok false, attempt)
  | S fuel' =>
      match try_except (network_idle e attempt) (Ok tt) with
      | Raise => (Raise, attempt)
      | Ok _ =>
          match blob_images_count e attempt with
          | Raise => (Raise, S attempt)
          | Ok count =>
              if Nat.ltb 0 count then (Ok true, S attempt)
              else wait_loop e fuel' (S attempt)
          end
      end
  end.

Definition wait_for_pdf_pages (e : env) (max_retries : nat)
    : result bool * nat :=
  wait_loop e max_retries 0.

Definition default_max_retries : nat := 10.

End Wait.

(* ===================================================================== *)
(** ** [get_document_title] (lines 143-158) and the folder name (lines
       387-407) *)
(* ===================================================================== *)

Module Title.

Import PyStrMore.

Definition drive_suffix : string := " - Google Drive".

(** The script of lines 145-157 on the title of the document. *)
Definition script_title (document_title : string) : string :=
  let title :=
    if negb (String.eqb document_title "")
       && contains (chars drive_suffix) (chars document_title)
    then str (remove_first (chars drive_suffix) (chars document_title))
    else document_title in
  if String.eqb title "" then "gdrive_document" else title.

(** [document_title] is what [document.title] holds, or the failure of
    [page.evaluate]. *)
Definition get_document_title (document_title : result string)
    : result string :=
  rbind document_title (λ t,
    let title := strip (script_title t) in
    Ok (if String.eqb title "" then "gdrive_document" else title)).

(** Lines 387 and 399-407: [page_title] is the answer of [page.title()]. *)
Definition folder_name_of (page_title : result string) : string :=
  let named :=
    rbind page_title (λ t,
      if negb (String.eqb t "") && negb (String.eqb t "Google Drive") then
        let folder_name :=
          strip (str (remove_all (chars drive_suffix) 0 (chars t))) in
        if negb (String.eqb folder_name "")
        then Ok (sanitize_filename folder_name)
        else Ok folder_name
      else Ok "gdrive_folder") in
  match try_except named (Ok "gdrive_folder") with
  | Ok folder_name => folder_name
  | Raise => "gdrive_folder"
  end.

End Title.

(* ===================================================================== *)
(** ** [load_urls_from_file] (lines 690-716) *)
(* ===================================================================== *)

Module Loader.

Import PyStrMore.

(** What [open] and the reading of the file give: the lines of the file,
    or one of the two failures the function tells apart. *)
Inductive opened :=
  | FileNotFound
  | OtherError
  | Lines (lines : list string).

(** Line 705. *)
Definition text_url (line : string) : option string :=
  let line := strip line in
  if negb (String.eqb line "") && str_startswith "http" line
  then Some line else None.

(** Line 699. *)
Definition csv_url (row : list string) : option string :=
  match row with
  | [] => None
  | first :: _ =>
      if str_startswith "http" (strip first) then Some (strip first) else None
  end.

(** [csv_reader] stands for [csv.reader]: the rows it makes of the
    lines, or its failure. *)
Definition load_urls_from_file (file_path : string) (f : opened)
    (csv_reader : list string → result (list (list string))) : list string :=
  match f with
  | FileNotFound => []
  | OtherError => []
  | Lines lines =>
      if str_endswith ".csv" (lower file_path) then
        match csv_reader lines with
        | Ok rows => omap csv_url rows
        | Raise => []
        end
      else omap text_url lines
  end.

End Loader.

(* ===================================================================== *)
(** ** [download_pdf] (lines 507-578) *)
(* ===================================================================== *)

Module Download.

Import Assemble.

(** What one document answers: [mkdir_output] is line 527, [new_page]
    line 530, [goto] line 535, [waiting] what [wait_for_pdf_pages]
    finds, [document_title] the title that the script of line 145 reads,
    [pages] what [capture_blob_images] finds, [pdf] the libraries and
    the file system under [compile_pdf] and under the test of line 558.
    The [finally] of lines 573-578 closes the page and swallows a
    failure to do so; it changes neither the files nor the result, logs
    nothing at the level of the handlers, and has no counterpart
    here. *)
Record env := {
  mkdir_output : result unit;
  new_page : result unit;
  goto : result unit;
  waiting : Wait.env;
  document_title : result string;
  pages : Pages.env;
  pdf : Assemble.env
}.

(** The second component of the result. *)
Inductive message :=
  | CouldNotDetect                  (* line 539 *)
  | FailedToCapture                 (* line 548 *)
  | FailedToCompile                 (* line 564 *)
  | SavedTo (output_path : string)  (* line 567 *)
  | ErrorRaised.                    (* line 571 *)

Definition downloads_dir : string := "downloads".

(** [output_dir / name], for a name without separator. *)
Definition child (output_dir name : string) : string :=
  output_dir ++ "/" ++ name.

(** Lines 551-561: the loop of [while_exists] on the paths of
    [output_dir], against the files that exist and the answers of
    [exists()]. A test that raises ends the loop with its exception. The
    loop tests its condition at most once more than there are files. *)
Definition choose_output_path (e : Assemble.env)
    (output_dir sanitized_title : string) : Assemble.M string :=
  λ st,
    match free_output_path (size (Assemble.files st) + 2)
            (path_exists (dom (Assemble.files st))
               (λ p, is_raise (Assemble.stat e p)))
            (child output_dir sanitized_title) with
    | Some r => (r, st)
    | None => (Raise, st)
    end.

(** The records are logged in order. *)
Definition log_all (evs : list event) : Assemble.M unit :=
  Assemble.foldM (λ _ ev, Assemble.logger ev) evs tt.

(** What [wait_for_pdf_pages] logs (lines 110, 135 and 140): the count
    of line 135 is the one of its last look. *)
Definition wait_records (e : Wait.env) (max_retries : nat) : list event :=
  InfoWaiting ::
  match Wait.wait_for_pdf_pages e max_retries with
  | (Ok true, looks) =>
      match Wait.blob_images_count e (looks - 1) with
      | Ok count => [InfoFoundPages count]
      | Raise => []
      end
  | (Ok false, _) => [WarningNoPages]
  | (Raise, _) => []
  end.

(** What one turn of the capture loop logs (lines 245, 297 and 300). *)
Definition page_records (e : Pages.env) (n idx : nat) (blob_url : string)
    : list event :=
  InfoCapturingPage idx n ::
  match Pages.fetch_blob e blob_url with
  | Ok _ => []
  | Raise =>
      match Pages.canvas_png e blob_url with
      | Ok (Some _) => []
      | Ok None => [WarningCanvasNoData idx]
      | Raise => [WarningCanvasFailed idx]
      end
  end.

(** What [capture_blob_images] logs (lines 166, 205, 240, 245-300, 307
    and 311). *)
Definition capture_records (e : Pages.env) : list event :=
  InfoCapturing ::
  match (Pages.discover e).1 with
  | Raise => [ErrorCapturing]
  | Ok d =>
      let urls := Pages.collected_urls d in
      match Pages.how d with
      | Pages.CapReached => [WarningPageCap]
      | _ => []
      end
      ++ [InfoFoundUrls (length urls)]
      ++ concat (imap (λ i blob_url,
                         page_records e (length urls) (S i) blob_url) urls)
      ++ [InfoCaptured (length (Pages.capture_blob_images e))]
  end.

(** Lines 529-567: the document at [drive_url], once [output_dir] is
    settled. *)
Definition download_to (e : env) (output_dir : string)
    : Assemble.M (bool * message) :=
  Assemble.lift (new_page e);;
  Assemble.logger InfoLoading;;
  Assemble.lift (goto e);;
  log_all (wait_records (waiting e) Wait.default_max_retries);;
  found ← Assemble.lift
            (Wait.wait_for_pdf_pages (waiting e) Wait.default_max_retries).1;
  if negb found then Assemble.ret (false, CouldNotDetect)
  else
    title ← Assemble.lift (Title.get_document_title (document_title e));
    Assemble.logger (InfoTitle title);;
    log_all (capture_records (pages e));;
    let image_data_list := Pages.capture_blob_images (pages e) in
    match image_data_list with
    | [] => Assemble.ret (false, FailedToCapture)
    | _ :: _ =>
        let sanitized_title := sanitize_filename title in
        output_path ← choose_output_path (pdf e) output_dir sanitized_title;
        compiled ← Assemble.compile_pdf (pdf e) image_data_list output_path;
        if negb compiled then Assemble.ret (false, FailedToCompile)
        else
          Assemble.logger (InfoSaved output_path);;
          Assemble.ret (true, SavedTo output_path)
    end.

(** Lines 521-567, the body of the [try]. *)
Definition download_body (e : env) (output_dir : option string)
    : Assemble.M (bool * message) :=
  Assemble.logger InfoProcessing;;
  output_dir ←
    match output_dir with
    | None => Assemble.ret downloads_dir
    | Some d => Assemble.lift (mkdir_output e);; Assemble.ret d
    end;
  download_to e output_dir.

(** Lines 520-571: the [try] and its handler. *)
Definition download_pdf (e : env) (output_dir : option string)
    : Assemble.M (bool * message) :=
  Assemble.try_exceptM (download_body e output_dir)
    (Assemble.logger ErrorDownloading;; Assemble.ret (false, ErrorRaised)).

(** The directory the files go to. *)
Definition dir_of (output_dir : option string) : string :=
  match output_dir with
  | None => downloads_dir
  | Some d => d
  end.

(** No file of [output_dir] is a temporary file of [compile_pdf]. *)
Definition apart_from_temp (output_dir : string) : Prop :=
  ∀ n name, ¬ Assemble.is_temp_file n (child output_dir name).

(** A document of two pages. *)
Definition report : env :=
  {| mkdir_output := Ok tt;
     new_page := Ok tt;
     goto := Ok tt;
     waiting := {| Wait.network_idle := λ _, Ok tt;
                   Wait.blob_images_count := λ _, Ok 1 |};
     document_title := Ok "Report: 1 - Google Drive";
     pages := Cases.steady_pages 2;
     pdf := Scenario.strict_pdf |}.

Definition disk_with_report : Assemble.state :=
  {| Assemble.files := {[ "downloads/Report_ 1.pdf" := Scenario.png ]};
     Assemble.log := [] |}.

End Download.

(** What a call of [download_pdf] that has answered [(ok, msg)] has done
    to the files: used by the properties below. *)
Definition download_post (output_dir : string) (e : Download.env)
    (st : Assemble.state) (ok : bool) (msg : Download.message) (st' : Assemble.state)
    : Prop :=
  (∀ p, is_Some (Assemble.files st !! p) → (∀ n, ¬ Assemble.is_temp_file n p) →
        Assemble.files st' !! p = Assemble.files st !! p)
  ∧ match msg with
    | Download.SavedTo p =>
        ok = true
        ∧ Assemble.files st !! p = None
        ∧ (∃ name, p = Download.child output_dir name ∧ legal_name name)
        ∧ (Download.apart_from_temp output_dir →
           ∃ contents pdf,
             contents ≠ []
             ∧ Assemble.img2pdf_convert (Download.pdf e) contents = Ok pdf
             ∧ Assemble.files st' !! p = Some pdf)
    | Download.CouldNotDetect | Download.FailedToCapture =>
        ok = false
        ∧ Assemble.files st' = Assemble.files st
        ∧ ∃ records,
            records ≠ []
            ∧ Assemble.log st' = Assemble.log st ++ records
    | Download.FailedToCompile | Download.ErrorRaised => ok = false
    end.

(* ===================================================================== *)
(** ** [download_multiple] (lines 580-688) *)
(* ===================================================================== *)

Module Batch.

Import Assemble.

(** The [message] of an entry of [results['details']]: the text of line
    622, or what [download_pdf] answered. *)
Inductive note :=
  | NoFilesFound
  | Answer (m : Download.message).

Inductive outcome := SUCCESS | FAILED.

#[export] Instance outcome_eq_dec : EqDecision outcome.
Proof. solve_decision. Defined.

(** An entry of [results['details']]. *)
Record detail := {
  url : string;
  status : outcome;
  message : note
}.

(** The dictionary of line 586. *)
Record results := {
  success : nat;
  failed : nat;
  details : list detail
}.

Definition no_results : results :=
  {| success := 0; failed := 0; details := [] |}.

(** What the browser and the file system answer during one batch. Of
    the log, the records of [download_pdf] and of [compile_pdf] are
    kept; those that [download_multiple] and
    [extract_files_from_folder] log themselves are not, and no property
    of the batch speaks of the log.
    [folder k u] and [folder_title k u] are the folder page for the
    [k]-th folder URL [u] (from 0); [mkdir_folder k] is line 627 for
    it; [folder_file k i u] is the document shown for the [i]-th file
    URL [u] of that folder, and [file i u] the one shown for the [i]-th
    standalone URL [u]. *)
Record env := {
  launch : result unit;
  folder : nat → string → Folder.env;
  folder_title : nat → string → result string;
  mkdir_folder : nat → result unit;
  folder_file : nat → nat → string → Download.env;
  file : nat → string → Download.env;
  close_browser : result unit
}.

(** Lines 589-599. *)
Definition classify (urls : list string) : list string * list string :=
  foldl (λ lists url,
           let '(folder_urls, file_urls) := lists in
           if is_folder_url url then (folder_urls ++ [url], file_urls)
           else if is_file_url url then (folder_urls, file_urls ++ [url])
           else (folder_urls, file_urls ++ [url]))
        ([], []) urls.

(** Lines 635-640, and lines 662-667 which do the same. *)
Definition tally (r : results) (file_url : string) (ok : bool)
    (m : Download.message) : results :=
  {| success := if ok then S (success r) else success r;
     failed := if ok then failed r else S (failed r);
     details := details r
                ++ [{| url := file_url;
                       status := if ok then SUCCESS else FAILED;
                       message := Answer m |}] |}.

(** Lines 621-622. *)
Definition tally_empty_folder (r : results) (folder_url : string) : results :=
  {| success := success r;
     failed := S (failed r);
     details := details r
                ++ [{| url := folder_url;
                       status := FAILED;
                       message := NoFilesFound |}] |}.

(** The loops of lines 631-643 and of lines 655-671: one [download_pdf]
    for each URL, in order; [file_idx] counts from 0. *)
Fixpoint download_each (document : nat → string → Download.env)
    (output_dir : option string) (file_idx : nat) (file_urls : list string)
    (r : results) : M results :=
  match file_urls with
  | [] => ret r
  | file_url :: rest =>
      answer ← Download.download_pdf (document file_idx file_url) output_dir;
      download_each document output_dir (S file_idx) rest
        (tally r file_url answer.1 answer.2)
  end.

(** [self.downloads_dir / folder_name], for a name without separator:
    joining the empty name gives the directory itself. *)
Definition join (dir name : string) : string :=
  if String.eqb name "" then dir else Download.child dir name.

(** The loop of lines 611-646. The folder name is used only when the
    folder gave URLs, that is when [extract_files_from_folder] reached
    its [return] of line 497 with the name of lines 399-407. *)
Fixpoint process_folders (iter : gset string → list string) (e : env)
    (folder_idx : nat) (folder_urls : list string) (r : results)
    : M results :=
  match folder_urls with
  | [] => ret r
  | folder_url :: rest =>
      let extracted_files :=
        Folder.extract_files_from_folder iter (folder e folder_idx folder_url) in
      match extracted_files with
      | [] =>
          process_folders iter e (S folder_idx) rest
            (tally_empty_folder r folder_url)
      | _ :: _ =>
          let folder_name :=
            Title.folder_name_of (folder_title e folder_idx folder_url) in
          let folder_output_dir := join Download.downloads_dir folder_name in
          lift (mkdir_folder e folder_idx);;
          r' ← download_each (folder_file e folder_idx)
                 (Some folder_output_dir) 0 extracted_files r;
          process_folders iter e (S folder_idx) rest r'
      end
  end.

(** [try: body finally: closing]. *)
Definition finallyM {A} (body : M A) (closing : M unit) : M A :=
  λ st, match body st with
        | (r, st') =>
            match closing st' with
            | (Ok _, st'') => (r, st'')
            | (Raise, st'') => (Raise, st'')
            end
        end.

(** The function; its value here is the dictionary that the summary of
    lines 677-688 prints, [None] when line 583 has refused an empty
    list. *)
Definition download_multiple (iter : gset string → list string) (e : env)
    (urls : list string) : M (option results) :=
  match urls with
  | [] => ret None
  | _ :: _ =>
      let '(folder_urls, file_urls) := classify urls in
      lift (launch e);;
      r ← finallyM
            (r ← process_folders iter e 0 folder_urls no_results;
             download_each (file e) None 0 file_urls r)
            (lift (close_browser e));
      ret (Some r)
  end.

(** The path that an entry reports as saved. *)
Definition saved_path (d : detail) : option string :=
  match message d with
  | Answer (Download.SavedTo output_path) => Some output_path
  | _ => None
  end.

Definition saved_paths (ds : list detail) : list string :=
  omap saved_path ds.

(** Every file that was there at [st0] and is no temporary file of
    [compile_pdf] is at [st] what it was. *)
Definition kept (st0 st : state) : Prop :=
  ∀ p, is_Some (files st0 !! p) → (∀ n, ¬ is_temp_file n p) →
       files st !! p = files st0 !! p.

(** The dictionary agrees with itself and with the files: [st0] is the
    state at the start of the batch and [st] the state reached. *)
Definition sound (st0 : state) (r : results) (st : state) : Prop :=
  success r + failed r = length (details r)
  ∧ success r = length (filter (λ d, status d = SUCCESS) (details r))
  ∧ Forall (λ d, status d = SUCCESS ↔ is_Some (saved_path d)) (details r)
  ∧ NoDup (saved_paths (details r))
  ∧ ∀ p, p ∈ saved_paths (details r) →
         files st0 !! p = None
         ∧ is_Some (files st !! p)
         ∧ ∀ n, ¬ is_temp_file n p.

(** Where an entry recorded in the folder phase comes from. *)
Definition from_folder (folder_urls : list string) (d : detail) : Prop :=
  (message d = NoFilesFound ∧ status d = FAILED ∧ url d ∈ folder_urls)
  ∨ (message d ≠ NoFilesFound ∧ ∃ file_id, url d = file_url_of file_id).

(** A batch of one folder of two documents between two standalone
    documents of the same title. *)
Definition mixed : env :=
  {| launch := Ok tt;
     folder := λ _ _, FolderMore.steady_folder;
     folder_title := λ _ _, Ok "Notes - Google Drive";
     mkdir_folder := λ _, Ok tt;
     folder_file := λ _ _ _, Download.report;
     file := λ _ _, Download.report;
     close_browser := Ok tt |}.

Definition mixed_urls : list string :=
  [ "https://drive.google.com/file/d/f1/view";
    "https://drive.google.com/drive/folders/d1";
    "https://example.org/report" ].

(** What the summary of that batch shows when [downloads] holds one
    document of that title already. *)
Definition mixed_results : results :=
  {| success := 4;
     failed := 0;
     details :=
       [ {| url := "https://drive.google.com/file/d/a/view";
            status := SUCCESS;
            message :=
              Answer (Download.SavedTo "downloads/Notes/Report_ 1.pdf") |};
         {| url := "https://drive.google.com/file/d/b/view";
            status := SUCCESS;
            message :=
              Answer (Download.SavedTo "downloads/Notes/Report_ 1_1.pdf") |};
         {| url := "https://drive.google.com/file/d/f1/view";
            status := SUCCESS;
            message :=
              Answer (Download.SavedTo "downloads/Report_ 1_1.pdf") |};
         {| url := "https://example.org/report";
            status := SUCCESS;
            message :=
              Answer (Download.SavedTo "downloads/Report_ 1_2.pdf") |} ] |}.

End Batch.

(* ===================================================================== *)
(** * Properties *)
(* ===================================================================== *)

(** ** File names *)

Section Strings.

Lemma chars_str l : chars (str l) = l.
Proof. apply list_ascii_of_string_of_list_ascii. Qed.

Lemma str_chars s : str (chars s) = s.
Proof. apply string_of_list_ascii_of_string. Qed.

Lemma chars_app s t : chars (s ++ t)%string = chars s ++ chars t.
Proof. induction s as [|c s IH]; simpl; [done | by rewrite IH]. Qed.

Lemma chars_inj s t : chars s = chars t → s = t.
Proof. intros H. by rewrite <- (str_chars s), <- (str_chars t), H. Qed.

End Strings.

Section Sanitize.

Lemma rstrip_split strip s :
  ∃ dropped, s = rstrip strip s ++ dropped
             ∧ Forall (λ c, strip c = true) dropped.
Proof.
  induction s as [|c s (dropped & Hs & Hd)]; simpl.
  - exists []. by split.
  - destruct (rstrip strip s) as [|c' t] eqn:E.
    + destruct (strip c) eqn:Hc.
      * exists (c :: dropped). simpl in Hs. split; [by rewrite Hs|].
        by constructor.
      * exists dropped. simpl in Hs. by subst s.
    + exists dropped. split; [|done]. by rewrite Hs at 1.
Qed.

Lemma rstrip_last strip s c :
  last (rstrip strip s) = Some c → strip c = false.
Proof.
  induction s as [|a s IH]; simpl; [done|].
  destruct (rstrip strip s) as [|c' t] eqn:E.
  - destruct (strip a) eqn:Ha; simpl; [done|]. by intros [= <-].
  - intros H. apply IH. by rewrite last_cons_cons in H.
Qed.

Lemma rstrip_Forall (Q : ascii → Prop) strip s :
  Forall Q s → Forall Q (rstrip strip s).
Proof.
  intros H. destruct (rstrip_split strip s) as (dropped & Hs & _).
  rewrite Hs in H. by apply Forall_app in H as [? _].
Qed.

Lemma re_sub_illegal_legal s :
  Forall (λ c, illegal_chars c = false) (re_sub_illegal s).
Proof.
  unfold re_sub_illegal. apply Forall_forall. intros c Hc.
  apply list_elem_of_fmap in Hc as (a & -> & _).
  destruct (illegal_chars a) eqn:Ha; [reflexivity | exact Ha].
Qed.

Lemma sanitize_filename_chars filename :
  chars (sanitize_filename filename)
  = firstn 200 (rstrip dot_or_space (re_sub_illegal (chars filename))).
Proof.
  unfold sanitize_filename. rewrite chars_str.
  destruct (Nat.ltb_spec 200
    (length (rstrip dot_or_space (re_sub_illegal (chars filename)))));
    [done|].
  symmetry. by apply firstn_all2.
Qed.

End Sanitize.

(** C7 (as the code has it). For every file name, [sanitize_filename]
    replaces each control character and each of the nine special
    characters by an underscore (it does not remove them), then drops the
    longest suffix of dots and spaces, then keeps at most the first 200
    characters; the result holds no illegal character, and when nothing
    is kept the result is the empty string: there is no default name. *)
Theorem sanitize_filename_replaces_trims_truncates (filename : string) :
  let replaced :=
    map (λ c, if illegal_chars c then "_"%char else c) (chars filename) in
  ∃ kept dropped,
    replaced = kept ++ dropped
    ∧ Forall (λ c, dot_or_space c = true) dropped
    ∧ (∀ c, last kept = Some c → dot_or_space c = false)
    ∧ chars (sanitize_filename filename) = firstn 200 kept
    ∧ (length (chars (sanitize_filename filename)) ≤ 200)%nat
    ∧ Forall (λ c, illegal_chars c = false) (chars (sanitize_filename filename))
    ∧ (kept = [] → sanitize_filename filename = "").
Proof.
  intros replaced.
  destruct (rstrip_split dot_or_space replaced) as (dropped & Hs & Hd).
  exists (rstrip dot_or_space replaced), dropped.
  pose proof (sanitize_filename_chars filename) as Hc.
  fold replaced in Hc. change (re_sub_illegal (chars filename)) with replaced in Hc.
  repeat split; try done.
  - intros c. apply rstrip_last.
  - rewrite Hc, length_firstn. lia.
  - rewrite Hc. apply Forall_take, rstrip_Forall, re_sub_illegal_legal.
  - intros E. apply chars_inj. by rewrite Hc, E.
Qed.

(** C7, counterexample. The slash of [a/b] is replaced by an underscore,
    where stripping gives [ab]; and a name of dots and spaces is
    sanitized to the empty string, where the rule of the specification
    answers the default name. *)
Lemma sanitize_filename_underscore_and_empty :
  sanitize_filename "a/b" = "a_b"
  ∧ (∀ default, spec_sanitize default "a/b" = "ab")
  ∧ sanitize_filename ". ." = ""
  ∧ (∀ default, spec_sanitize default ". ." = default).
Proof. repeat split. Qed.

Section Naming.

Variable dir : gset string.
Variable refused : string → bool.
Variable title : string.

Lemma pdf_filename_n_inj : Inj (=) (=) (pdf_filename_n title).
Proof.
  intros i j H. unfold pdf_filename_n in H.
  apply (f_equal chars) in H. rewrite !chars_app in H.
  apply app_inv_head in H. apply app_inv_head in H.
  apply app_inv_tail in H. apply chars_inj in H.
  by apply (inj pretty) in H.
Qed.

Lemma path_exists_true p : path_exists dir refused p = Ok true → p ∈ dir.
Proof.
  unfold path_exists. destruct (refused p); [done|].
  by case_bool_decide.
Qed.

Lemma path_exists_false p : path_exists dir refused p = Ok false → p ∉ dir.
Proof.
  unfold path_exists. destruct (refused p); [done|].
  by case_bool_decide.
Qed.

Lemma path_exists_answers p :
  (∀ q, refused q = false) → path_exists dir refused p ≠ Raise.
Proof. intros H. unfold path_exists. by rewrite H. Qed.

Lemma taken_bound counter m :
  taken (path_exists dir refused) title counter m → m ≤ size dir.
Proof.
  intros Ht.
  set (names := pdf_filename_n title <$> seq counter m).
  assert (NoDup names) as Hnd.
  { apply NoDup_fmap_2; [apply pdf_filename_n_inj | apply NoDup_seq]. }
  assert (list_to_set names ⊆ dir) as Hsub.
  { intros x Hx. apply elem_of_list_to_set in Hx.
    apply list_elem_of_fmap in Hx as (j & -> & Hj).
    apply elem_of_seq in Hj. apply path_exists_true, Ht. lia. }
  apply subseteq_size in Hsub.
  rewrite size_list_to_set in Hsub by done.
  unfold names in Hsub. by rewrite length_fmap, length_seq in Hsub.
Qed.

Lemma first_free counter n :
  (∃ m, m ≤ n ∧ taken (path_exists dir refused) title counter m
        ∧ path_exists dir refused (pdf_filename_n title (counter + m))
          ≠ Ok true)
  ∨ taken (path_exists dir refused) title counter (S n).
Proof.
  induction n as [|n [(m & Hm & Ht & Hf)|Ht]].
  - destruct (path_exists dir refused (pdf_filename_n title counter))
      as [[]|] eqn:Hc.
    + right. intros j Hj. by replace j with counter by lia.
    + left. exists 0. rewrite Nat.add_0_r, Hc. split_and!; [lia| |done].
      intros j Hj. lia.
    + left. exists 0. rewrite Nat.add_0_r, Hc. split_and!; [lia| |done].
      intros j Hj. lia.
  - left. exists m. split_and!; [lia|done|done].
  - destruct (path_exists dir refused (pdf_filename_n title (counter + S n)))
      as [[]|] eqn:Hc.
    + right. intros j Hj.
      destruct (decide (j = counter + S n)) as [->|Hne]; [done|].
      apply Ht. lia.
    + left. exists (S n). rewrite Hc. split_and!; [lia|done|done].
    + left. exists (S n). rewrite Hc. split_and!; [lia|done|done].
Qed.

Lemma while_exists_stop fuel output_path counter :
  path_exists dir refused output_path ≠ Ok true → 0 < fuel →
  while_exists fuel (path_exists dir refused) title output_path counter
  = Some match path_exists dir refused output_path with
         | Ok _ => Ok output_path
         | Raise => Raise
         end.
Proof.
  intros Hout Hf. destruct fuel; [lia|]. simpl.
  by destruct (path_exists dir refused output_path) as [[]|].
Qed.

Lemma while_exists_taken m : ∀ fuel output_path counter,
  path_exists dir refused output_path = Ok true →
  taken (path_exists dir refused) title counter m →
  path_exists dir refused (pdf_filename_n title (counter + m)) ≠ Ok true →
  m + 1 < fuel →
  while_exists fuel (path_exists dir refused) title output_path counter
  = Some match path_exists dir refused (pdf_filename_n title (counter + m)) with
         | Ok _ => Ok (pdf_filename_n title (counter + m))
         | Raise => Raise
         end.
Proof.
  induction m as [|m IH]; intros fuel output_path counter Hin Ht Hfree Hf.
  - destruct fuel as [|fuel]; [lia|]. simpl. rewrite Hin.
    rewrite Nat.add_0_r in *. apply while_exists_stop; [done|lia].
  - destruct fuel as [|fuel]; [lia|]. simpl. rewrite Hin.
    replace (counter + S m) with (S counter + m) in * by lia.
    apply IH; [| |done|lia].
    + apply Ht. lia.
    + intros j Hj. apply Ht. lia.
Qed.

(** The loop ends once it may test its condition more often than the
    directory has entries plus one, and what it ends with does not
    depend on the bound. *)
Lemma free_output_path_ends fuel :
  size dir + 1 < fuel →
  ∃ r,
    free_output_path fuel (path_exists dir refused) title = Some r
    ∧ ∀ fuel', size dir + 1 < fuel' →
        free_output_path fuel' (path_exists dir refused) title = Some r.
Proof.
  intros Hfuel. unfold free_output_path.
  destruct (path_exists dir refused (pdf_filename title)) as [[]|] eqn:H0.
  - destruct (first_free 1 (size dir)) as [(m & Hm & Ht & Hf)|Ht].
    + eexists. split.
      * apply while_exists_taken; [done|done|done|lia].
      * intros fuel' Hf'. apply while_exists_taken; [done|done|done|lia].
    + apply taken_bound in Ht. lia.
  - eexists. split.
    + apply while_exists_stop; [by rewrite H0|lia].
    + intros fuel' Hf'. apply while_exists_stop; [by rewrite H0|lia].
  - eexists. split.
    + apply while_exists_stop; [by rewrite H0|lia].
    + intros fuel' Hf'. apply while_exists_stop; [by rewrite H0|lia].
Qed.

(** A name that the loop returns is the intended one or a numbered one,
    and the test has answered [False] for it. *)
Lemma while_exists_shape : ∀ fuel output_path counter name,
  while_exists fuel (path_exists dir refused) title output_path counter
  = Some (Ok name) →
  path_exists dir refused name = Ok false
  ∧ (name = output_path ∨ ∃ k, counter ≤ k ∧ name = pdf_filename_n title k).
Proof.
  induction fuel as [|fuel IH]; intros output_path counter name H; [done|].
  simpl in H.
  destruct (path_exists dir refused output_path) as [[]|] eqn:Hout; [| |done].
  - destruct (IH _ _ _ H) as [Hfree [->|(k & Hk & ->)]].
    + split; [done|]. right. exists counter. by split.
    + split; [done|]. right. exists k. split; [lia|done].
  - injection H as <-. split; [done|by left].
Qed.

(** A loop that raises has met a name for which the test raises. *)
Lemma while_exists_raised : ∀ fuel output_path counter,
  while_exists fuel (path_exists dir refused) title output_path counter
  = Some Raise →
  ∃ p, refused p = true.
Proof.
  induction fuel as [|fuel IH]; intros output_path counter H; [done|].
  simpl in H.
  destruct (path_exists dir refused output_path) as [[]|] eqn:Hout; [|done|].
  - by eapply IH.
  - exists output_path. unfold path_exists in Hout.
    by destruct (refused output_path).
Qed.

End Naming.

(** C8 (as the code has it). For every directory state and title, once
    the loop may test its condition more often than the directory has
    entries plus one, it ends, in the same way for every such bound. It
    ends with a name or with the exception of an existence test that
    raises. A name it returns is not the name of an existing file. When
    the test answers that the intended name is free, that name is
    returned; when the test raises for it, the loop raises. When the
    intended name exists, the loop goes through the names with [_k]
    before the extension, [k = 1, 2, ...], up to the first one that is
    not found to exist: it returns that name, which differs from the
    intended name, if the test answers that it is free, and raises if
    the test raises for it. Where the test never raises, a name is
    always returned. *)
Theorem free_output_path_first_free (dir : gset string)
    (refused : string → bool) (title : string)
    (fuel : nat) (Hfuel : size dir + 1 < fuel) :
  ∃ r,
    free_output_path fuel (path_exists dir refused) title = Some r
    ∧ (∀ fuel', size dir + 1 < fuel' →
         free_output_path fuel' (path_exists dir refused) title = Some r)
    ∧ (∀ name, r = Ok name → name ∉ dir)
    ∧ (path_exists dir refused (pdf_filename title) = Ok false →
       r = Ok (pdf_filename title))
    ∧ (path_exists dir refused (pdf_filename title) = Raise → r = Raise)
    ∧ (path_exists dir refused (pdf_filename title) = Ok true →
       ∃ k, 1 ≤ k
            ∧ (∀ j, 1 ≤ j < k →
                 path_exists dir refused (pdf_filename_n title j) = Ok true)
            ∧ pdf_filename_n title k ≠ pdf_filename title
            ∧ (path_exists dir refused (pdf_filename_n title k) = Ok false
               ∧ r = Ok (pdf_filename_n title k)
               ∨ path_exists dir refused (pdf_filename_n title k) = Raise
                 ∧ r = Raise))
    ∧ ((∀ p, refused p = false) → ∃ name, r = Ok name).
Proof.
  destruct (free_output_path_ends dir refused title fuel Hfuel)
    as (r & Hrun & Hany).
  exists r. split; [done|]. split; [done|].
  unfold free_output_path in Hrun.
  assert (∀ name, r = Ok name → name ∉ dir) as Hfree.
  { intros name ->. apply while_exists_shape in Hrun as [Hname _].
    by eapply path_exists_false. }
  split; [done|].
  destruct (path_exists dir refused (pdf_filename title)) as [[]|] eqn:H0.
  - split; [done|]. split; [done|].
    destruct (first_free dir refused title 1 (size dir))
      as [(m & Hm & Ht & Hf)|Ht]; [|apply taken_bound in Ht; lia].
    rewrite (while_exists_taken dir refused title m) in Hrun;
      [|done|done|done|lia].
    assert (pdf_filename_n title (1 + m) ≠ pdf_filename title) as Hne.
    { intros E. apply Hf. by rewrite E. }
    change (1 + m) with (S m) in *.
    destruct (path_exists dir refused (pdf_filename_n title (S m)))
      as [[]|] eqn:Hk; [by destruct Hf| |]; injection Hrun as <-.
    + split.
      * intros _. exists (S m). split_and!; [lia| |done|by left].
        intros j Hj. apply Ht. lia.
      * intros _. by eexists.
    + split.
      * intros _. exists (S m). split_and!; [lia| |done|by right].
        intros j Hj. apply Ht. lia.
      * intros Hnever.
        by destruct (path_exists_answers dir refused
                       (pdf_filename_n title (S m)) Hnever).
  - rewrite (while_exists_stop dir refused title) in Hrun;
      [|by rewrite H0|lia].
    rewrite H0 in Hrun. injection Hrun as <-.
    split_and!; [done|done|done|]. intros _. by eexists.
  - rewrite (while_exists_stop dir refused title) in Hrun;
      [|by rewrite H0|lia].
    rewrite H0 in Hrun. injection Hrun as <-.
    split_and!; [done|done|done|]. intros Hnever.
    by destruct (path_exists_answers dir refused (pdf_filename title) Hnever).
Qed.

Lemma free_output_path_first_free_witness :
  ∃ r,
    free_output_path 4
      (path_exists ({["t.pdf"]} ∪ {["t_1.pdf"]}) (λ _, false)) "t" = Some r
    ∧ r = Ok "t_2.pdf".
Proof.
  destruct (free_output_path_first_free ({["t.pdf"]} ∪ {["t_1.pdf"]})
              (λ _, false) "t" 4)
    as (r & Hr & _).
  - vm_compute. lia.
  - exists r. split; [exact Hr|].
    vm_compute in Hr. by injection Hr as <-.
Defined.

(** C8, counterexample. On a file system that takes no name of more
    than 255 bytes, in an empty directory: a title of 126 accented
    letters has fewer than 200 characters and is left as it is by
    [sanitize_filename]; its name with [.pdf] takes 256 bytes; the
    existence test raises for it, and so does the loop: no name is
    returned, although no file exists. And with [report.pdf] present
    on a file system that takes ten bytes: the intended name exists,
    the test raises for [report_1.pdf], and the loop raises. *)
Lemma free_output_path_raises_on_refused_name :
  String.length Scenario.accented_title ≤ 200
  ∧ sanitize_filename Scenario.accented_title = Scenario.accented_title
  ∧ Scenario.utf8_length (pdf_filename Scenario.accented_title) = 256
  ∧ free_output_path 2 (path_exists ∅ (Scenario.name_limit 255))
      (sanitize_filename Scenario.accented_title)
    = Some Raise
  ∧ path_exists {["report.pdf"]} (Scenario.name_limit 10) "report.pdf"
    = Ok true
  ∧ path_exists {["report.pdf"]} (Scenario.name_limit 10) "report_1.pdf"
    = Raise
  ∧ (("report_1.pdf" : string) ∉ ({["report.pdf"]} : gset string))
  ∧ free_output_path 3 (path_exists {["report.pdf"]} (Scenario.name_limit 10))
      "report"
    = Some Raise.
Proof. split_and!; first [by vm_compute|vm_compute; lia]. Qed.

(** ** URLs *)

Section Urls.

Lemma startswith_app needle rest : startswith needle (needle ++ rest) = true.
Proof.
  induction needle as [|c needle IH]; simpl; [done|].
  by rewrite Ascii.eqb_refl, IH.
Qed.

Lemma contains_app needle before rest :
  contains needle (before ++ needle ++ rest) = true.
Proof.
  induction before as [|c before IH]; simpl.
  - assert (∀ hay, startswith needle hay = true → contains needle hay = true)
      as H by (intros [|? ?] Hs; simpl; by rewrite Hs).
    apply H, startswith_app.
  - rewrite IH. apply orb_true_r.
Qed.

(** A run of class characters that is followed by a character outside
    the class is taken whole by the greedy [+]. *)
Lemma plus_greedy_run {R} cls (k : list ascii → list ascii → option R) r :
  ∀ ident run rest,
    ident ≠ [] →
    Forall (λ c, cls c = true) ident →
    hd_error rest = None ∨ (∃ c, hd_error rest = Some c ∧ cls c = false) →
    k (run ++ ident) rest = Some r →
    plus_greedy cls k run (ident ++ rest) = Some r.
Proof.
  induction ident as [|c ident IH]; intros run rest Hne Hall Hrest Hk; [done|].
  apply Forall_cons in Hall as [Hc Hall]. simpl. rewrite Hc.
  destruct ident as [|c' ident].
  - simpl. simpl in Hk.
    assert (plus_greedy cls k (run ++ [c]) rest = None) as ->; [|done].
    destruct rest as [|d rest]; [done|]. simpl.
    destruct Hrest as [[=]|(d' & [= <-] & Hd)]. by rewrite Hd.
  - rewrite (IH (run ++ [c]) rest); [done|done|done|done|].
    by rewrite <- app_assoc.
Qed.

Lemma slash_not_in_class : id_class "/" = false.
Proof. reflexivity. Qed.

Lemma re_search_file_url ident :
  ident ≠ [] →
  Forall (λ c, id_class c = true) ident →
  re_search file_id_pattern
    (chars "https://drive.google.com/file/d/" ++ ident ++ chars "/view")
  = Some ident.
Proof.
  intros Hne Hall.
  cbn -[plus_greedy id_class].
  erewrite plus_greedy_run; [reflexivity|done|done| |].
  - right. exists "/"%char. split; [done|apply slash_not_in_class].
  - reflexivity.
Qed.

Lemma extract_file_url file_id :
  file_id ≠ "" →
  Forall (λ c, id_class c = true) (chars file_id) →
  extract_file_id_from_url (file_url_of file_id) = Some file_id
  ∧ is_file_url (file_url_of file_id) = true.
Proof.
  intros Hne Hall. split.
  - unfold extract_file_id_from_url, file_url_of.
    rewrite !chars_app, re_search_file_url, str_chars; [done| |done].
    intros E. apply Hne, chars_inj. by rewrite E.
  - unfold is_file_url, file_url_of.
    rewrite !chars_app.
    change (chars "https://drive.google.com/file/d/")
      with (chars "https://drive.google.com" ++ chars "/file/d/").
    rewrite <- app_assoc. apply contains_app.
Qed.

End Urls.

(** C10. For every non-empty file id (the only ids the folder scan
    collects, line 457) made of characters of [[a-zA-Z0-9-_]], the URL
    that folder expansion builds for it is a file URL, and extracting the
    file id from it gives the id back. *)
Theorem file_url_roundtrip (file_id : string)
    (Hid : file_id ≠ "")
    (Hclass : Forall (λ c, id_class c = true) (chars file_id)) :
  extract_file_id_from_url (file_url_of file_id) = Some file_id
  ∧ is_file_url (file_url_of file_id) = true.
Proof. by apply extract_file_url. Qed.

Lemma file_url_roundtrip_witness :
  extract_file_id_from_url (file_url_of "1AbC-_9") = Some "1AbC-_9"
  ∧ is_file_url (file_url_of "1AbC-_9") = true.
Proof.
  apply (file_url_roundtrip "1AbC-_9").
  - done.
  - vm_compute. repeat constructor.
Defined.

(** ** The discovery loops *)

#[local] Arguments Nat.leb : simpl never.
#[local] Arguments Nat.eqb : simpl never.

Lemma NoDup_incl_size (l l' : list string) :
  NoDup l → (∀ x, x ∈ l → x ∈ l') →
  length l ≤ size (list_to_set l' : gset string).
Proof.
  intros Hnd Hin. rewrite <- (size_list_to_set (C := gset string) l) by done.
  apply subseteq_size. intros x. rewrite !elem_of_list_to_set. apply Hin.
Qed.

Section PageLoop.

Import Pages.
Variable e : env.

(** The inner loop appends the new urls, each once. *)
Lemma add_urls_acc urls : ∀ c a,
  ∃ new,
    (fold_left add_url urls (c, a)).1 = c ++ new
    ∧ (fold_left add_url urls (c, a)).2 = a + length new
    ∧ (NoDup c → NoDup (c ++ new))
    ∧ (∀ x, x ∈ new → x ∈ urls ∧ x ∉ c)
    ∧ (∀ x, x ∈ urls → x ∈ c ++ new).
Proof.
  induction urls as [|u urls IH]; intros c a; simpl.
  - exists []. rewrite app_nil_r. split_and!; simpl; [done|lia|done| |];
      intros x Hx; by apply elem_of_nil in Hx.
  - assert (add_url (c, a) u
            = if bool_decide (u ∈ c) then (c, a) else (c ++ [u], S a))
      as -> by done.
    case_bool_decide as Hu.
    + destruct (IH c a) as (new & H1 & H2 & H3 & H4 & H5).
      exists new. split_and!; [done|done|done| |].
      * intros x Hx. destruct (H4 x Hx). split; [|done].
        by apply list_elem_of_further.
      * intros x [->|Hx]%elem_of_cons; [|by apply H5].
        apply elem_of_app. by left.
    + destruct (IH (c ++ [u]) (S a)) as (new & H1 & H2 & H3 & H4 & H5).
      exists (u :: new). rewrite H1, H2, <- app_assoc. simpl.
      split_and!; [done|lia| | |].
      * intros Hc.
        replace (c ++ u :: new) with ((c ++ [u]) ++ new)
          by (by rewrite <- app_assoc).
        apply H3.
        apply NoDup_app. split_and!; [done| |apply NoDup_singleton].
        intros x Hx ->%list_elem_of_singleton. done.
      * intros x [->|Hx]%elem_of_cons.
        -- split; [left|done].
        -- destruct (H4 x Hx) as [Hx1 Hx2]. split.
           ++ by apply list_elem_of_further.
           ++ intros Hc. apply Hx2, elem_of_app. by left.
      * intros x [->|Hx]%elem_of_cons.
        -- apply elem_of_app. right. left.
        -- replace (c ++ u :: new) with ((c ++ [u]) ++ new)
             by (by rewrite <- app_assoc).
           by apply H5.
Qed.

Lemma add_urls_spec c urls :
  ∃ new,
    add_urls c urls = (c ++ new, length new)
    ∧ (NoDup c → NoDup (c ++ new))
    ∧ (∀ x, x ∈ new → x ∈ urls ∧ x ∉ c)
    ∧ (∀ x, x ∈ urls → x ∈ c ++ new).
Proof.
  destruct (add_urls_acc urls c 0) as (new & H1 & H2 & H3 & H4 & H5).
  exists new. split_and!; [|done|done|done].
  unfold add_urls. destruct (fold_left add_url urls (c, 0)) as [c' a'].
  simpl in *. by subst.
Qed.

Lemma advance_ok attempt : advance e attempt = Ok tt.
Proof.
  unfold advance, try_except.
  destruct (scroll_last e attempt) as [[]|]; [done|].
  by destruct (press_page_down e attempt) as [[]|].
Qed.

Lemma seen_mono n m x : n ≤ m → x ∈ seen e n → x ∈ seen e m.
Proof.
  induction 1 as [|m _ IH]; [done|]. intros Hx. simpl.
  apply elem_of_app. left. by apply IH.
Qed.

(** What holds of the collected list whenever the loop hands it back. *)
Lemma discovery_loop_inv : ∀ fuel attempt c nn,
  NoDup c → (∀ x, x ∈ c → x ∈ seen e attempt) →
  match discovery_loop e fuel attempt c nn with
  | (Ok d, k) =>
      NoDup (collected_urls d)
      ∧ (∀ x, x ∈ collected_urls d → x ∈ seen e k)
      ∧ attempt ≤ k
  | (Raise, _) => True
  end.
Proof.
  induction fuel as [|fuel IH]; intros attempt c nn Hnd Hin; simpl.
  - split_and!; [done|done|lia].
  - destruct (blob_urls e attempt) as [urls|] eqn:Hp; [|done].
    destruct (add_urls_spec c urls) as (new & -> & Hnew & Hfrom & _).
    assert (∀ x, x ∈ c ++ new → x ∈ seen e (S attempt)) as Hin'.
    { intros x [Hx|Hx]%elem_of_app; simpl; apply elem_of_app.
      - left. by apply Hin.
      - right. rewrite Hp. by apply Hfrom. }
    destruct (Nat.leb max_pages_cap (length (c ++ new))).
    { simpl. split_and!; [by apply Hnew|done|lia]. }
    destruct (Nat.leb max_scroll_attempts _).
    { simpl. split_and!; [by apply Hnew|done|lia]. }
    rewrite advance_ok.
    specialize (IH (S attempt) (c ++ new)
      (if Nat.eqb (length new) 0 then nn + 1 else 0) (Hnew Hnd) Hin').
    destruct (discovery_loop e fuel (S attempt) (c ++ new) _) as [[d|] k];
      [|done].
    destruct IH as (? & ? & ?). split_and!; [done|done|lia].
Qed.


End PageLoop.

Section FolderLoop.

Import Folder.
Variable e : env.

Lemma add_rows_acc rows : ∀ c a,
  (fold_left add_row rows (c, a)).1 = c ∪ list_to_set (row_ids rows).
Proof.
  induction rows as [|r rows IH]; intros c a; simpl.
  - unfold row_ids. simpl. set_solver.
  - unfold row_ids. rewrite fmap_cons, filter_cons. fold (row_ids rows).
    unfold add_row at 2. simpl.
    destruct (String.eqb_spec (row_id r) "") as [Hempty|Hne]; simpl.
    + rewrite decide_False by (by intros ?). apply IH.
    + rewrite decide_True by done. case_bool_decide as Hin; simpl.
      * rewrite IH. set_solver.
      * rewrite IH. set_solver.
Qed.

Lemma add_rows_spec c rows :
  (add_rows c rows).1 = c ∪ list_to_set (row_ids rows).
Proof. apply add_rows_acc. Qed.

Lemma folder_advance_ok attempt : advance e attempt = Ok tt.
Proof.
  unfold advance, try_except.
  destruct (scroll_by e attempt) as [[]|]; [done|].
  by destruct (press_page_down e attempt) as [[]|].
Qed.

Lemma seen_S_ok n rows :
  file_rows e n = Ok rows → seen e (S n) = seen e n ++ row_ids rows.
Proof. intros H. simpl. by rewrite H. Qed.

Lemma seen_S_raise n :
  file_rows e n = Raise → seen e (S n) = seen e n.
Proof. intros H. simpl. by rewrite H, app_nil_r. Qed.

(** The set holds the ids presented by the probes made, whatever the
    exit. *)
Lemma scan_loop_inv : ∀ fuel attempt c nn,
  c = list_to_set (seen e attempt) →
  collected_file_ids (scan_loop e fuel attempt c nn)
  = list_to_set (seen e (probes (scan_loop e fuel attempt c nn)))
  ∧ attempt ≤ probes (scan_loop e fuel attempt c nn).
Proof.
  induction fuel as [|fuel IH]; intros attempt c nn Hc; simpl.
  - by split.
  - destruct (file_rows e attempt) as [rows|] eqn:Hp; simpl.
    + pose proof (add_rows_spec c rows) as Hadd.
      destruct (add_rows c rows) as [c' added]. simpl in Hadd.
      assert (c' = list_to_set (seen e (S attempt))) as Hc'.
      { rewrite (seen_S_ok _ _ Hp), list_to_set_app_L. by rewrite Hadd, Hc. }
      destruct (Nat.leb max_scroll_attempts _); simpl.
      { split; [done|lia]. }
      rewrite folder_advance_ok.
      destruct (IH (S attempt) c'
        (if Nat.eqb added 0 then nn + 1 else 0) Hc') as [H1 H2].
      split; [done|lia].
    + split; [|lia]. by rewrite Hp, app_nil_r.
Qed.


Lemma first_seen_spec ids :
  NoDup (first_seen ids) ∧ ∀ x, x ∈ first_seen ids ↔ x ∈ ids.
Proof.
  unfold first_seen.
  destruct (add_urls_spec [] ids) as (new & -> & Hnd & Hfrom & Hin).
  simpl in *. split; [apply Hnd, NoDup_nil_2|].
  intros x. split; [apply Hfrom | apply Hin].
Qed.

Lemma elements_first_seen ids :
  elements (list_to_set ids : gset string) ≡ₚ first_seen ids.
Proof.
  destruct (first_seen_spec ids) as [Hnd Hin].
  apply NoDup_Permutation; [apply NoDup_elements|done|].
  intros x. by rewrite elem_of_elements, elem_of_list_to_set, Hin.
Qed.

Lemma file_url_of_inj : Inj (=) (=) file_url_of.
Proof.
  intros i j H. unfold file_url_of in H.
  apply (f_equal chars) in H. rewrite !chars_app in H.
  apply app_inv_head, app_inv_tail in H. by apply chars_inj.
Qed.

Lemma extract_files_opened iter :
  open_page e = Ok tt → close_page e = Ok tt →
  extract_files_from_folder iter e
  = file_url_of <$> iter (collected_file_ids (scan_folder e)).
Proof.
  intros Ho Hc. unfold extract_files_from_folder. by rewrite Ho, Hc.
Qed.

End FolderLoop.

(** C1 (as the code has it). For every folder that opens and closes, and
    whatever order Python iterates the id set in, the folder expands to
    exactly one file URL per distinct non-empty item id presented by the
    probes made: the URLs are those of the ids in first-seen order, up to
    a permutation, and none is repeated. The order is that of the set
    iteration; it need not be the first-seen order. *)
Theorem folder_expansion_one_url_per_id
    (iter : gset string → list string) (e : Folder.env)
    (Hiter : Folder.iteration_order iter)
    (Hopen : Folder.open_page e = Ok tt)
    (Hclose : Folder.close_page e = Ok tt) :
  Folder.extract_files_from_folder iter e
    ≡ₚ file_url_of <$>
         Folder.first_seen
           (Folder.seen e (Folder.probes (Folder.scan_folder e)))
  ∧ NoDup (Folder.extract_files_from_folder iter e).
Proof.
  rewrite extract_files_opened by done.
  destruct (scan_loop_inv e Folder.max_attempts 0 ∅ 0) as [Hs _]; [done|].
  fold (Folder.scan_folder e) in Hs.
  assert (iter (Folder.collected_file_ids (Folder.scan_folder e))
          ≡ₚ Folder.first_seen
               (Folder.seen e (Folder.probes (Folder.scan_folder e)))) as Hp.
  { rewrite (Hiter _), Hs. apply elements_first_seen. }
  split.
  - by rewrite Hp.
  - rewrite Hp. apply NoDup_fmap_2; [apply file_url_of_inj|].
    apply first_seen_spec.
Qed.

Lemma folder_expansion_one_url_per_id_witness :
  Folder.extract_files_from_folder elements Scenario.folder_ab
    ≡ₚ [file_url_of "a"; file_url_of "b"]
  ∧ NoDup (Folder.extract_files_from_folder elements Scenario.folder_ab).
Proof.
  destruct (folder_expansion_one_url_per_id elements Scenario.folder_ab)
    as [Hperm Hnd].
  - intros s. reflexivity.
  - reflexivity.
  - reflexivity.
  - split; [|exact Hnd].
    replace (Folder.first_seen
               (Folder.seen Scenario.folder_ab
                  (Folder.probes (Folder.scan_folder Scenario.folder_ab))))
      with ["a"; "b"] in Hperm by (by vm_compute).
    exact Hperm.
Defined.

(** C1, counterexample. The folder of the scenario presents [a] first
    and [b] second. Under the iteration order that lists a set from its
    last element to its first, the folder expands to the URL of [b]
    followed by the URL of [a]; and under the order that lists it from
    its first element, the folder that presents [b] first expands to the
    URL of [a] followed by the URL of [b]. *)
Lemma folder_expansion_not_first_seen :
  Folder.iteration_order (reverse ∘ elements)
  ∧ Folder.first_seen
      (Folder.seen Scenario.folder_ab
         (Folder.probes (Folder.scan_folder Scenario.folder_ab)))
    = ["a"; "b"]
  ∧ Folder.extract_files_from_folder (reverse ∘ elements) Scenario.folder_ab
    = [file_url_of "b"; file_url_of "a"]
  ∧ Folder.first_seen
      (Folder.seen Scenario.folder_ba
         (Folder.probes (Folder.scan_folder Scenario.folder_ba)))
    = ["b"; "a"]
  ∧ Folder.extract_files_from_folder elements Scenario.folder_ba
    = [file_url_of "a"; file_url_of "b"].
Proof.
  split_and!; try by vm_compute.
  intros s. simpl. apply reverse_Permutation.
Qed.

(** C9. At any point of a discovery loop, that is after any number [n]
    of turns of the outer loop and after any further identifiers [more]
    have gone through the inner loop, the collection holds no identifier
    twice and is no longer than the number of distinct identifiers
    presented so far. For page discovery the collection is a list; for
    folder discovery it is a set, whose enumeration has no duplicates. *)
Theorem collected_has_no_duplicates
    (pe : Pages.env) (fe : Folder.env) (n : nat) :
  match Pages.discovery_loop pe n 0 [] 0 with
  | (Ok d, k) =>
      NoDup (Pages.collected_urls d)
      ∧ length (Pages.collected_urls d)
        ≤ size (list_to_set (Pages.seen pe k) : gset string)
      ∧ ∀ more,
          NoDup (Pages.add_urls (Pages.collected_urls d) more).1
          ∧ length (Pages.add_urls (Pages.collected_urls d) more).1
            ≤ size (list_to_set (Pages.seen pe k ++ more) : gset string)
  | (Raise, _) => True
  end
  ∧ let s := Folder.scan_loop fe n 0 ∅ 0 in
    NoDup (elements (Folder.collected_file_ids s))
    ∧ size (Folder.collected_file_ids s)
      ≤ size (list_to_set (Folder.seen fe (Folder.probes s)) : gset string)
    ∧ ∀ more,
        size (Folder.add_rows (Folder.collected_file_ids s) more).1
        ≤ size (list_to_set
                  (Folder.seen fe (Folder.probes s) ++ Folder.row_ids more)
                : gset string).
Proof.
  split.
  - pose proof (discovery_loop_inv pe n 0 [] 0 NoDup_nil_2) as H.
    destruct (Pages.discovery_loop pe n 0 [] 0) as [[d|] k]; [|done].
    destruct H as (Hnd & Hin & _).
    { intros x Hx. by apply elem_of_nil in Hx. }
    split_and!; [done|by apply NoDup_incl_size|].
    intros more.
    destruct (add_urls_spec (Pages.collected_urls d) more)
      as (new & -> & Hnew & Hfrom & _). simpl.
    split; [by apply Hnew|].
    apply NoDup_incl_size; [by apply Hnew|].
    intros x [Hx|Hx]%elem_of_app; apply elem_of_app.
    + left. by apply Hin.
    + right. by apply Hfrom.
  - intros s.
    destruct (scan_loop_inv fe n 0 ∅ 0) as [Hs _]; [done|]. fold s in Hs.
    split_and!; [apply NoDup_elements|by rewrite Hs|].
    intros more. rewrite add_rows_spec, Hs, list_to_set_app_L. done.
Qed.



Section PageCap.

Import Pages.
Variable e : env.

Lemma NoDup_all_equal (l : list string) u :
  NoDup l → (∀ x, x ∈ l → x = u) → length l ≤ 1.
Proof.
  intros Hnd Hall. destruct l as [|a [|b l]]; simpl; [lia|lia|].
  apply NoDup_cons in Hnd as [Hnot _]. exfalso. apply Hnot.
  assert (a = u) as -> by (apply Hall; left).
  assert (b = u) as -> by (apply Hall; right; left).
  left.
Qed.

(** With a fresh identifier at every probe the loop runs into the cap,
    one probe per identifier at the most. *)
Lemma discovery_loop_cap (Hfresh : fresh_each_probe e) :
  ∀ fuel attempt c nn,
    max_pages_cap - length c ≤ fuel →
    length c < max_pages_cap →
    NoDup c →
    (∀ x, x ∈ c ↔ x ∈ seen e attempt) →
    ∃ d k,
      discovery_loop e fuel attempt c nn = (Ok d, k)
      ∧ how d = CapReached
      ∧ k + length c ≤ attempt + max_pages_cap
      ∧ max_pages_cap ≤ length (collected_urls d)
      ∧ (one_fresh_each_probe e → length c = attempt →
         length (collected_urls d) = max_pages_cap ∧ k = max_pages_cap).
Proof.
  induction fuel as [|fuel IH]; intros attempt c nn Hfuel Hlen Hnd Hseen.
  { lia. }
  simpl.
  destruct (Hfresh attempt) as (urls & u & Hp & Hu & Hnew).
  rewrite Hp.
  destruct (add_urls_spec c urls) as (new & -> & Hnd' & Hfrom & Hin).
  assert (u ∈ new) as Hunew.
  { pose proof (Hin u Hu) as Hx.
    apply elem_of_app in Hx as [Hc|Hn]; [|done].
    exfalso. by apply Hnew, Hseen. }
  assert (1 ≤ length new) as Hone.
  { destruct new; [by apply elem_of_nil in Hunew | simpl; lia]. }
  assert (one_fresh_each_probe e → length new = 1) as Hexact.
  { intros Hof. destruct (Hof attempt) as (urls' & u' & Hp' & _ & _ & Hall).
    rewrite Hp in Hp'. injection Hp' as <-.
    enough (length new ≤ 1) by lia.
    apply (NoDup_all_equal _ u').
    - specialize (Hnd' Hnd). by apply NoDup_app in Hnd' as (_ & _ & ?).
    - intros x Hx. destruct (Hfrom x Hx) as [Hxu Hxc].
      destruct (Hall x Hxu) as [->|Hs]; [done|].
      exfalso. by apply Hxc, Hseen. }
  rewrite length_app. unfold max_pages_cap in *.
  destruct (Nat.leb_spec 200 (length c + length new)) as [Hcap|Hcap].
  - eexists _, _.
    split_and!; [reflexivity|done|lia|cbn [collected_urls]; rewrite length_app; lia|].
    intros Hof Hc. cbn [collected_urls]. rewrite length_app.
    specialize (Hexact Hof). lia.
  - destruct (Nat.eqb_spec (length new) 0) as [|_]; [lia|].
    change (Nat.leb max_scroll_attempts 0) with false. cbv iota.
    rewrite advance_ok.
    destruct (IH (S attempt) (c ++ new) 0) as (d & k & Hd & Hhow & Hk & Hl & Hx).
    + rewrite length_app. lia.
    + rewrite length_app. lia.
    + by apply Hnd'.
    + intros x. simpl. rewrite Hp, !elem_of_app, Hseen. split.
      * intros [?|Hx]; [by left|right; by apply Hfrom].
      * intros [?|Hx]; [by left|]. rewrite <- Hseen. by apply elem_of_app, Hin.
    + exists d, k. rewrite length_app in Hk.
      split_and!; [done|done|lia|done|].
      intros Hof Hc. apply Hx; [done|]. rewrite length_app.
      specialize (Hexact Hof). lia.
Qed.

End PageCap.

Section Burst.

Import Pages Scenario.

Lemma blob_name_inj : Inj (=) (=) blob_name.
Proof.
  intros i j H. unfold blob_name in H.
  apply (f_equal chars) in H. rewrite !chars_app in H.
  apply app_inv_head, chars_inj in H. by apply (inj pretty) in H.
Qed.

Lemma seen_burst n k x :
  x ∈ seen (burst n) k ↔ ∃ i, i < n * k ∧ x = blob_name i.
Proof.
  induction k as [|k IH]; simpl.
  - split; [by intros ?%elem_of_nil | intros (i & Hi & _); lia].
  - rewrite elem_of_app, IH, list_elem_of_fmap. split.
    + intros [(i & Hi & ->)|(i & -> & Hi%elem_of_seq)]; exists i; split; try done; lia.
    + intros (i & Hi & ->). destruct (decide (i < n * k)) as [Hlt|Hge].
      * left. by exists i.
      * right. exists i. split; [done|]. apply elem_of_seq. lia.
Qed.

Lemma burst_fresh n : 0 < n → fresh_each_probe (burst n).
Proof.
  intros Hn k. exists (blob_name <$> seq (n * k) n), (blob_name (n * k)).
  split_and!; [done| |].
  - apply list_elem_of_fmap. exists (n * k). split; [done|].
    apply elem_of_seq. lia.
  - intros (i & Hi & Heq%blob_name_inj)%seen_burst. lia.
Qed.

End Burst.

(** C3 (as the code has it). When every probe succeeds and presents at
    least one identifier that no earlier probe has presented, page
    discovery terminates by the page cap after at most 200 probes, and
    the collected list then has at least 200 entries: the cap is tested
    after a whole probe result has been merged, so the list may be longer
    than the cap. It has exactly 200 entries, after exactly 200 probes,
    when every probe presents exactly one new identifier. *)
Theorem discovery_stops_at_cap (e : Pages.env)
    (Hfresh : Pages.fresh_each_probe e) :
  ∃ d k,
    Pages.discover e = (Ok d, k)
    ∧ Pages.how d = Pages.CapReached
    ∧ k ≤ Pages.max_pages_cap
    ∧ Pages.max_pages_cap ≤ length (Pages.collected_urls d)
    ∧ (Pages.one_fresh_each_probe e →
       length (Pages.collected_urls d) = Pages.max_pages_cap
       ∧ k = Pages.max_pages_cap).
Proof.
  destruct (discovery_loop_cap e Hfresh Pages.max_attempts 0 [] 0)
    as (d & k & Hd & Hhow & Hk & Hlen & Hone).
  - unfold Pages.max_pages_cap, Pages.max_attempts. simpl. lia.
  - unfold Pages.max_pages_cap. simpl. lia.
  - apply NoDup_nil_2.
  - intros x. simpl. done.
  - exists d, k. simpl in Hk. split_and!; [done|done|lia|done|].
    intros Hof. by apply Hone.
Qed.

Lemma discovery_stops_at_cap_witness :
  ∃ d k,
    Pages.discover (Scenario.burst 1) = (Ok d, k)
    ∧ Pages.how d = Pages.CapReached
    ∧ k ≤ Pages.max_pages_cap
    ∧ Pages.max_pages_cap ≤ length (Pages.collected_urls d).
Proof.
  destruct (discovery_stops_at_cap (Scenario.burst 1)) as (d & k & H1 & H2 & H3 & H4 & _).
  - apply burst_fresh. lia.
  - exists d, k. split_and!; assumption.
Defined.

(** C3, counterexample. The viewer presents three new identifiers at
    every probe: each probe yields an identifier never seen before, yet
    discovery stops after 67 probes with 201 collected identifiers, one
    more than the cap. *)
Lemma discovery_overshoots_cap :
  Pages.fresh_each_probe (Scenario.burst 3)
  ∧ ∃ d,
      Pages.discover (Scenario.burst 3) = (Ok d, 67)
      ∧ Pages.how d = Pages.CapReached
      ∧ length (Pages.collected_urls d) = 201
      ∧ length (Pages.collected_urls d) ≠ Pages.max_pages_cap.
Proof.
  split; [apply burst_fresh; lia|].
  eexists. split; [by vm_compute|]. by vm_compute.
Qed.

(** ** PDF assembly *)

Section Assembly.

Import Assemble.
Variable e : env.

Ltac unfold_M :=
  unfold mbind, M_bind, bind, try_exceptM, lift, ret, logger, put_file,
    read_file in *.

Lemma convert_one_spec rgb p st :
  ∃ q st',
    convert_one e rgb p st = (Ok (rgb ++ [q]), st')
    ∧ (q = p ∨ q = with_suffix p ".jpg")
    ∧ (normalize_fails e st p = true →
       q = p ∧ files st' = files st
       ∧ log st' = log st ++ [WarningConverting p])
    ∧ (∀ p', p' ≠ with_suffix p ".jpg" → files st' !! p' = files st !! p').
Proof.
  unfold convert_one, normalize_fails. unfold_M.
  destruct (files st !! p) as [b|]; simpl.
  2: { eexists _, _. split_and!; [done|by left|done|done]. }
  destruct (image_open e b) as [m|]; simpl.
  2: { eexists _, _. split_and!; [done|by left|done|done]. }
  destruct (needs_rgb m); simpl.
  2: { eexists _, _. split_and!; [done|by left|done|done]. }
  destruct (composite_rgb e b) as [jpeg|]; simpl.
  2: { eexists _, _. split_and!; [done|by left|done|done]. }
  destruct (save_at e (with_suffix p ".jpg")) as [[]|]; simpl.
  2: { eexists _, _. split_and!; [done|by left|done|done]. }
  eexists _, _. split_and!; [done|by right|done|].
  intros p' Hp'. simpl. by rewrite lookup_insert_ne.
Qed.

Lemma convert_images_acc : ∀ paths acc st,
  ∃ rgb st',
    foldM (convert_one e) paths acc st = (Ok (acc ++ rgb), st')
    ∧ Forall2 (λ p q, q = p ∨ q = with_suffix p ".jpg") paths rgb
    ∧ (∀ p', (∀ p, p ∈ paths → p' ≠ with_suffix p ".jpg") →
             files st' !! p' = files st !! p').
Proof.
  induction paths as [|p paths IH]; intros acc st; simpl.
  - exists [], st. rewrite app_nil_r. by split_and!.
  - destruct (convert_one_spec acc p st) as (q & st1 & Hq & Hpq & _ & Hfr).
    destruct (IH (acc ++ [q]) st1) as (rgb & st2 & Hrgb & Hall & Hfr2).
    exists (q :: rgb), st2. split_and!.
    + unfold mbind, M_bind, bind. rewrite Hq, Hrgb. by rewrite <- app_assoc.
    + by constructor.
    + intros p' Hp'. rewrite Hfr2, Hfr; [done| |].
      * apply Hp'. left.
      * intros p0 Hp0. apply Hp'. by right.
Qed.

Lemma convert_one_writes rgb p st :
  ∃ q st',
    convert_one e rgb p st = (Ok (rgb ++ [q]), st')
    ∧ (q = p ∨ q = with_suffix p ".jpg")
    ∧ (∀ p', p' ≠ q → files st' !! p' = files st !! p').
Proof.
  unfold convert_one. unfold_M.
  destruct (files st !! p) as [b|]; simpl.
  2: { eexists _, _. split_and!; [done|by left|done]. }
  destruct (image_open e b) as [m|]; simpl.
  2: { eexists _, _. split_and!; [done|by left|done]. }
  destruct (needs_rgb m); simpl.
  2: { eexists _, _. split_and!; [done|by left|done]. }
  destruct (composite_rgb e b) as [jpeg|]; simpl.
  2: { eexists _, _. split_and!; [done|by left|done]. }
  destruct (save_at e (with_suffix p ".jpg")) as [[]|]; simpl.
  2: { eexists _, _. split_and!; [done|by left|done]. }
  eexists _, _. split_and!; [done|by right|].
  intros p' Hp'. simpl. by rewrite lookup_insert_ne.
Qed.

Lemma convert_images_writes : ∀ paths acc st,
  ∃ rgb st',
    foldM (convert_one e) paths acc st = (Ok (acc ++ rgb), st')
    ∧ Forall2 (λ p q, q = p ∨ q = with_suffix p ".jpg") paths rgb
    ∧ (∀ p', p' ∉ rgb → files st' !! p' = files st !! p').
Proof.
  induction paths as [|p paths IH]; intros acc st; simpl.
  - exists [], st. rewrite app_nil_r. by split_and!.
  - destruct (convert_one_writes acc p st) as (q & st1 & Hq & Hpq & Hfr).
    destruct (IH (acc ++ [q]) st1) as (rgb & st2 & Hrgb & Hall & Hfr2).
    exists (q :: rgb), st2. split_and!.
    + unfold mbind, M_bind, bind. rewrite Hq, Hrgb. by rewrite <- app_assoc.
    + by constructor.
    + intros p' Hp'. apply not_elem_of_cons in Hp' as [Hne Hp'].
      by rewrite Hfr2, Hfr.
Qed.

Lemma mapM_read_state : ∀ paths st, (mapM read_file paths st).2 = st.
Proof.
  induction paths as [|p paths IH]; intros st; simpl; [done|].
  unfold mbind, M_bind, bind, read_file at 1.
  destruct (files st !! p) as [b|]; [|done].
  specialize (IH st). destruct (mapM read_file paths st) as [[bs|] st'];
    simpl in *; by subst.
Qed.

Lemma mapM_read_length : ∀ paths st contents st',
  mapM read_file paths st = (Ok contents, st') →
  length contents = length paths.
Proof.
  induction paths as [|p paths IH]; intros st contents st' H; simpl in H.
  - by injection H as <- _.
  - unfold mbind, M_bind, bind, read_file at 1 in H.
    destruct (files st !! p) as [b|]; [|done].
    destruct (mapM read_file paths st) as [[bs|] st1] eqn:Hrec; [|done].
    injection H as <- _. simpl. f_equal. by eapply IH.
Qed.

(** What [write_pdf] leaves. On success the destination holds the
    converted document. On failure nothing else than the destination has
    changed, and the destination is as it was when it could not be
    opened, empty when the failure came before the write, and holds what
    the write had put there when the write failed. The log is as it
    was. *)
Lemma write_pdf_cases rgb out st :
  ∃ r st',
    write_pdf e rgb out st = (r, st')
    ∧ log st' = log st
    ∧ (∀ p, p ≠ out → files st' !! p = files st !! p)
    ∧ match r with
      | Ok _ =>
          ∃ contents pdf,
            length contents = length rgb
            ∧ img2pdf_convert e contents = Ok pdf
            ∧ files st' = <[out := pdf]> (files st)
      | Raise =>
          if is_ok (open_wb e out) then
            files st' !! out = Some []
            ∨ ∃ contents pdf,
                length contents = length rgb
                ∧ img2pdf_convert e contents = Ok pdf
                ∧ write_bytes e out pdf = Raise
                ∧ files st' !! out = Some (torn_write e out pdf)
          else files st' = files st
      end.
Proof.
  unfold write_pdf, write_to, is_ok.
  unfold mbind, M_bind, bind, lift, put_file, raise.
  destruct (open_wb e out) as [[]|]; simpl.
  2: { eexists _, _. by split_and!. }
  pose proof (mapM_read_state rgb
    {| files := <[out := []]> (files st); log := log st |}) as Hst.
  pose proof (mapM_read_length rgb
    {| files := <[out := []]> (files st); log := log st |}) as Hlen.
  destruct (mapM read_file rgb _) as [[contents|] st1]; simpl in Hst; subst st1.
  2: { eexists _, _. split_and!; [done|done| |].
       - intros p Hp. simpl. by rewrite lookup_insert_ne.
       - left. simpl. by rewrite lookup_insert_eq. }
  specialize (Hlen contents _ eq_refl).
  destruct (img2pdf_convert e contents) as [pdf|] eqn:Hpdf; simpl.
  2: { eexists _, _. split_and!; [done|done| |].
       - intros p Hp. simpl. by rewrite lookup_insert_ne.
       - left. simpl. by rewrite lookup_insert_eq. }
  destruct (write_bytes e out pdf) as [[]|] eqn:Hwrite; simpl.
  - eexists _, _. split_and!; [done|done| |].
    + intros p Hp. simpl. by rewrite !lookup_insert_ne.
    + exists contents, pdf. split_and!; [done|done|].
      simpl. by rewrite insert_insert_eq.
  - eexists _, _. split_and!; [done|done| |].
    + intros p Hp. simpl. by rewrite !lookup_insert_ne.
    + right. exists contents, pdf. split_and!; [done|done|done|].
      simpl. by rewrite lookup_insert_eq.
Qed.

(** What the clean-up leaves. When it gets through, every path of the
    list is gone and nothing else has changed. When it raises, an
    existence test or an [unlink] has raised on a path of the list, and
    nothing outside the list has changed. *)
Lemma clean_up_spec : ∀ paths u st,
  ∃ r st',
    foldM (clean_one e) paths u st = (r, st')
    ∧ log st' = log st
    ∧ (∀ p, p ∉ paths → files st' !! p = files st !! p)
    ∧ match r with
      | Ok _ => ∀ p, p ∈ paths → files st' !! p = None
      | Raise => ∃ q, q ∈ paths ∧ (stat e q = Raise ∨ unlink_at e q = Raise)
      end.
Proof.
  induction paths as [|q paths IH]; intros [] st.
  { exists (Ok tt), st. split_and!; [done|done|done|].
    intros p Hp. by apply elem_of_nil in Hp. }
  cbn [foldM].
  unfold mbind, M_bind, bind, clean_one at 1, exists_, path_exists.
  unfold mbind, M_bind, bind.
  destruct (stat e q) as [[]|] eqn:Hstat; cbn [is_raise].
  2: { exists Raise, st. split_and!; [done|done|done|].
       exists q. split; [by left|by left]. }
  case_bool_decide as Hq.
  - unfold unlink. destruct (unlink_at e q) as [[]|] eqn:Hunlink.
    2: { exists Raise, st. unfold raise. split_and!; [done|done|done|].
         exists q. split; [by left|by right]. }
    unfold remove_file.
    destruct (IH tt {| files := delete q (files st); log := log st |})
      as (r & st' & Hrun & Hlog & Hout & Hr).
    exists r, st'. split_and!; [done|done| |].
    + intros p Hp. apply not_elem_of_cons in Hp as [Hne Hp].
      rewrite Hout by done. simpl. by rewrite lookup_delete_ne.
    + destruct r as [[]|].
      * intros p [->|Hp]%elem_of_cons; [|by apply Hr].
        destruct (decide (q ∈ paths)) as [Hin|Hnin]; [by apply Hr|].
        rewrite Hout by done. simpl. apply lookup_delete_eq.
      * destruct Hr as (q' & Hq' & Hwhy). exists q'. split; [by right|done].
  - unfold ret.
    destruct (IH tt st) as (r & st' & Hrun & Hlog & Hout & Hr).
    exists r, st'. split_and!; [done|done| |].
    + intros p Hp. apply not_elem_of_cons in Hp as [Hne Hp]. by apply Hout.
    + destruct r as [[]|].
      * intros p [->|Hp]%elem_of_cons; [|by apply Hr].
        destruct (decide (q ∈ paths)) as [Hin|Hnin]; [by apply Hr|].
        rewrite Hout by done. by apply not_elem_of_dom.
      * destruct Hr as (q' & Hq' & Hwhy). exists q'. split; [by right|done].
Qed.

Lemma save_temps_acc : ∀ imgs n acc st,
  ∃ st',
    (∀ p, (∀ idx, n ≤ idx < n + length imgs → p ≠ temp_path idx) →
          files st' !! p = files st !! p)
    ∧ log st' = log st
    ∧ foldM (save_temp e) imgs (n, acc) st
      = if temps_saved e n imgs
        then (Ok (n + length imgs,
                  acc ++ (temp_path <$> seq n (length imgs))), st')
        else (Raise, st').
Proof.
  induction imgs as [|b imgs IH]; intros n acc st; simpl.
  - exists st. rewrite Nat.add_0_r, app_nil_r. by split_and!.
  - unfold mbind, M_bind, bind, save_temp at 1, write_file, write_to, is_ok.
    unfold mbind, M_bind, bind, lift, put_file, ret, raise. simpl.
    destruct (open_wb e (temp_path n)) as [[]|]; simpl.
    2: { exists st. by split_and!. }
    destruct (write_bytes e (temp_path n) b) as [[]|]; simpl.
    2: { eexists. split_and!; [ | |done]; [|done]. intros p Hp. simpl.
         rewrite !lookup_insert_ne; [done| |];
           intros E; apply (Hp n); try lia; done. }
    destruct (IH (S n) (acc ++ [temp_path n])
      {| files := <[temp_path n := b]> (<[temp_path n := []]> (files st));
         log := log st |}) as (st' & Hfr & Hlog & Hrun).
    exists st'. split_and!.
    + intros p Hp. rewrite Hfr.
      * simpl. rewrite !lookup_insert_ne; [done| |];
          intros E; apply (Hp n); try lia; done.
      * intros idx Hidx. apply Hp. lia.
    + done.
    + rewrite Hrun. destruct (temps_saved e (S n) imgs); [|done].
      rewrite <- app_assoc. simpl. do 3 f_equal. lia.
Qed.

Lemma temp_paths_elem n p :
  p ∈ temp_path <$> seq 0 n ↔ ∃ idx, idx < n ∧ p = temp_path idx.
Proof.
  rewrite list_elem_of_fmap. split.
  - intros (idx & -> & Hidx%elem_of_seq). exists idx. split; [lia|done].
  - intros (idx & Hidx & ->). exists idx. split; [done|]. apply elem_of_seq. lia.
Qed.

Lemma rgb_paths_temp n rgb :
  Forall2 (λ p q, q = p ∨ q = with_suffix p ".jpg") (temp_path <$> seq 0 n) rgb →
  ∀ q, q ∈ rgb → is_temp_file n q.
Proof.
  intros Hall q Hq.
  apply list_elem_of_lookup in Hq as (i & Hi).
  destruct (Forall2_lookup_r _ _ _ _ _ Hall Hi) as (p & Hp & Hpq).
  apply list_elem_of_lookup_2, temp_paths_elem in Hp as (idx & Hidx & ->).
  exists idx. split; [done|]. destruct Hpq as [->| ->]; [by left|by right].
Qed.

(** The whole call. It never raises. Nothing but the destination and the
    temporary files of the call is touched. A [False] has an error as
    its last record, and leaves the destination as the clause on
    [destination_opened] tells. A [True] leaves the document at the
    destination and none of the temporary files it made. *)
Lemma compile_pdf_post imgs out st :
  ∃ b st',
    compile_pdf e imgs out st = (Ok b, st')
    ∧ (∀ p, p ≠ out → ¬ is_temp_file (length imgs) p →
            files st' !! p = files st !! p)
    ∧ (b = false →
       last (log st')
       = Some (if bool_decide (imgs = []) then ErrorNoImages
               else ErrorCompiling)
       ∧ (¬ is_temp_file (length imgs) out →
          if destination_opened e imgs out then
            files st' !! out = Some []
            ∨ ∃ contents pdf,
                length contents = length imgs
                ∧ img2pdf_convert e contents = Ok pdf
                ∧ (write_bytes e out pdf = Raise
                   ∧ files st' !! out = Some (torn_write e out pdf)
                   ∨ files st' !! out = Some pdf
                     ∧ ∃ q, is_temp_file (length imgs) q
                            ∧ (stat e q = Raise ∨ unlink_at e q = Raise))
          else files st' !! out = files st !! out))
    ∧ (b = true →
       last (log st') = Some (InfoCompiled out)
       ∧ (∀ idx, idx < length imgs → files st' !! temp_path idx = None)
       ∧ (¬ is_temp_file (length imgs) out →
          (∀ idx, idx < length imgs →
             files st' !! with_suffix (temp_path idx) ".jpg" = None
             ∨ files st' !! with_suffix (temp_path idx) ".jpg"
               = files st !! with_suffix (temp_path idx) ".jpg")
          ∧ ∃ contents pdf,
              length contents = length imgs
              ∧ img2pdf_convert e contents = Ok pdf
              ∧ files st' !! out = Some pdf)).
Proof.
  unfold compile_pdf, destination_opened. destruct imgs as [|b0 rest].
  { eexists _, _. unfold mbind, M_bind, bind, logger, ret.
    split_and!; [done|done| |done].
    intros _. simpl. by rewrite last_snoc. }
  remember (b0 :: rest) as imgs eqn:Himgs.
  assert (bool_decide (imgs = []) = false) as Hne
    by (by rewrite Himgs, bool_decide_eq_false_2).
  rewrite Hne.
  clear Hne Himgs b0 rest.
  unfold try_exceptM, compile_body, save_temps.
  unfold mbind, M_bind, bind.
  unfold logger at 1. cbv beta iota.
  set (st0 := {| files := files st;
                 log := log st ++ [InfoCompiling (length imgs)] |}).
  destruct (save_temps_acc imgs 0 [] st0) as (st1 & Hfr1 & _ & Hrun1).
  rewrite Hrun1.
  assert (¬ is_temp_file (length imgs) out →
          files st1 !! out = files st !! out) as Hout1.
  { intros Hout. rewrite Hfr1; [done|].
    intros idx Hidx ->. apply Hout. exists idx. split; [lia|by left]. }
  destruct (temps_saved e 0 imgs).
  2: { eexists _, _. unfold logger, ret. split_and!; [done| | |done].
       - intros p _ Hp. simpl. rewrite Hfr1; [done|].
         intros idx Hidx ->. apply Hp. exists idx. split; [lia|by left].
       - intros _. simpl. split; [by rewrite last_snoc|done]. }
  unfold ret at 1. cbn [fst snd app andb].
  set (temps := temp_path <$> seq 0 (length imgs)).
  unfold convert_images.
  destruct (convert_images_writes temps [] st1)
    as (rgb & st2 & Hrun2 & Hall & Hfr2).
  rewrite Hrun2. cbn [fst snd app].
  pose proof (rgb_paths_temp _ _ Hall) as Hrgb.
  assert (length rgb = length imgs) as Hlen.
  { rewrite <- (Forall2_length _ _ _ Hall). unfold temps.
    by rewrite length_fmap, length_seq. }
  assert (∀ p, ¬ is_temp_file (length imgs) p →
               files st2 !! p = files st !! p) as Hframe2.
  { intros p Hp. rewrite Hfr2, Hfr1; [done| |].
    - intros idx Hidx ->. apply Hp. exists idx. split; [lia|by left].
    - intros Hin. by apply Hp, Hrgb. }
  assert (∀ p, p ∈ temps ++ rgb → is_temp_file (length imgs) p) as Htemp.
  { intros p [Hp|Hp]%elem_of_app; [|by apply Hrgb].
    apply temp_paths_elem in Hp as (idx & Hidx & ->).
    exists idx. split; [done|by left]. }
  destruct (write_pdf_cases rgb out st2) as (r3 & st3 & Hrun3 & Hlog3 & Hfr3 & Hw).
  rewrite Hrun3. destruct r3 as [[]|].
  - destruct Hw as (contents & pdf & Hclen & Hpdf & Hfiles3).
    unfold logger at 1. cbv beta iota. unfold clean_up.
    destruct (clean_up_spec (temps ++ rgb) tt
      {| files := files st3; log := log st3 ++ [InfoCompiled out] |})
      as (r4 & st4 & Hclean & Hlog4 & Hout4 & Hr4).
    rewrite Hclean.
    assert (∀ p, p ≠ out → ¬ is_temp_file (length imgs) p →
                 files st4 !! p = files st !! p) as Hframe4.
    { intros p Hne Hp. rewrite Hout4 by (intros Hin; by apply Hp, Htemp).
      cbn [files]. rewrite Hfr3 by done. by apply Hframe2. }
    assert (¬ is_temp_file (length imgs) out →
            files st4 !! out = Some pdf) as Hdest.
    { intros Hout. rewrite Hout4 by (intros Hin; by apply Hout, Htemp).
      cbn [files]. by rewrite Hfiles3, lookup_insert_eq. }
    destruct r4 as [[]|].
    + unfold ret. exists true, st4. split_and!; [done|done|done|].
      intros _. split_and!.
      * rewrite Hlog4. simpl. by rewrite last_snoc.
      * intros idx Hidx. apply Hr4, elem_of_app. left.
        apply temp_paths_elem. by exists idx.
      * intros Hout. split.
        -- intros idx Hidx.
           destruct (decide (with_suffix (temp_path idx) ".jpg" ∈ temps ++ rgb))
             as [Hin|Hin]; [left; by apply Hr4|right].
           rewrite Hout4 by done. cbn [files]. rewrite Hfr3.
           2: { intros E. apply Hout. exists idx. split; [done|by right]. }
           rewrite Hfr2, Hfr1; [done| |].
           ++ intros idx' Hidx' E. apply Hin, elem_of_app. left.
              apply temp_paths_elem. exists idx'. split; [lia|done].
           ++ intros Hin'. apply Hin, elem_of_app. by right.
        -- exists contents, pdf. split_and!; [lia|done|by apply Hdest].
    + eexists _, _. unfold logger, ret. split_and!; [done| | |done].
      * intros p Hne Hp. simpl. by apply Hframe4.
      * intros _. simpl. split; [by rewrite last_snoc|].
        intros Hout.
        assert (is_ok (open_wb e out) = true) as ->.
        { unfold write_pdf in Hrun3.
          unfold mbind, M_bind, bind, lift in Hrun3.
          by destruct (open_wb e out) as [[]|]. }
        right. exists contents, pdf. split_and!; [lia|done|].
        right. split; [by apply Hdest|].
        destruct Hr4 as (q & Hq & Hwhy). exists q. split; [by apply Htemp|done].
  - eexists _, _. unfold logger, ret. split_and!; [done| | |done].
    + intros p Hne Hp. simpl. rewrite Hfr3 by done. by apply Hframe2.
    + intros _. simpl. split; [by rewrite last_snoc|].
      intros Hout. destruct (is_ok (open_wb e out)).
      * destruct Hw as [Hw|(contents & pdf & Hclen & Hpdf & Hwr & Hw)];
          [by left|].
        right. exists contents, pdf. split_and!; [lia|done|by left].
      * rewrite Hw. by apply Hframe2.
Qed.

End Assembly.

(** C6 (as the code has it). An image that cannot be decoded or
    normalized is not dropped. The conversion step never raises and adds
    exactly one path for every image; when decoding or normalizing the
    image fails it logs a warning, leaves the files as they are and adds
    the path of the original temporary file. So the list handed to the
    final concatenation has one entry per image, in order: the original
    file or its normalized copy. *)
Theorem unreadable_image_is_kept (e : Assemble.env) :
  (∀ rgb_image_paths img_path st,
     ∃ added st',
       Assemble.convert_one e rgb_image_paths img_path st
       = (Ok (rgb_image_paths ++ [added]), st')
       ∧ (Assemble.normalize_fails e st img_path = true →
          added = img_path
          ∧ Assemble.files st' = Assemble.files st
          ∧ Assemble.log st'
            = Assemble.log st ++ [Assemble.WarningConverting img_path]))
  ∧ (∀ temp_image_paths st,
       ∃ rgb_image_paths st',
         Assemble.convert_images e temp_image_paths st
         = (Ok rgb_image_paths, st')
         ∧ length rgb_image_paths = length temp_image_paths
         ∧ ∀ i img_path,
             temp_image_paths !! i = Some img_path →
             rgb_image_paths !! i = Some img_path
             ∨ rgb_image_paths !! i
               = Some (Assemble.with_suffix img_path ".jpg")).
Proof.
  split.
  - intros rgb p st.
    destruct (convert_one_spec e rgb p st) as (q & st' & Hq & _ & Hfail & _).
    by exists q, st'.
  - intros paths st. unfold Assemble.convert_images.
    destruct (convert_images_acc e paths [] st) as (rgb & st' & Hrun & Hall & _).
    exists rgb, st'. split_and!; [done| |].
    + symmetry. by eapply Forall2_length.
    + intros i p Hp.
      destruct (Forall2_lookup_l _ _ _ _ _ Hall Hp) as (q & Hq & [->| ->]);
        [by left|by right].
Qed.

(** C6, counterexample. The first of two images cannot be opened by
    [Image.open]. Assembly succeeds, a warning is logged for the first
    temporary file, and the artifact is what [img2pdf.convert] makes of
    both files, the unreadable one included, not of the second alone. *)
Lemma unreadable_image_reaches_pdf :
  Assemble.compile_pdf Scenario.lenient_pdf
    [Scenario.bad_image; Scenario.png] "out.pdf" Scenario.empty_disk
  = (Ok true,
     {| Assemble.files :=
          {[ "out.pdf" := Scenario.bad_image ++ Scenario.png ++ [Byte.xff] ]};
        Assemble.log :=
          [Assemble.InfoCompiling 2;
           Assemble.WarningConverting "temp_images/page_0000.png";
           Assemble.InfoCompiled "out.pdf"] |})
  ∧ Assemble.img2pdf_convert Scenario.lenient_pdf
      [Scenario.bad_image; Scenario.png ++ [Byte.xff]]
    = Ok (Scenario.bad_image ++ Scenario.png ++ [Byte.xff])
  ∧ Assemble.img2pdf_convert Scenario.lenient_pdf [Scenario.png ++ [Byte.xff]]
    ≠ Ok (Scenario.bad_image ++ Scenario.png ++ [Byte.xff]).
Proof. split_and!; by vm_compute. Qed.

(** C4, the code at the failing input. [img2pdf.convert] raises on the
    one image: [compile_pdf] returns [False] and the temporary file
    [temp_images/page_0000.png] is still there, because the clean-up of
    lines 365-367 is on the success path only. On a success the same
    call leaves no temporary file. *)
Theorem temp_files_survive_failure :
  Assemble.compile_pdf Scenario.strict_pdf [Scenario.bad_image] "out.pdf"
    Scenario.empty_disk
  = (Ok false,
     {| Assemble.files :=
          {[ "out.pdf" := [];
             "temp_images/page_0000.png" := Scenario.bad_image ]};
        Assemble.log :=
          [Assemble.InfoCompiling 1;
           Assemble.WarningConverting "temp_images/page_0000.png";
           Assemble.ErrorCompiling] |})
  ∧ Assemble.temp_path 0 = "temp_images/page_0000.png"
  ∧ Assemble.compile_pdf Scenario.strict_pdf [Scenario.png] "out.pdf"
      Scenario.empty_disk
    = (Ok true,
       {| Assemble.files := {[ "out.pdf" := Scenario.png ++ [Byte.xff] ]};
          Assemble.log :=
            [Assemble.InfoCompiling 1; Assemble.InfoCompiled "out.pdf"] |}).
Proof. split_and!; by vm_compute. Qed.

(** C5 (as the code has it). Let [compile_pdf] fail with a destination
    that is none of its temporary files. When the failure comes before
    the destination is opened (no image, a temporary file that cannot be
    written, a destination that cannot be opened), the destination is as
    it was before the call, absent if it was absent. When the failure
    comes after the destination has been opened, a file is left at the
    destination name: an empty one when reading the pages or the
    conversion to PDF raises; one that holds what the write had put
    there when the write of the converted document raises; and the
    complete document when the clean-up of lines 365-367 raises, on an
    existence test or an [unlink] of a temporary file. *)
Theorem failed_assembly_destination (e : Assemble.env)
    (image_data_list : list bytes) (output_path : string)
    (st st' : Assemble.state)
    (Hout : ¬ Assemble.is_temp_file (length image_data_list) output_path)
    (Hfail : Assemble.compile_pdf e image_data_list output_path st
             = (Ok false, st')) :
  if Assemble.destination_opened e image_data_list output_path then
    Assemble.files st' !! output_path = Some []
    ∨ ∃ contents pdf,
        length contents = length image_data_list
        ∧ Assemble.img2pdf_convert e contents = Ok pdf
        ∧ (Assemble.write_bytes e output_path pdf = Raise
           ∧ Assemble.files st' !! output_path
             = Some (Assemble.torn_write e output_path pdf)
           ∨ Assemble.files st' !! output_path = Some pdf
             ∧ ∃ q, Assemble.is_temp_file (length image_data_list) q
                    ∧ (Assemble.stat e q = Raise
                       ∨ Assemble.unlink_at e q = Raise))
  else Assemble.files st' !! output_path = Assemble.files st !! output_path.
Proof.
  destruct (compile_pdf_post e image_data_list output_path st)
    as (b & st1 & Hrun & _ & Hfalse & _).
  rewrite Hfail in Hrun. injection Hrun as <- <-.
  by apply Hfalse.
Qed.

Lemma failed_assembly_destination_witness :
  Assemble.files
    (Assemble.compile_pdf Scenario.strict_pdf [Scenario.bad_image] "out.pdf"
       Scenario.empty_disk).2 !! "out.pdf"
  = Some []
  ∨ ∃ contents pdf,
      length contents = length [Scenario.bad_image]
      ∧ Assemble.img2pdf_convert Scenario.strict_pdf contents = Ok pdf
      ∧ (Assemble.write_bytes Scenario.strict_pdf "out.pdf" pdf = Raise
         ∧ Assemble.files
             (Assemble.compile_pdf Scenario.strict_pdf [Scenario.bad_image]
                "out.pdf" Scenario.empty_disk).2 !! "out.pdf"
           = Some (Assemble.torn_write Scenario.strict_pdf "out.pdf" pdf)
         ∨ Assemble.files
             (Assemble.compile_pdf Scenario.strict_pdf [Scenario.bad_image]
                "out.pdf" Scenario.empty_disk).2 !! "out.pdf"
           = Some pdf
           ∧ ∃ q, Assemble.is_temp_file (length [Scenario.bad_image]) q
                  ∧ (Assemble.stat Scenario.strict_pdf q = Raise
                     ∨ Assemble.unlink_at Scenario.strict_pdf q = Raise)).
Proof.
  apply (failed_assembly_destination Scenario.strict_pdf
           [Scenario.bad_image] "out.pdf" Scenario.empty_disk).
  - intros (idx & Hidx & H). simpl in Hidx.
    assert (idx = 0) as -> by lia.
    destruct H as [H|H]; vm_compute in H; discriminate H.
  - by vm_compute.
Defined.

(** C5, counterexample. Three failed assemblies of one image, each with
    no file at the destination before the call. [img2pdf.convert]
    raises after the destination has been opened: an empty file is left
    at the destination name. The write of the document breaks off: its
    first two bytes are left there. [unlink] raises in the clean-up: the
    complete document is left there, under a [False]. *)
Lemma failed_assembly_leaves_empty_pdf :
  Assemble.files Scenario.empty_disk !! "out.pdf" = None
  ∧ (Assemble.compile_pdf Scenario.strict_pdf [Scenario.bad_image] "out.pdf"
       Scenario.empty_disk).1 = Ok false
  ∧ Assemble.files
      (Assemble.compile_pdf Scenario.strict_pdf [Scenario.bad_image] "out.pdf"
         Scenario.empty_disk).2 !! "out.pdf"
    = Some []
  ∧ (Assemble.compile_pdf Scenario.full_disk_pdf [Scenario.png] "out.pdf"
       Scenario.empty_disk).1 = Ok false
  ∧ Assemble.files
      (Assemble.compile_pdf Scenario.full_disk_pdf [Scenario.png] "out.pdf"
         Scenario.empty_disk).2 !! "out.pdf"
    = Some (take 2 Scenario.png)
  ∧ (Assemble.compile_pdf Scenario.sticky_pdf [Scenario.png] "out.pdf"
       Scenario.empty_disk).1 = Ok false
  ∧ Assemble.files
      (Assemble.compile_pdf Scenario.sticky_pdf [Scenario.png] "out.pdf"
         Scenario.empty_disk).2 !! "out.pdf"
    = Some (Scenario.png ++ [Byte.xff])
  ∧ Assemble.img2pdf_convert Scenario.sticky_pdf [Scenario.png ++ [Byte.xff]]
    = Ok (Scenario.png ++ [Byte.xff]).
Proof. split_and!; by vm_compute. Qed.

(* ===================================================================== *)
(** * Further properties of the code *)
(* ===================================================================== *)

(** ** The URL helpers (lines 70-102) *)

Section Matcher.

Lemma startswith_prefix needle hay :
  startswith needle hay = true → ∃ rest, hay = needle ++ rest.
Proof.
  revert hay. induction needle as [|c needle IH]; intros hay H; simpl in H.
  - by exists hay.
  - destruct hay as [|d hay]; [done|].
    apply andb_true_iff in H as [Hc Hs]. apply Ascii.eqb_eq in Hc as ->.
    destruct (IH hay Hs) as (rest & ->). by exists rest.
Qed.

Lemma contains_iff needle hay :
  contains needle hay = true ↔ ∃ before rest, hay = before ++ needle ++ rest.
Proof.
  split.
  - induction hay as [|c hay IH]; simpl; intros H.
    + rewrite orb_false_r in H. apply startswith_prefix in H as (rest & ->).
      by exists [], rest.
    + apply orb_true_iff in H as [H|H].
      * apply startswith_prefix in H as (rest & ->). by exists [], rest.
      * destruct (IH H) as (before & rest & ->). by exists (c :: before), rest.
  - intros (before & rest & ->). apply contains_app.
Qed.

(** A match of literals consumes exactly these characters. *)
Lemma match_lits_inv l : ∀ p grp s r,
  match_atoms (map Lit l ++ p) grp s = Some r →
  ∃ s', s = l ++ s' ∧ match_atoms p grp s' = Some r.
Proof.
  induction l as [|c l IH]; intros p grp s r H; simpl in H.
  - by exists s.
  - destruct s as [|d s]; [done|].
    destruct (Ascii.eqb_spec c d) as [->|]; [|done].
    destruct (IH p grp s r H) as (s' & -> & Hs'). by exists s'.
Qed.

Lemma match_lits l : ∀ p grp s,
  match_atoms (map Lit l ++ p) grp (l ++ s) = match_atoms p grp s.
Proof.
  induction l as [|c l IH]; intros p grp s; simpl; [done|].
  by rewrite Ascii.eqb_refl.
Qed.

(** What the greedy [+] hands to its continuation when it succeeds. *)
Lemma plus_greedy_inv {R} cls (k : list ascii → list ascii → option R) :
  ∀ s run r,
    plus_greedy cls k run s = Some r →
    ∃ taken rest,
      taken ≠ [] ∧ Forall (λ c, cls c = true) taken
      ∧ s = taken ++ rest ∧ k (run ++ taken) rest = Some r.
Proof.
  induction s as [|c s IH]; intros run r H; simpl in H; [done|].
  destruct (cls c) eqn:Hc; [|done].
  destruct (plus_greedy cls k (run ++ [c]) s) as [r'|] eqn:Hrec.
  - injection H as ->.
    destruct (IH _ _ Hrec) as (taken & rest & _ & Hall & -> & Hk).
    exists (c :: taken), rest. split_and!; [done|by constructor|done|].
    by rewrite <- app_assoc in Hk.
  - exists [c], s. split_and!; [done|by repeat constructor|done|done].
Qed.

(** With a continuation that accepts every run, the longest run is the
    one taken. *)
Lemma plus_greedy_longest cls :
  ∀ s run r,
    plus_greedy cls (λ g _, Some g) run s = Some r →
    ∃ taken rest,
      taken ≠ [] ∧ Forall (λ c, cls c = true) taken
      ∧ s = taken ++ rest ∧ r = run ++ taken
      ∧ (∀ c, hd_error rest = Some c → cls c = false).
Proof.
  induction s as [|c s IH]; intros run r H; simpl in H; [done|].
  destruct (cls c) eqn:Hc; [|done].
  destruct (plus_greedy cls (λ g _, Some g) (run ++ [c]) s) as [r'|] eqn:Hrec.
  - injection H as ->.
    destruct (IH _ _ Hrec) as (taken & rest & _ & Hall & -> & -> & Hmax).
    exists (c :: taken), rest.
    split_and!; [done|by constructor|done|by rewrite <- app_assoc|done].
  - injection H as <-. exists [c], s.
    split_and!; [done|by repeat constructor|done|done|].
    intros d Hd. destruct s as [|d' s]; [done|]. injection Hd as ->.
    simpl in Hrec. destruct (cls d); [|done].
    by destruct (plus_greedy cls _ _ s).
Qed.

Lemma re_search_inv p : ∀ s r,
  re_search p s = Some r →
  ∃ before s', s = before ++ s' ∧ match_atoms p [] s' = Some r.
Proof.
  induction s as [|c s IH]; intros r H; simpl in H.
  - destruct (match_atoms p [] []) eqn:Hm; [|done]. injection H as ->.
    by exists [], [].
  - destruct (match_atoms p [] (c :: s)) eqn:Hm.
    + injection H as ->. by exists [], (c :: s).
    + destruct (IH r H) as (before & s' & -> & Hs'). by exists (c :: before), s'.
Qed.

Lemma re_search_here p s r :
  match_atoms p [] s = Some r → re_search p s = Some r.
Proof. intros H. destruct s; simpl; by rewrite H. Qed.

Lemma re_search_skip p c s :
  match_atoms p [] (c :: s) = None → re_search p (c :: s) = re_search p s.
Proof. intros H. simpl. by rewrite H. Qed.

End Matcher.

Section UrlHelpers.

Lemma plus_greedy_none {R} cls (k : list ascii → list ascii → option R) :
  ∀ s run,
    Forall (λ c, cls c = true) s →
    (∀ g rest, Forall (λ c, cls c = true) rest → k g rest = None) →
    plus_greedy cls k run s = None.
Proof.
  induction s as [|c s IH]; intros run Hall Hk; simpl; [done|].
  apply Forall_cons in Hall as [Hc Hall]. rewrite Hc.
  rewrite IH by done. by apply Hk.
Qed.

Lemma match_lit_mismatch c d p g s :
  c ≠ d → match_atoms (Lit c :: p) g (d :: s) = None.
Proof.
  intros Hne. cbn [match_atoms]. by destruct (Ascii.eqb_spec c d).
Qed.

Lemma class_not_slash c : id_class c = true → "/"%char ≠ c.
Proof. by intros Hc <-. Qed.

Lemma re_search_no_slash p s :
  Forall (λ c, id_class c = true) s → re_search (Lit "/" :: p) s = None.
Proof.
  induction s as [|c s IH]; intros Hall; [done|].
  apply Forall_cons in Hall as [Hc Hall].
  rewrite re_search_skip; [by apply IH|].
  by apply match_lit_mismatch, class_not_slash.
Qed.

Lemma slash_then_none g rest :
  Forall (λ c, id_class c = true) rest →
  match_atoms (lits "/") g rest = None.
Proof.
  intros Hall. destruct rest as [|c rest]; [done|].
  apply Forall_cons in Hall as [Hc _].
  by apply match_lit_mismatch, class_not_slash.
Qed.

Lemma file_pattern_inv s g :
  match_atoms file_id_pattern [] s = Some g →
  ∃ rest,
    s = chars "/file/d/" ++ g ++ chars "/" ++ rest
    ∧ g ≠ [] ∧ Forall (λ c, id_class c = true) g.
Proof.
  unfold file_id_pattern, lits. intros H.
  apply match_lits_inv in H as (s1 & -> & H).
  change (plus_greedy id_class
            (λ g0 rest, match_atoms (map Lit (chars "/") ++ []) g0 rest) [] s1
          = Some g) in H.
  apply plus_greedy_inv in H as (taken & rest & Hne & Hall & -> & H).
  cbv beta in H.
  apply match_lits_inv in H as (rest' & -> & [= <-]).
  by exists rest'.
Qed.

Lemma folder_pattern_inv s g :
  match_atoms folder_id_pattern [] s = Some g →
  ∃ rest,
    s = chars "/drive/folders/" ++ g ++ rest
    ∧ g ≠ [] ∧ Forall (λ c, id_class c = true) g
    ∧ (∀ c, hd_error rest = Some c → id_class c = false).
Proof.
  unfold folder_id_pattern, lits. intros H.
  apply match_lits_inv in H as (s1 & -> & H).
  change (plus_greedy id_class (λ g0 _, Some g0) [] s1 = Some g) in H.
  apply plus_greedy_longest in H as (taken & rest & Hne & Hall & -> & -> & Hmax).
  by exists rest.
Qed.

Lemma re_search_file_tail ident tail :
  ident ≠ [] →
  Forall (λ c, id_class c = true) ident →
  re_search file_id_pattern
    (chars "https://drive.google.com/file/d/" ++ ident ++ chars "/" ++ tail)
  = Some ident.
Proof.
  intros Hne Hall.
  cbn -[plus_greedy id_class].
  erewrite plus_greedy_run; [reflexivity|done|done| |].
  - right. exists "/"%char. split; [done|apply slash_not_in_class].
  - reflexivity.
Qed.

Lemma re_search_folder_tail ident tail :
  ident ≠ [] →
  Forall (λ c, id_class c = true) ident →
  (∀ c, hd_error tail = Some c → id_class c = false) →
  re_search folder_id_pattern
    (chars "https://drive.google.com/drive/folders/" ++ ident ++ tail)
  = Some ident.
Proof.
  intros Hne Hall Htail.
  cbn -[plus_greedy id_class].
  erewrite plus_greedy_run; [reflexivity|done|done| |reflexivity].
  destruct tail as [|c tail]; [by left|].
  right. exists c. split; [done|by apply Htail].
Qed.

Lemma file_pattern_no_slash ident :
  Forall (λ c, id_class c = true) ident →
  match_atoms file_id_pattern [] (chars "/file/d/" ++ ident) = None.
Proof.
  intros Hall. unfold file_id_pattern, lits. rewrite match_lits.
  change (plus_greedy id_class
            (λ g rest, match_atoms (lits "/") g rest) [] ident = None).
  apply plus_greedy_none; [done|].
  intros g rest Hrest. by apply slash_then_none.
Qed.

Lemma file_pattern_after_slash ident :
  Forall (λ c, id_class c = true) ident →
  match_atoms file_id_pattern [] ("/"%char :: ident) = None.
Proof.
  intros Hall.
  destruct (match_atoms file_id_pattern [] ("/"%char :: ident)) as [g|] eqn:E;
    [exfalso|done].
  apply file_pattern_inv in E as (rest & E & _).
  cbn [chars list_ascii_of_string app] in E. injection E as ->.
  by repeat (apply Forall_cons in Hall as [? Hall]).
Qed.

Lemma re_search_file_no_slash ident :
  Forall (λ c, id_class c = true) ident →
  re_search file_id_pattern
    (chars "https://drive.google.com/file/d/" ++ ident)
  = None.
Proof.
  intros Hall. cbn [chars list_ascii_of_string app].
  repeat rewrite re_search_skip by reflexivity.
  rewrite re_search_skip by (by apply (file_pattern_no_slash ident)).
  repeat rewrite re_search_skip by reflexivity.
  rewrite re_search_skip by (by apply file_pattern_after_slash).
  by apply (re_search_no_slash (tail file_id_pattern)).
Qed.

End UrlHelpers.

(** X1. Whenever [extract_file_id_from_url] returns an id, the id is a
    non-empty run of characters of [[a-zA-Z0-9-_]], the URL contains
    [/file/d/], the id and a slash in a row, and [is_file_url] accepts
    the URL. *)
Theorem extracted_file_id_sound (url file_id : string)
    (Hid : extract_file_id_from_url url = Some file_id) :
  file_id ≠ ""
  ∧ Forall (λ c, id_class c = true) (chars file_id)
  ∧ (∃ before rest,
       url = (before ++ "/file/d/" ++ file_id ++ "/" ++ rest)%string)
  ∧ is_file_url url = true.
Proof.
  unfold extract_file_id_from_url in Hid.
  destruct (re_search file_id_pattern (chars url)) as [g|] eqn:Hs; [|done].
  injection Hid as <-.
  apply re_search_inv in Hs as (before & s' & Hurl & Hm).
  apply file_pattern_inv in Hm as (rest & -> & Hne & Hall).
  split_and!.
  - intros E. apply Hne. by rewrite <- (chars_str g), E.
  - by rewrite chars_str.
  - exists (str before), (str rest). apply chars_inj.
    by rewrite !chars_app, !chars_str.
  - unfold is_file_url. rewrite Hurl. apply contains_app.
Qed.

Lemma extracted_file_id_sound_witness :
  "1AbC-_9" ≠ ""
  ∧ Forall (λ c, id_class c = true) (chars "1AbC-_9")
  ∧ (∃ before rest,
       "https://drive.google.com/file/d/1AbC-_9/view?usp=sharing"
       = (before ++ "/file/d/" ++ "1AbC-_9" ++ "/" ++ rest)%string)
  ∧ is_file_url "https://drive.google.com/file/d/1AbC-_9/view?usp=sharing"
    = true.
Proof.
  apply (extracted_file_id_sound
           "https://drive.google.com/file/d/1AbC-_9/view?usp=sharing").
  by vm_compute.
Defined.

(** X2. Whenever [extract_folder_id_from_url] returns an id, the id is a
    non-empty run of characters of [[a-zA-Z0-9-_]] that follows
    [/drive/folders/] in the URL and is as long as it can be: what comes
    after it is the end of the URL or a character outside the class; and
    [is_folder_url] accepts the URL. *)
Theorem extracted_folder_id_sound (url folder_id : string)
    (Hid : extract_folder_id_from_url url = Some folder_id) :
  folder_id ≠ ""
  ∧ Forall (λ c, id_class c = true) (chars folder_id)
  ∧ (∃ before rest,
       url = (before ++ "/drive/folders/" ++ folder_id ++ rest)%string
       ∧ ∀ c, hd_error (chars rest) = Some c → id_class c = false)
  ∧ is_folder_url url = true.
Proof.
  unfold extract_folder_id_from_url in Hid.
  destruct (re_search folder_id_pattern (chars url)) as [g|] eqn:Hs; [|done].
  injection Hid as <-.
  apply re_search_inv in Hs as (before & s' & Hurl & Hm).
  apply folder_pattern_inv in Hm as (rest & -> & Hne & Hall & Hmax).
  split_and!.
  - intros E. apply Hne. by rewrite <- (chars_str g), E.
  - by rewrite chars_str.
  - exists (str before), (str rest). split.
    + apply chars_inj. by rewrite !chars_app, !chars_str.
    + by rewrite chars_str.
  - unfold is_folder_url. rewrite Hurl. apply contains_app.
Qed.

Lemma extracted_folder_id_sound_witness :
  "18t4PrOWp" ≠ ""
  ∧ Forall (λ c, id_class c = true) (chars "18t4PrOWp")
  ∧ (∃ before rest,
       "https://drive.google.com/drive/folders/18t4PrOWp?usp=sharing"
       = (before ++ "/drive/folders/" ++ "18t4PrOWp" ++ rest)%string
       ∧ ∀ c, hd_error (chars rest) = Some c → id_class c = false)
  ∧ is_folder_url "https://drive.google.com/drive/folders/18t4PrOWp?usp=sharing"
    = true.
Proof.
  apply (extracted_folder_id_sound
           "https://drive.google.com/drive/folders/18t4PrOWp?usp=sharing").
  by vm_compute.
Defined.

(** X3. For a non-empty id of characters of [[a-zA-Z0-9-_]], the file id
    is extracted from [https://drive.google.com/file/d/ID/...] whatever
    follows the slash after the id ([view], [view?usp=sharing], ...). *)
Theorem file_id_extracted_before_any_tail (file_id tail : string)
    (Hid : file_id ≠ "")
    (Hclass : Forall (λ c, id_class c = true) (chars file_id)) :
  extract_file_id_from_url
    ("https://drive.google.com/file/d/" ++ file_id ++ "/" ++ tail)
  = Some file_id.
Proof.
  unfold extract_file_id_from_url.
  rewrite !chars_app, re_search_file_tail, str_chars; [done| |done].
  intros E. apply Hid, chars_inj. by rewrite E.
Qed.

Lemma file_id_extracted_before_any_tail_witness :
  extract_file_id_from_url
    ("https://drive.google.com/file/d/" ++ "1AbC-_9" ++ "/" ++ "view?usp=sharing")
  = Some "1AbC-_9".
Proof.
  apply (file_id_extracted_before_any_tail "1AbC-_9" "view?usp=sharing").
  - done.
  - vm_compute. repeat constructor.
Defined.

(** X4. For a non-empty id of characters of [[a-zA-Z0-9-_]], the folder
    id is extracted from [https://drive.google.com/drive/folders/ID]
    followed by nothing or by anything that starts outside the class
    (such as [?usp=sharing]), and the URL is a folder URL. *)
Theorem folder_id_roundtrip (folder_id tail : string)
    (Hid : folder_id ≠ "")
    (Hclass : Forall (λ c, id_class c = true) (chars folder_id))
    (Htail : ∀ c, hd_error (chars tail) = Some c → id_class c = false) :
  extract_folder_id_from_url
    ("https://drive.google.com/drive/folders/" ++ folder_id ++ tail)
  = Some folder_id
  ∧ is_folder_url
      ("https://drive.google.com/drive/folders/" ++ folder_id ++ tail)
    = true.
Proof.
  split.
  - unfold extract_folder_id_from_url.
    rewrite !chars_app, re_search_folder_tail, str_chars; [done| |done|done].
    intros E. apply Hid, chars_inj. by rewrite E.
  - unfold is_folder_url. rewrite !chars_app.
    change (chars "https://drive.google.com/drive/folders/")
      with (chars "https://drive.google.com" ++ chars "/drive/folders/").
    rewrite <- app_assoc. apply contains_app.
Qed.

Lemma folder_id_roundtrip_witness :
  extract_folder_id_from_url
    ("https://drive.google.com/drive/folders/" ++ "18t4PrOWp" ++ "?usp=sharing")
  = Some "18t4PrOWp"
  ∧ is_folder_url
      ("https://drive.google.com/drive/folders/" ++ "18t4PrOWp" ++ "?usp=sharing")
    = true.
Proof.
  apply (folder_id_roundtrip "18t4PrOWp" "?usp=sharing").
  - done.
  - vm_compute. repeat constructor.
  - intros c [= <-]. reflexivity.
Defined.

(** X5. A file URL that ends with the id, without a slash after it, is
    accepted by [is_file_url] but [extract_file_id_from_url] returns
    [None] for it: the pattern requires the slash. *)
Theorem file_id_needs_trailing_slash (file_id : string)
    (Hclass : Forall (λ c, id_class c = true) (chars file_id)) :
  extract_file_id_from_url ("https://drive.google.com/file/d/" ++ file_id)
  = None
  ∧ is_file_url ("https://drive.google.com/file/d/" ++ file_id) = true.
Proof.
  split.
  - unfold extract_file_id_from_url.
    by rewrite chars_app, re_search_file_no_slash.
  - unfold is_file_url. rewrite chars_app.
    change (chars "https://drive.google.com/file/d/")
      with (chars "https://drive.google.com" ++ chars "/file/d/").
    rewrite <- app_assoc. apply contains_app.
Qed.

Lemma file_id_needs_trailing_slash_witness :
  extract_file_id_from_url ("https://drive.google.com/file/d/" ++ "1AbC-_9")
  = None
  ∧ is_file_url ("https://drive.google.com/file/d/" ++ "1AbC-_9") = true.
Proof.
  apply (file_id_needs_trailing_slash "1AbC-_9").
  vm_compute. repeat constructor.
Defined.

(** ** File names, continued (lines 58-68 and 551-561) *)

Section SanitizeMore.

Lemma rstrip_fixed strip s :
  (∀ c, last s = Some c → strip c = false) → rstrip strip s = s.
Proof.
  induction s as [|c s IH]; intros Hlast; [done|]. simpl.
  destruct s as [|d s].
  - simpl. by rewrite (Hlast c).
  - rewrite IH; [done|]. intros x Hx. apply Hlast. by rewrite last_cons_cons.
Qed.

Lemma rstrip_length strip s : length (rstrip strip s) ≤ length s.
Proof.
  destruct (rstrip_split strip s) as (dropped & Hs & _).
  rewrite Hs at 2. rewrite length_app. lia.
Qed.

Lemma rstrip_same_length strip s :
  length (rstrip strip s) = length s → rstrip strip s = s.
Proof.
  intros Hlen. destruct (rstrip_split strip s) as (dropped & Hs & _).
  rewrite Hs in Hlen at 2. rewrite length_app in Hlen.
  destruct dropped; [|simpl in Hlen; lia]. by rewrite app_nil_r in Hs.
Qed.

Lemma re_sub_illegal_length s : length (re_sub_illegal s) = length s.
Proof. unfold re_sub_illegal. by rewrite length_map. Qed.

Lemma re_sub_illegal_fixed s :
  Forall (λ c, illegal_chars c = false) s → re_sub_illegal s = s.
Proof.
  unfold re_sub_illegal. induction 1 as [|c s Hc _ IH]; simpl; [done|].
  by rewrite Hc, IH.
Qed.

Lemma sanitize_clean s : clean_name (chars s) → sanitize_filename s = s.
Proof.
  intros (Hlegal & Hlast & Hlen). apply chars_inj.
  rewrite sanitize_filename_chars, re_sub_illegal_fixed, rstrip_fixed by done.
  by apply firstn_all2.
Qed.

Lemma sanitize_short_clean s :
  length (chars s) ≤ 200 → clean_name (chars (sanitize_filename s)).
Proof.
  intros Hlen. rewrite sanitize_filename_chars.
  pose proof (rstrip_length dot_or_space (re_sub_illegal (chars s))) as Hr.
  rewrite re_sub_illegal_length in Hr.
  rewrite firstn_all2 by lia. split_and!.
  - apply rstrip_Forall, re_sub_illegal_legal.
  - intros c. apply rstrip_last.
  - lia.
Qed.

End SanitizeMore.

(** X6. [sanitize_filename] returns its argument unchanged exactly when
    the argument holds no illegal character, does not end with a dot or a
    space, and has at most 200 characters. *)
Theorem sanitize_filename_fixed_points (filename : string) :
  sanitize_filename filename = filename
  ↔ Forall (λ c, illegal_chars c = false) (chars filename)
    ∧ (∀ c, last (chars filename) = Some c → dot_or_space c = false)
    ∧ length (chars filename) ≤ 200.
Proof.
  split; [|apply sanitize_clean].
  intros Hfix. apply (f_equal chars) in Hfix.
  rewrite sanitize_filename_chars in Hfix.
  set (r := re_sub_illegal (chars filename)) in *.
  pose proof (rstrip_length dot_or_space r) as Hr.
  pose proof (re_sub_illegal_length (chars filename)) as Hlen. fold r in Hlen.
  assert (length (firstn 200 (rstrip dot_or_space r)) = length r) as Hl
    by (by rewrite Hfix).
  rewrite length_firstn in Hl.
  assert (rstrip dot_or_space r = r) as Hrs
    by (apply rstrip_same_length; lia).
  rewrite Hrs, firstn_all2 in Hfix by lia.
  split_and!.
  - rewrite <- Hfix. apply re_sub_illegal_legal.
  - intros c Hc. apply (rstrip_last dot_or_space r). by rewrite Hrs, Hfix.
  - lia.
Qed.

(** X7. On a name of at most 200 characters, sanitizing twice gives the
    same as sanitizing once. *)
Theorem sanitize_filename_idempotent_short (filename : string)
    (Hlen : length (chars filename) ≤ 200) :
  sanitize_filename (sanitize_filename filename) = sanitize_filename filename.
Proof. by apply sanitize_clean, sanitize_short_clean. Qed.

Lemma sanitize_filename_idempotent_short_witness :
  sanitize_filename (sanitize_filename "a/b: c . ")
  = sanitize_filename "a/b: c . ".
Proof.
  apply (sanitize_filename_idempotent_short "a/b: c . ").
  vm_compute. lia.
Defined.

Section OutputNames.

Lemma pretty_N_char_legal x : illegal_chars (pretty_N_char x) = false.
Proof. unfold pretty_N_char. by repeat case_match. Qed.

Lemma pretty_N_go_legal x : ∀ s, legal_name s → legal_name (pretty_N_go x s).
Proof.
  induction (N.lt_wf_0 x) as [x _ IH]; intros s Hs.
  assert (x = 0 ∨ 0 < x)%N as [->|Hx] by lia.
  - by rewrite pretty_N_go_0.
  - rewrite pretty_N_go_step by done. apply IH.
    + by apply N.div_lt.
    + unfold legal_name. simpl. constructor; [apply pretty_N_char_legal|done].
Qed.

Lemma pretty_nat_legal (n : nat) : legal_name (pretty n).
Proof.
  unfold pretty, pretty_nat, pretty, pretty_N. case_decide.
  - unfold legal_name. by repeat constructor.
  - apply pretty_N_go_legal. constructor.
Qed.

Lemma legal_name_app s t : legal_name s → legal_name t → legal_name (s ++ t).
Proof. unfold legal_name. rewrite chars_app. apply Forall_app_2. Qed.

Lemma sanitize_filename_legal title : legal_name (sanitize_filename title).
Proof.
  unfold legal_name. rewrite sanitize_filename_chars.
  apply Forall_take, rstrip_Forall, re_sub_illegal_legal.
Qed.

End OutputNames.

(** X8. The collision loop keeps the file in the output directory.
    Whatever the title and the content of the directory, once the loop
    may test its condition more often than the directory has entries
    plus one, it ends; it ends with a name whenever the existence test
    never raises; and a name that it returns for the sanitized title is
    free, ends with [.pdf], and holds no illegal character, so neither a
    slash nor a backslash. *)
Theorem output_name_stays_in_directory
    (dir : gset string) (refused : string → bool) (title : string)
    (fuel : nat) (Hfuel : size dir + 1 < fuel) :
  ∃ r,
    free_output_path fuel (path_exists dir refused) (sanitize_filename title)
    = Some r
    ∧ ((∀ p, refused p = false) → ∃ name, r = Ok name)
    ∧ ∀ name, r = Ok name →
        (name ∉ dir)
        ∧ (∃ stem, name = (stem ++ ".pdf")%string)
        ∧ Forall (λ c, illegal_chars c = false) (chars name)
        ∧ ("/"%char ∉ chars name)
        ∧ ("\"%char ∉ chars name).
Proof.
  destruct (free_output_path_ends dir refused (sanitize_filename title)
              fuel Hfuel) as (r & Hrun & _).
  exists r. split; [done|]. split.
  - intros Hnever. destruct r as [name|]; [by eexists|].
    apply while_exists_raised in Hrun as (p & Hp). by rewrite Hnever in Hp.
  - intros name ->. unfold free_output_path in Hrun.
    apply while_exists_shape in Hrun as [Hfree Hshape].
    apply path_exists_false in Hfree.
    assert (legal_name name) as Hlegal.
    { destruct Hshape as [->|(k & _ & ->)].
      - apply legal_name_app; [apply sanitize_filename_legal|].
        unfold legal_name. by repeat constructor.
      - unfold pdf_filename_n.
        repeat apply legal_name_app;
          [apply sanitize_filename_legal| |apply pretty_nat_legal|];
          unfold legal_name; by repeat constructor. }
    split_and!; [done| |done| |].
    + destruct Hshape as [->|(k & _ & ->)].
      * by eexists.
      * exists (sanitize_filename title ++ "_" ++ pretty k)%string.
        unfold pdf_filename_n. apply chars_inj.
        rewrite !chars_app. by rewrite <- !app_assoc.
    + intros Hin. by apply (proj1 (Forall_forall _ _) Hlegal) in Hin.
    + intros Hin. by apply (proj1 (Forall_forall _ _) Hlegal) in Hin.
Qed.

Lemma output_name_stays_in_directory_witness :
  ∃ r,
    free_output_path 3 (path_exists {["a_b.pdf"]} (λ _, false))
      (sanitize_filename "a/b")
    = Some r
    ∧ ((∀ p : string, (λ _ : string, false) p = false) → ∃ name, r = Ok name)
    ∧ ∀ name, r = Ok name →
        (name ∉ ({["a_b.pdf"]} : gset string))
        ∧ (∃ stem, name = (stem ++ ".pdf")%string)
        ∧ Forall (λ c, illegal_chars c = false) (chars name)
        ∧ ("/"%char ∉ chars name)
        ∧ ("\"%char ∉ chars name).
Proof.
  apply (output_name_stays_in_directory {["a_b.pdf"]} (λ _, false) "a/b" 3).
  vm_compute. lia.
Defined.

(** ** Page discovery, continued (lines 170-240) *)

Section PageOrder.

Import Pages.
Variable e : env.

Lemma add_url_fst_indep l : ∀ c n m,
  (fold_left add_url l (c, n)).1 = (fold_left add_url l (c, m)).1.
Proof.
  induction l as [|u l IH]; intros c n m; simpl; [done|].
  unfold add_url at 2 4. simpl. case_bool_decide; apply IH.
Qed.

Lemma first_seen_app l1 l2 :
  (add_urls (Folder.first_seen l1) l2).1 = Folder.first_seen (l1 ++ l2).
Proof.
  unfold Folder.first_seen, add_urls. rewrite fold_left_app.
  destruct (fold_left add_url l1 ([], 0)) as [c n]. simpl.
  apply add_url_fst_indep.
Qed.

Lemma add_urls_none_new c urls :
  (∀ u, u ∈ urls → u ∈ c) → add_urls c urls = (c, 0).
Proof.
  intros Hsub. destruct (add_urls_spec c urls) as (new & -> & _ & Hfrom & _).
  destruct new as [|u new]; [by rewrite app_nil_r|].
  destruct (Hfrom u) as [Hu Hc]; [left|]. by apply Hsub in Hu.
Qed.

Lemma seen_S_ok_pages n urls :
  blob_urls e n = Ok urls → seen e (S n) = seen e n ++ urls.
Proof. intros H. simpl. by rewrite H. Qed.

(** The state of the loop at the head of a turn: the list is the
    first-seen list of what the probes have presented, and the last
    [nn] probes have added nothing to it. *)
Lemma discovery_loop_exit : ∀ fuel attempt c nn,
  c = Folder.first_seen (seen e attempt) →
  nn ≤ attempt → nn < max_scroll_attempts →
  Folder.first_seen (seen e (attempt - nn)) = c →
  length c < max_pages_cap →
  match discovery_loop e fuel attempt c nn with
  | (Ok d, k) =>
      k ≤ attempt + fuel
      ∧ collected_urls d = Folder.first_seen (seen e k)
      ∧ match how d with
        | NoNewUrls =>
            max_scroll_attempts ≤ k
            ∧ no_new_count d = max_scroll_attempts
            ∧ collected_urls d
              = Folder.first_seen (seen e (k - max_scroll_attempts))
            ∧ length (collected_urls d) < max_pages_cap
        | CapReached =>
            1 ≤ k
            ∧ max_pages_cap ≤ length (collected_urls d)
            ∧ length (Folder.first_seen (seen e (k - 1))) < max_pages_cap
        | RangeExhausted =>
            k = attempt + fuel
            ∧ length (collected_urls d) < max_pages_cap
            ∧ no_new_count d < max_scroll_attempts
        end
  | (Raise, k) => k ≤ attempt + fuel
  end.
Proof.
  unfold max_scroll_attempts, max_pages_cap.
  induction fuel as [|fuel IH]; intros attempt c nn Hc Hnn Hidle Hback Hlen.
  { simpl. split_and!; [lia|done|lia|done|done]. }
  simpl. destruct (blob_urls e attempt) as [urls|] eqn:Hp; [|lia].
  destruct (add_urls_spec c urls) as (new & Hadd & _).
  assert (c ++ new = Folder.first_seen (seen e (S attempt))) as Happ.
  { rewrite (seen_S_ok_pages _ _ Hp), <- first_seen_app.
    transitivity (add_urls c urls).1; [by rewrite Hadd|by f_equal; f_equal]. }
  rewrite Hadd.
  unfold max_pages_cap.
  destruct (Nat.leb_spec 200 (length (c ++ new))) as [Hcap|Hcap].
  { simpl. split_and!; [lia|done|lia|done|].
    rewrite ?Nat.sub_0_r. by rewrite <- Hc. }
  unfold max_scroll_attempts.
  destruct (Nat.eqb_spec (length new) 0) as [Hz|Hnz].
  - destruct new; [|done]. rewrite app_nil_r in *.
    destruct (Nat.leb_spec 8 (nn + 1)) as [Hstop|Hgo].
    + simpl. split_and!; [lia|done|lia|lia| |done].
      rewrite <- Hback. f_equal. f_equal. lia.
    + rewrite advance_ok.
      specialize (IH (S attempt) c (nn + 1)).
      destruct (discovery_loop e fuel (S attempt) c (nn + 1)) as [[d|] k].
      * destruct IH as (Hk & Hcol & Hhow); [done|lia|lia| |done|].
        { rewrite <- Hback. f_equal. f_equal. lia. }
        split_and!; [lia|done|].
        destruct (how d); [done|done|].
        destruct Hhow as (-> & ? & ?). split_and!; [lia|done|done].
      * enough (k ≤ S attempt + fuel) by lia.
        apply IH; [done|lia|lia| |done].
        rewrite <- Hback. f_equal. f_equal. lia.
  - change (Nat.leb 8 0) with false. cbv iota. rewrite advance_ok.
    specialize (IH (S attempt) (c ++ new) 0).
    destruct (discovery_loop e fuel (S attempt) (c ++ new) 0) as [[d|] k].
    + destruct IH as (Hk & Hcol & Hhow); [done|lia|lia| |done|].
      { by rewrite Nat.sub_0_r. }
      split_and!; [lia|done|].
      destruct (how d); [done|done|].
      destruct Hhow as (-> & ? & ?). split_and!; [lia|done|done].
    + enough (k ≤ S attempt + fuel) by lia.
      apply IH; [done|lia|lia| |done]. by rewrite Nat.sub_0_r.
Qed.

End PageOrder.

Section FirstOccurrences.

Import Pages.

Lemma filter_all {A} (P : A → Prop) `{!∀ x, Decision (P x)} (l : list A) :
  (∀ x, P x) → filter P l = l.
Proof.
  intros HP. induction l as [|x l IH]; [done|].
  by rewrite filter_cons_True, IH.
Qed.

(** The inner loop of lines 196-199, from any list [c] held: what is
    added is what is new, each once, at its first occurrence. *)
Lemma add_urls_occurrences : ∀ l c n,
  (fold_left add_url l (c, n)).1
  = c ++ filter (λ y, y ∉ c) (first_occurrences l).
Proof.
  induction l as [|x l IH]; intros c n.
  { simpl. by rewrite filter_nil, app_nil_r. }
  cbn [fold_left first_occurrences].
  assert (add_url (c, n) x
          = if bool_decide (x ∈ c) then (c, n) else (c ++ [x], S n)) as ->
    by done.
  case_bool_decide as Hx.
  - rewrite IH, filter_cons_False by (intros H; by apply H).
    rewrite list_filter_filter. f_equal. apply list_filter_iff.
    intros y. split; [|by intros [? _]].
    intros Hy. split; [done|]. by intros ->.
  - rewrite IH, filter_cons_True by done.
    rewrite <- app_assoc. cbn [app]. do 2 f_equal.
    rewrite list_filter_filter. apply list_filter_iff.
    intros y. rewrite not_elem_of_app, list_elem_of_singleton. done.
Qed.

Lemma first_seen_occurrences l : Folder.first_seen l = first_occurrences l.
Proof.
  unfold Folder.first_seen, add_urls. rewrite add_urls_occurrences.
  cbn [app]. apply filter_all. intros y Hy. by apply elem_of_nil in Hy.
Qed.

End FirstOccurrences.

Lemma pages_order_aux (e : Pages.env) (n : nat) :
  match Pages.discovery_loop e n 0 [] 0 with
  | (Ok d, k) =>
      Pages.collected_urls d = first_occurrences (Pages.seen e k)
  | (Raise, _) => True
  end.
Proof.
  pose proof (discovery_loop_exit e n 0 [] 0) as H.
  destruct (Pages.discovery_loop e n 0 [] 0) as [[d|] k]; [|done].
  rewrite <- first_seen_occurrences.
  apply H; try done; unfold Pages.max_scroll_attempts, Pages.max_pages_cap;
    simpl; lia.
Qed.

(** X9. Page discovery keeps first-seen order: whenever the loop hands
    back its list, after any number [n] of turns, the list is exactly
    the identifiers presented by the probes made, each once, at the place
    of its first appearance. The order is that of [first_occurrences],
    which is defined on the sequence of what the probes presented and
    owes nothing to the loop. *)
Theorem pages_in_first_seen_order (e : Pages.env) (n : nat) :
  match Pages.discovery_loop e n 0 [] 0 with
  | (Ok d, k) =>
      Pages.collected_urls d = first_occurrences (Pages.seen e k)
  | (Raise, _) => True
  end.
Proof. apply pages_order_aux. Qed.

(** X10. How page discovery ends. It never makes more than 1000 probes.
    When it ends for want of new urls, it has made at least 8 probes, the
    last 8 of which added nothing, and it holds fewer than 200 urls. When
    it ends by the cap, it holds at least 200 urls and held fewer than
    200 before its last probe. When it ends because the range is used
    up, it has made exactly 1000 probes. *)
Theorem page_discovery_exits (e : Pages.env) :
  match Pages.discover e with
  | (Ok d, k) =>
      k ≤ 1000
      ∧ match Pages.how d with
        | Pages.NoNewUrls =>
            8 ≤ k
            ∧ Pages.collected_urls d
              = Folder.first_seen (Pages.seen e (k - 8))
            ∧ length (Pages.collected_urls d) < 200
        | Pages.CapReached =>
            1 ≤ k
            ∧ 200 ≤ length (Pages.collected_urls d)
            ∧ length (Folder.first_seen (Pages.seen e (k - 1))) < 200
        | Pages.RangeExhausted =>
            k = 1000 ∧ length (Pages.collected_urls d) < 200
        end
  | (Raise, k) => k ≤ 1000
  end.
Proof.
  pose proof (discovery_loop_exit e Pages.max_attempts 0 [] 0) as H.
  unfold Pages.discover.
  unfold Pages.max_scroll_attempts, Pages.max_pages_cap, Pages.max_attempts in *.
  destruct (Pages.discovery_loop e 1000 0 [] 0) as [[d|] k].
  - destruct H as (Hk & _ & Hhow); [done|lia|lia|done|simpl; lia|].
    split; [lia|]. destruct (Pages.how d).
    + done.
    + destruct Hhow as (? & _ & ? & ?). done.
    + destruct Hhow as (? & ? & _). split; [lia|done].
  - apply H; [done|lia|lia|done|simpl; lia].
Qed.

Section PageConvergence.

Import Pages.
Variable e : env.
Variable m : nat.

Hypothesis Hok : ∀ k, blob_urls e k ≠ Raise.
Hypothesis Hquiet : ∀ k urls u,
  m ≤ k → blob_urls e k = Ok urls → u ∈ urls → u ∈ seen e m.
Hypothesis Hfew : length (Folder.first_seen (seen e m)) < max_pages_cap.

Lemma seen_bounded n x : x ∈ seen e n → x ∈ seen e m.
Proof.
  induction n as [|n IH]; simpl; [by intros ?%elem_of_nil|].
  intros [Hx|Hx]%elem_of_app; [by apply IH|].
  destruct (blob_urls e n) as [urls|] eqn:Hp; [|by apply elem_of_nil in Hx].
  destruct (decide (m ≤ n)) as [Hle|Hgt].
  - by eapply Hquiet.
  - apply (seen_mono e (S n) m); [lia|]. simpl. rewrite Hp.
    apply elem_of_app. by right.
Qed.

Lemma first_seen_few n : length (Folder.first_seen (seen e n)) < max_pages_cap.
Proof.
  eapply Nat.le_lt_trans; [|exact Hfew].
  destruct (first_seen_spec (seen e n)) as [Hnd Hin].
  destruct (first_seen_spec (seen e m)) as [_ Hin'].
  apply submseteq_length, NoDup_submseteq; [done|].
  intros x Hx. apply Hin', seen_bounded with n. by apply Hin.
Qed.

Lemma discovery_loop_converges : ∀ fuel attempt c nn,
  c = Folder.first_seen (seen e attempt) →
  nn < max_scroll_attempts →
  PagesMore.turns_left m attempt nn ≤ fuel →
  ∃ d k,
    discovery_loop e fuel attempt c nn = (Ok d, k)
    ∧ how d = NoNewUrls
    ∧ k ≤ attempt + PagesMore.turns_left m attempt nn.
Proof.
  unfold PagesMore.turns_left, max_scroll_attempts.
  induction fuel as [|fuel IH]; intros attempt c nn Hc Hnn Hfuel.
  { case_decide; lia. }
  simpl. destruct (blob_urls e attempt) as [urls|] eqn:Hp; [|by destruct (Hok attempt)].
  destruct (add_urls_spec c urls) as (new & Hadd & _ & Hfrom & _).
  assert (c ++ new = Folder.first_seen (seen e (S attempt))) as Happ.
  { rewrite (seen_S_ok_pages _ _ _ Hp), <- first_seen_app.
    transitivity (add_urls c urls).1; [by rewrite Hadd|by f_equal; f_equal]. }
  rewrite Hadd.
  pose proof (first_seen_few (S attempt)) as Hlen. rewrite <- Happ in Hlen.
  destruct (Nat.leb_spec max_pages_cap (length (c ++ new))) as [Hcap|_]; [lia|].
  unfold max_scroll_attempts.
  destruct (Nat.eqb_spec (length new) 0) as [Hz|Hnz].
  - destruct new; [|done]. rewrite app_nil_r in *.
    destruct (Nat.leb_spec 8 (nn + 1)) as [Hstop|Hgo].
    + eexists _, _. split_and!; [done|done|]. repeat case_decide; lia.
    + rewrite advance_ok.
      destruct (IH (S attempt) c (nn + 1)) as (d & k & Hd & Hhow & Hk);
        [done|lia|repeat case_decide; lia|].
      exists d, k. split_and!; [done|done|]. repeat case_decide; lia.
  - assert (attempt < m) as Hlt.
    { destruct (decide (attempt < m)) as [|Hge]; [done|]. exfalso.
      destruct new as [|u new]; [done|].
      destruct (Hfrom u) as [Hu Hnc]; [left|]. apply Hnc.
      rewrite Hc. apply first_seen_spec.
      apply (seen_mono e m attempt); [lia|]. eapply Hquiet; [|done|done]. lia. }
    change (Nat.leb 8 0) with false. cbv iota. rewrite advance_ok.
    destruct (IH (S attempt) (c ++ new) 0) as (d & k & Hd & Hhow & Hk);
      [done|lia|repeat case_decide; lia|].
    exists d, k. split_and!; [done|done|]. repeat case_decide; lia.
Qed.

End PageConvergence.

(** X11. Convergence of page discovery. When no probe raises, the probes
    from attempt [m] on present nothing that has not been presented
    before attempt [m], fewer than 200 distinct urls have been presented,
    and [m + 8] probes fit into the range, the loop ends for want of new
    urls after at most [m + 8] probes, and the list it holds is what its
    probes have presented, each url once, at the place of its first
    appearance. *)
Theorem page_discovery_converges (e : Pages.env) (m : nat)
    (Hok : ∀ k, Pages.blob_urls e k ≠ Raise)
    (Hquiet : ∀ k urls u,
       m ≤ k → Pages.blob_urls e k = Ok urls → u ∈ urls → u ∈ Pages.seen e m)
    (Hfew : length (first_occurrences (Pages.seen e m)) < 200)
    (Hfit : m + 8 ≤ 1000) :
  ∃ d k,
    Pages.discover e = (Ok d, k)
    ∧ Pages.how d = Pages.NoNewUrls
    ∧ k ≤ m + 8
    ∧ Pages.collected_urls d = first_occurrences (Pages.seen e k).
Proof.
  rewrite <- first_seen_occurrences in Hfew.
  destruct (discovery_loop_converges e m Hok Hquiet Hfew Pages.max_attempts 0 [] 0)
    as (d & k & Hd & Hhow & Hk).
  - done.
  - unfold Pages.max_scroll_attempts. lia.
  - unfold PagesMore.turns_left, Pages.max_scroll_attempts, Pages.max_attempts.
    case_decide; lia.
  - exists d, k. split_and!; [done|done| |].
    + unfold PagesMore.turns_left, Pages.max_scroll_attempts in Hk. case_decide; lia.
    + pose proof (pages_order_aux e Pages.max_attempts) as Ho.
      unfold Pages.discover in Hd. by rewrite Hd in Ho.
Qed.

Lemma page_discovery_converges_witness :
  ∃ d k,
    Pages.discover (Cases.steady_pages 3) = (Ok d, k)
    ∧ Pages.how d = Pages.NoNewUrls
    ∧ k ≤ 1 + 8
    ∧ Pages.collected_urls d
      = first_occurrences (Pages.seen (Cases.steady_pages 3) k).
Proof.
  apply (page_discovery_converges (Cases.steady_pages 3) 1).
  - intros k. done.
  - intros k urls u _ [= <-] Hu. exact Hu.
  - vm_compute. lia.
  - lia.
Defined.

(** ** The capture loop (lines 243-305) *)

Section CaptureLoop.

Import Pages.
Variable e : env.

Lemma capture_one_spec image_data_list blob_url :
  capture_one e image_data_list blob_url
  = image_data_list ++ option_list (Capture.captured e blob_url).
Proof.
  unfold capture_one, Capture.captured, try_except, rbind.
  destruct (fetch_blob e blob_url) as [b|]; simpl; [done|].
  destruct (canvas_png e blob_url) as [[b|]|]; simpl; by rewrite ?app_nil_r.
Qed.

Lemma capture_loop_spec urls : ∀ image_data_list,
  fold_left (capture_one e) urls image_data_list
  = image_data_list ++ omap (Capture.captured e) urls.
Proof.
  induction urls as [|u urls IH]; intros acc; [by rewrite app_nil_r|].
  change (omap (Capture.captured e) (u :: urls))
    with (match Capture.captured e u with
          | Some b => b :: omap (Capture.captured e) urls
          | None => omap (Capture.captured e) urls
          end).
  simpl. rewrite IH, capture_one_spec.
  destruct (Capture.captured e u); simpl; by rewrite <- ?app_assoc, ?app_nil_r.
Qed.

Lemma omap_length_le {A B} (f : A → option B) l : length (omap f l) ≤ length l.
Proof.
  induction l as [|a l IH]; [done|].
  change (omap f (a :: l))
    with (match f a with Some b => b :: omap f l | None => omap f l end).
  destruct (f a); simpl; lia.
Qed.

Lemma omap_length_all {A B} (f : A → option B) l :
  (∀ a, a ∈ l → is_Some (f a)) → length (omap f l) = length l.
Proof.
  induction l as [|a l IH]; intros H; [done|].
  change (omap f (a :: l))
    with (match f a with Some b => b :: omap f l | None => omap f l end).
  destruct (H a) as [b ->]; [left|]. simpl. f_equal. apply IH.
  intros a' Ha'. apply H. by right.
Qed.

End CaptureLoop.

(** X12. Capture is per page. When discovery hands back its list, the
    images returned are, in discovery order, the payload of every url
    that the fetch or else the canvas fallback yields; a url that neither
    yields is left out and does not end the capture. So there are never
    more images than urls, and exactly as many when every fetch succeeds.
    When discovery raises, no image is returned. *)
Theorem capture_is_per_page (e : Pages.env) :
  match Pages.discover e with
  | (Ok d, _) =>
      Pages.capture_blob_images e
      = omap (Capture.captured e) (Pages.collected_urls d)
      ∧ length (Pages.capture_blob_images e) ≤ length (Pages.collected_urls d)
      ∧ ((∀ u, u ∈ Pages.collected_urls d → Pages.fetch_blob e u ≠ Raise) →
         length (Pages.capture_blob_images e)
         = length (Pages.collected_urls d))
  | (Raise, _) => Pages.capture_blob_images e = []
  end.
Proof.
  unfold Pages.capture_blob_images.
  destruct (Pages.discover e) as [[d|] k]; simpl; [|done].
  rewrite capture_loop_spec. simpl. split_and!; [done|apply omap_length_le|].
  intros Hfetch. apply omap_length_all. intros u Hu.
  unfold Capture.captured. specialize (Hfetch u Hu).
  by destruct (Pages.fetch_blob e u).
Qed.

(** ** The folder scan, continued (lines 412-487) *)

Section FolderExit.

Import Folder.
Variable e : env.

Lemma add_rows_count rows : ∀ c a,
  a ≤ (fold_left add_row rows (c, a)).2
  ∧ ((fold_left add_row rows (c, a)).2 = a →
     (fold_left add_row rows (c, a)).1 = c).
Proof.
  induction rows as [|r rows IH]; intros c a; simpl; [done|].
  unfold add_row at 2 4 6. simpl.
  destruct (negb (String.eqb (row_id r) "") && negb (bool_decide (row_id r ∈ c))).
  - destruct (IH ({[row_id r]} ∪ c) (S a)) as [Hle _]. split; lia.
  - apply IH.
Qed.

Lemma add_rows_size rows : ∀ c a,
  size (fold_left add_row rows (c, a)).1 + a
  = size c + (fold_left add_row rows (c, a)).2.
Proof.
  induction rows as [|r rows IH]; intros c a; simpl; [done|].
  unfold add_row at 2 4. simpl.
  destruct (String.eqb (row_id r) ""); simpl; [apply IH|].
  case_bool_decide as Hin; simpl; [apply IH|].
  specialize (IH ({[row_id r]} ∪ c) (S a)).
  rewrite size_union, size_singleton in IH by set_solver. lia.
Qed.

Lemma add_rows_none_new c rows :
  (add_rows c rows).2 = 0 → (add_rows c rows).1 = c.
Proof. apply add_rows_count. Qed.

Lemma scan_loop_exit : ∀ fuel attempt c nn,
  c = list_to_set (seen e attempt) →
  nn ≤ attempt → nn < max_scroll_attempts →
  list_to_set (seen e (attempt - nn)) = c →
  let s := scan_loop e fuel attempt c nn in
  probes s ≤ attempt + fuel
  ∧ collected_file_ids s = list_to_set (seen e (probes s))
  ∧ match how s with
    | NoNewFiles =>
        max_scroll_attempts ≤ probes s
        ∧ collected_file_ids s
          = list_to_set (seen e (probes s - max_scroll_attempts))
    | Excepted => 1 ≤ probes s
    | RangeExhausted => probes s = attempt + fuel
    end.
Proof.
  unfold max_scroll_attempts.
  induction fuel as [|fuel IH]; intros attempt c nn Hc Hnn Hidle Hback.
  { simpl. split_and!; [lia|done|lia]. }
  simpl. destruct (file_rows e attempt) as [rows|] eqn:Hp; simpl.
  2: { rewrite Hp, app_nil_r. split_and!; [lia|done|lia]. }
  pose proof (add_rows_spec c rows) as Hadd.
  pose proof (add_rows_none_new c rows) as Hnone.
  destruct (add_rows c rows) as [c' added]. simpl in Hadd, Hnone.
  assert (c' = list_to_set (seen e (S attempt))) as Hc'.
  { rewrite (seen_S_ok _ _ _ Hp), list_to_set_app_L. by rewrite Hadd, Hc. }
  unfold max_scroll_attempts.
  destruct (Nat.eqb_spec added 0) as [Hz|Hnz].
  - rewrite (Hnone Hz) in *.
    destruct (Nat.leb_spec 15 (nn + 1)) as [Hstop|Hgo]; simpl.
    + split_and!; [lia|exact Hc'|lia|].
      rewrite <- Hback at 1. f_equal. f_equal. lia.
    + rewrite folder_advance_ok.
      destruct (IH (S attempt) c (nn + 1)) as (Hk & Hcol & Hhow);
        [done|lia|lia| |].
      { rewrite <- Hback. f_equal. f_equal. lia. }
      split_and!; [lia|done|].
      destruct (how _); [done|done|lia].
  - change (Nat.leb 15 0) with false. cbv iota. rewrite folder_advance_ok.
    destruct (IH (S attempt) c' 0) as (Hk & Hcol & Hhow); [done|lia|lia| |].
    { by rewrite Nat.sub_0_r. }
    split_and!; [lia|done|].
    destruct (how _); [done|done|lia].
Qed.

End FolderExit.

(** X13. How the folder scan ends. It never makes more than 100 probes,
    and the set it holds is the set of the non-empty ids that its probes
    presented. When it ends for want of new files it has made at least 15
    probes, the last 15 of which added nothing. When it ends because the
    range is used up it has made exactly 100 probes. *)
Theorem folder_scan_exits (e : Folder.env) :
  let s := Folder.scan_folder e in
  Folder.probes s ≤ 100
  ∧ Folder.collected_file_ids s
    = list_to_set (Folder.seen e (Folder.probes s))
  ∧ match Folder.how s with
    | Folder.NoNewFiles =>
        15 ≤ Folder.probes s
        ∧ Folder.collected_file_ids s
          = list_to_set (Folder.seen e (Folder.probes s - 15))
    | Folder.Excepted => 1 ≤ Folder.probes s
    | Folder.RangeExhausted => Folder.probes s = 100
    end.
Proof.
  intros s.
  destruct (scan_loop_exit e Folder.max_attempts 0 ∅ 0) as (Hk & Hcol & Hhow);
    [done|lia|unfold Folder.max_scroll_attempts; lia|done|].
  fold (Folder.scan_folder e) in Hk, Hcol, Hhow. fold s in Hk, Hcol, Hhow.
  unfold Folder.max_attempts, Folder.max_scroll_attempts in *.
  split_and!; [lia|done|]. by destruct (Folder.how s).
Qed.

Section FolderConvergence.

Import Folder.
Variable e : env.
Variable m : nat.

Hypothesis Hok : ∀ k, file_rows e k ≠ Raise.
Hypothesis Hquiet : ∀ k rows i,
  m ≤ k → file_rows e k = Ok rows → i ∈ row_ids rows → i ∈ seen e m.

Lemma folder_seen_mono n n' x : n ≤ n' → x ∈ seen e n → x ∈ seen e n'.
Proof.
  induction 1 as [|n' _ IH]; [done|]. intros Hx. simpl.
  apply elem_of_app. left. by apply IH.
Qed.

Lemma scan_loop_converges : ∀ fuel attempt c nn,
  c = list_to_set (seen e attempt) →
  nn < max_scroll_attempts →
  FolderMore.turns_left m attempt nn ≤ fuel →
  let s := scan_loop e fuel attempt c nn in
  how s = NoNewFiles
  ∧ probes s ≤ attempt + FolderMore.turns_left m attempt nn.
Proof.
  unfold FolderMore.turns_left, max_scroll_attempts.
  induction fuel as [|fuel IH]; intros attempt c nn Hc Hnn Hfuel.
  { case_decide; lia. }
  simpl. destruct (file_rows e attempt) as [rows|] eqn:Hp;
    [|by destruct (Hok attempt)].
  pose proof (add_rows_spec c rows) as Hadd.
  pose proof (add_rows_count rows c 0) as [_ Hnone].
  fold (add_rows c rows) in Hnone.
  destruct (add_rows c rows) as [c' added] eqn:Hrun. simpl in Hadd, Hnone.
  assert (c' = list_to_set (seen e (S attempt))) as Hc'.
  { rewrite (seen_S_ok _ _ _ Hp), list_to_set_app_L. by rewrite Hadd, Hc. }
  unfold max_scroll_attempts.
  destruct (Nat.eqb_spec added 0) as [Hz|Hnz].
  - rewrite (Hnone Hz) in *.
    destruct (Nat.leb_spec 15 (nn + 1)) as [Hstop|Hgo]; simpl.
    + split; [done|]. repeat case_decide; lia.
    + rewrite folder_advance_ok.
      destruct (IH (S attempt) c (nn + 1)) as (Hhow & Hk);
        [done|lia|repeat case_decide; lia|].
      split; [done|]. repeat case_decide; lia.
  - assert (attempt < m) as Hlt.
    { destruct (decide (attempt < m)) as [|Hge]; [done|]. exfalso.
      apply Hnz.
      assert (c' = c) as Hsame.
      { rewrite Hadd. apply set_eq. intros x. rewrite elem_of_union.
        split; [|by left]. intros [?|Hx]; [done|].
        rewrite Hc. apply elem_of_list_to_set. apply elem_of_list_to_set in Hx.
        apply (folder_seen_mono m attempt); [lia|].
        eapply Hquiet; [|done|done]. lia. }
      clear -Hrun Hsame. subst c'.
      pose proof (add_rows_size rows c 0) as Hsz.
      fold (add_rows c rows) in Hsz. rewrite Hrun in Hsz. simpl in Hsz. lia. }
    change (Nat.leb 15 0) with false. cbv iota. rewrite folder_advance_ok.
    destruct (IH (S attempt) c' 0) as (Hhow & Hk);
      [done|lia|repeat case_decide; lia|].
    split; [done|]. repeat case_decide; lia.
Qed.

End FolderConvergence.

(** X14. Convergence of the folder scan. When no probe raises, the
    probes from attempt [m] on present no id that has not been presented
    before attempt [m], and [m + 15] probes fit into the range, the scan
    ends for want of new files after at most [m + 15] probes, holding
    the set of all the non-empty ids its probes presented. *)
Theorem folder_scan_converges (e : Folder.env) (m : nat)
    (Hok : ∀ k, Folder.file_rows e k ≠ Raise)
    (Hquiet : ∀ k rows i,
       m ≤ k → Folder.file_rows e k = Ok rows →
       i ∈ Folder.row_ids rows → i ∈ Folder.seen e m)
    (Hfit : m + 15 ≤ 100) :
  let s := Folder.scan_folder e in
  Folder.how s = Folder.NoNewFiles
  ∧ Folder.probes s ≤ m + 15
  ∧ Folder.collected_file_ids s
    = list_to_set (Folder.seen e (Folder.probes s)).
Proof.
  intros s.
  destruct (scan_loop_converges e m Hok Hquiet Folder.max_attempts 0 ∅ 0)
    as (Hhow & Hk).
  - done.
  - unfold Folder.max_scroll_attempts. lia.
  - unfold FolderMore.turns_left, Folder.max_scroll_attempts, Folder.max_attempts.
    case_decide; lia.
  - fold (Folder.scan_folder e) in Hhow, Hk. fold s in Hhow, Hk.
    split_and!; [done| |].
    + unfold FolderMore.turns_left, Folder.max_scroll_attempts in Hk.
      case_decide; lia.
    + by destruct (scan_loop_inv e Folder.max_attempts 0 ∅ 0).
Qed.

Lemma folder_scan_converges_witness :
  let s := Folder.scan_folder FolderMore.steady_folder in
  Folder.how s = Folder.NoNewFiles
  ∧ Folder.probes s ≤ 1 + 15
  ∧ Folder.collected_file_ids s
    = list_to_set (Folder.seen FolderMore.steady_folder (Folder.probes s)).
Proof.
  apply (folder_scan_converges FolderMore.steady_folder 1).
  - intros k. done.
  - intros k rows i _ [= <-] Hi. exact Hi.
  - lia.
Defined.

(** ** PDF assembly, continued (lines 314-373) *)

(** X15. [compile_pdf] never raises: it returns [True] or [False]. A
    [False] is always announced by an error as the last event logged
    ("No images to compile" or "Error compiling PDF"), and after a
    [True] the last event logged is "PDF compiled successfully". *)
Theorem compile_pdf_never_raises (e : Assemble.env)
    (image_data_list : list bytes) (output_path : string)
    (st : Assemble.state) :
  ∃ b st',
    Assemble.compile_pdf e image_data_list output_path st = (Ok b, st')
    ∧ last (Assemble.log st')
      = Some (if b then Assemble.InfoCompiled output_path
              else match image_data_list with
                   | [] => Assemble.ErrorNoImages
                   | _ :: _ => Assemble.ErrorCompiling
                   end).
Proof.
  destruct (compile_pdf_post e image_data_list output_path st)
    as (b & st' & Hrun & _ & Hfalse & Htrue).
  exists b, st'. split; [done|]. destruct b.
  - by apply Htrue.
  - rewrite (proj1 (Hfalse eq_refl)). by destruct image_data_list.
Qed.



(** X17. [compile_pdf] touches nothing but its own files: whether it
    succeeds or fails, every path other than the destination, the
    temporary [page_NNNN.png] and [page_NNNN.jpg] of the call and the log
    file, which every call appends records to, holds after the call what
    it held before. *)
Theorem compile_pdf_frame (e : Assemble.env)
    (image_data_list : list bytes) (output_path p : string)
    (st : Assemble.state)
    (Hdest : p ≠ output_path)
    (Hlog : p ≠ Assemble.log_file)
    (Htemp : ¬ Assemble.is_temp_file (length image_data_list) p) :
  Assemble.files
    (Assemble.compile_pdf e image_data_list output_path st).2 !! p
  = Assemble.files st !! p.
Proof.
  destruct (compile_pdf_post e image_data_list output_path st)
    as (b & st' & Hrun & Hframe & _).
  rewrite Hrun. simpl. by apply Hframe.
Qed.

Lemma compile_pdf_frame_witness :
  Assemble.files
    (Assemble.compile_pdf Scenario.strict_pdf [Scenario.bad_image] "out.pdf"
       {| Assemble.files := {[ "downloads/old.pdf" := Scenario.png ]};
          Assemble.log := [] |}).2 !! "downloads/old.pdf"
  = Some Scenario.png.
Proof.
  rewrite (compile_pdf_frame Scenario.strict_pdf [Scenario.bad_image]
             "out.pdf" "downloads/old.pdf").
  - reflexivity.
  - done.
  - done.
  - intros (idx & Hidx & H). simpl in Hidx.
    assert (idx = 0) as -> by lia.
    destruct H as [H|H]; vm_compute in H; discriminate H.
Defined.

(** ** Waiting for the pages (lines 104-141) *)

Section WaitLoop.

Import Wait.
Variable e : env.

Lemma wait_loop_spec : ∀ fuel attempt,
  match wait_loop e fuel attempt with
  | (Ok true, k) =>
      ∃ j, k = S j ∧ attempt ≤ j < attempt + fuel
           ∧ (∃ count, blob_images_count e j = Ok (S count))
           ∧ ∀ i, attempt ≤ i < j → blob_images_count e i = Ok 0
  | (Ok false, k) =>
      k = attempt + fuel
      ∧ ∀ i, attempt ≤ i < attempt + fuel → blob_images_count e i = Ok 0
  | (Raise, k) =>
      ∃ j, k = S j ∧ attempt ≤ j < attempt + fuel
           ∧ blob_images_count e j = Raise
           ∧ ∀ i, attempt ≤ i < j → blob_images_count e i = Ok 0
  end.
Proof.
  induction fuel as [|fuel IH]; intros attempt; simpl.
  { split; [lia|]. intros i Hi. lia. }
  assert (try_except (network_idle e attempt) (Ok tt) = Ok tt) as ->.
  { unfold try_except. by destruct (network_idle e attempt) as [[]|]. }
  destruct (blob_images_count e attempt) as [count|] eqn:Hc.
  2: { exists attempt. split_and!; [done|lia|lia|done|]. intros i Hi. lia. }
  destruct count as [|count]; simpl.
  - specialize (IH (S attempt)).
    assert (∀ i j, attempt ≤ i < j →
              (∀ i, S attempt ≤ i < j → blob_images_count e i = Ok 0) →
              blob_images_count e i = Ok 0) as Hext.
    { intros i j Hi H. destruct (decide (i = attempt)) as [->|]; [done|].
      apply H. lia. }
    destruct (wait_loop e fuel (S attempt)) as [[[]|] k].
    + destruct IH as (j & -> & Hj & Hcount & Hzero).
      exists j. split_and!; [done|lia|lia|done|]. intros i Hi. by eapply Hext.
    + destruct IH as (-> & Hzero). split; [lia|].
      intros i Hi. apply (Hext i (S attempt + fuel)); [lia|done].
    + destruct IH as (j & -> & Hj & Hr & Hzero).
      exists j. split_and!; [done|lia|lia|done|]. intros i Hi. by eapply Hext.
  - exists attempt. split_and!; [done|lia|lia|by eexists|]. intros i Hi. lia.
Qed.

End WaitLoop.

(** X18. [wait_for_pdf_pages] answers [True] at the first look that
    counts at least one page image, all the looks before it having
    counted none; it answers [False] after [max_retries] looks that all
    counted none; it raises only when a count itself raises; in each case
    it has made no look after the deciding one. A network that never gets
    idle changes nothing. *)
Theorem wait_stops_at_first_page (e : Wait.env) (max_retries : nat) :
  match Wait.wait_for_pdf_pages e max_retries with
  | (Ok true, k) =>
      ∃ j, k = S j ∧ j < max_retries
           ∧ (∃ count, Wait.blob_images_count e j = Ok (S count))
           ∧ ∀ i, i < j → Wait.blob_images_count e i = Ok 0
  | (Ok false, k) =>
      k = max_retries
      ∧ ∀ i, i < max_retries → Wait.blob_images_count e i = Ok 0
  | (Raise, k) =>
      ∃ j, k = S j ∧ j < max_retries
           ∧ Wait.blob_images_count e j = Raise
           ∧ ∀ i, i < j → Wait.blob_images_count e i = Ok 0
  end.
Proof.
  pose proof (wait_loop_spec e max_retries 0) as H.
  unfold Wait.wait_for_pdf_pages.
  destruct (Wait.wait_loop e max_retries 0) as [[[]|] k].
  - destruct H as (j & -> & Hj & Hcount & Hzero).
    exists j. split_and!; [done|lia|done|]. intros i Hi. apply Hzero. lia.
  - destruct H as (-> & Hzero). split; [done|]. intros i Hi. apply Hzero. lia.
  - destruct H as (j & -> & Hj & Hr & Hzero).
    exists j. split_and!; [done|lia|done|]. intros i Hi. apply Hzero. lia.
Qed.

(** ** Titles and folder names (lines 143-158 and 387-407) *)

Section Stripping.

Import PyStrMore.

Lemma lstrip_head strip s c :
  hd_error (lstrip strip s) = Some c → strip c = false.
Proof.
  induction s as [|a s IH]; simpl; [done|].
  destruct (strip a) eqn:Ha; [done|]. simpl. by intros [= <-].
Qed.

Lemma lstrip_fixed strip s :
  (∀ c, hd_error s = Some c → strip c = false) → lstrip strip s = s.
Proof. intros H. destruct s as [|a s]; [done|]. simpl. by rewrite (H a). Qed.

Lemma lstrip_suffix strip s : ∃ dropped, s = dropped ++ lstrip strip s.
Proof.
  induction s as [|a s (dropped & Hs)]; simpl; [by exists []|].
  destruct (strip a).
  - exists (a :: dropped). simpl. by rewrite <- Hs.
  - by exists [].
Qed.

Lemma rstrip_head strip s c :
  hd_error (rstrip strip s) = Some c → hd_error s = Some c.
Proof.
  destruct (rstrip_split strip s) as (dropped & Hs & _).
  intros H. rewrite Hs. by destruct (rstrip strip s).
Qed.

Lemma strip_chars s :
  chars (strip s) = rstrip isspace (lstrip isspace (chars s)).
Proof. unfold strip. by rewrite chars_str. Qed.

Lemma strip_head s c : hd_error (chars (strip s)) = Some c → isspace c = false.
Proof.
  rewrite strip_chars. intros H%rstrip_head. by apply lstrip_head in H.
Qed.

Lemma strip_last s c : last (chars (strip s)) = Some c → isspace c = false.
Proof. rewrite strip_chars. apply rstrip_last. Qed.

Lemma strip_fixed s :
  (∀ c, hd_error (chars s) = Some c → isspace c = false) →
  (∀ c, last (chars s) = Some c → isspace c = false) →
  strip s = s.
Proof.
  intros Hh Hl. apply chars_inj.
  by rewrite strip_chars, lstrip_fixed, rstrip_fixed.
Qed.

Lemma strip_idempotent s : strip (strip s) = strip s.
Proof. apply strip_fixed; [apply strip_head | apply strip_last]. Qed.

Lemma strip_length s : length (chars (strip s)) ≤ length (chars s).
Proof.
  rewrite strip_chars.
  etrans; [apply rstrip_length|].
  destruct (lstrip_suffix isspace (chars s)) as (dropped & Hs).
  rewrite Hs at 2. rewrite length_app. lia.
Qed.

Lemma string_eqb_empty s : String.eqb s "" = true ↔ s = "".
Proof. apply String.eqb_eq. Qed.

End Stripping.

(** X19. [get_document_title] never returns an empty title and never one
    with white space at either end: when the page has a title, the
    result is non-empty, its first and its last character are no white
    space, and it is [gdrive_document] whenever the title of the
    document, the Drive suffix taken out, is blank. It raises only when
    reading the title raises. *)
Theorem document_title_is_usable (document_title : string) :
  ∃ title,
    Title.get_document_title (Ok document_title) = Ok title
    ∧ title ≠ ""
    ∧ (∀ c, hd_error (chars title) = Some c → PyStrMore.isspace c = false)
    ∧ (∀ c, last (chars title) = Some c → PyStrMore.isspace c = false)
    ∧ (PyStrMore.strip (Title.script_title document_title) = "" →
       title = "gdrive_document").
Proof.
  unfold Title.get_document_title, rbind.
  destruct (String.eqb_spec
    (PyStrMore.strip (Title.script_title document_title)) "") as [Hempty|Hne].
  - exists "gdrive_document". split_and!; [done|done| | |done].
    + intros c [= <-]. reflexivity.
    + intros c [= <-]. reflexivity.
  - eexists. split_and!; [done|done|apply strip_head|apply strip_last|done].
Qed.

(** X20. The name of the local folder is always fit for one path
    component: whatever [page.title()] answers or raises, the folder
    name holds no illegal character (no slash and no backslash in
    particular) and has at most 200 characters. *)
Theorem folder_name_is_one_component (page_title : result string) :
  Forall (λ c, illegal_chars c = false)
    (chars (Title.folder_name_of page_title))
  ∧ length (chars (Title.folder_name_of page_title)) ≤ 200
  ∧ "/"%char ∉ chars (Title.folder_name_of page_title).
Proof.
  assert (Forall (λ c, illegal_chars c = false)
            (chars (Title.folder_name_of page_title))
          ∧ length (chars (Title.folder_name_of page_title)) ≤ 200) as [Hl Hn].
  { unfold Title.folder_name_of, rbind, try_except.
    destruct page_title as [t|].
    2: { split; [by repeat constructor|simpl; lia]. }
    destruct (negb (String.eqb t "") && negb (String.eqb t "Google Drive")).
    2: { split; [by repeat constructor|simpl; lia]. }
    destruct (String.eqb_spec
      (PyStrMore.strip
         (str (PyStrMore.remove_all (chars Title.drive_suffix) 0 (chars t)))) "")
      as [->|Hne]; cbn [negb].
    { split; [constructor|simpl; lia]. }
    split; [apply sanitize_filename_legal|].
    rewrite sanitize_filename_chars, length_firstn. lia. }
  split_and!; [done|done|].
  intros Hin. by apply (proj1 (Forall_forall _ _) Hl) in Hin.
Qed.

(** ** Loading the list of links (lines 690-716) *)

Section LoaderFacts.

Import PyStrMore Loader.

Lemma text_url_spec line u :
  text_url line = Some u →
  u = strip line ∧ str_startswith "http" u = true.
Proof.
  unfold text_url. intros H.
  destruct (negb (String.eqb (strip line) "")) eqn:E; simpl in H; [|done].
  destruct (str_startswith "http" (strip line)) eqn:Hs; [|done].
  by injection H as <-.
Qed.

Lemma str_startswith_nonempty u :
  str_startswith "http" u = true → u ≠ "".
Proof. by intros H ->. Qed.

Lemma text_url_fixed line u : text_url line = Some u → text_url u = Some u.
Proof.
  intros [-> Hs]%text_url_spec. unfold text_url.
  rewrite strip_idempotent, Hs.
  destruct (String.eqb_spec (strip line) "") as [E|_]; [|done].
  by rewrite E in Hs.
Qed.

Lemma csv_url_spec row u :
  csv_url row = Some u →
  ∃ first rest, row = first :: rest ∧ u = strip first
                ∧ str_startswith "http" u = true.
Proof.
  unfold csv_url. destruct row as [|first rest]; [done|].
  destruct (str_startswith "http" (strip first)) eqn:Hs; [|done].
  intros [= <-]. by exists first, rest.
Qed.

Lemma omap_fixed {A} (f : A → option A) (l : list A) :
  (∀ a b, f a = Some b → f b = Some b) → omap f (omap f l) = omap f l.
Proof.
  intros Hf. induction l as [|a l IH]; [done|].
  change (omap f (a :: l))
    with (match f a with Some b => b :: omap f l | None => omap f l end).
  destruct (f a) as [b|] eqn:Ha; [|done].
  change (omap f (b :: omap f l))
    with (match f b with
          | Some b' => b' :: omap f (omap f l)
          | None => omap f (omap f l)
          end).
  by rewrite (Hf _ _ Ha), IH.
Qed.

Lemma elem_of_omap_inv {A B} (f : A → option B) (l : list A) b :
  b ∈ omap f l → ∃ a, a ∈ l ∧ f a = Some b.
Proof. intros H. by apply list_elem_of_omap in H. Qed.

End LoaderFacts.

(** X21. Every link that [load_urls_from_file] returns starts with
    [http], is not empty, and has no white space around it; there are
    never more links than lines (or rows) in the file, and a file that
    cannot be opened or read gives no link at all. *)
Theorem loaded_urls_are_links (file_path : string) (f : Loader.opened)
    (csv_reader : list string → result (list (list string))) :
  (∀ u, u ∈ Loader.load_urls_from_file file_path f csv_reader →
        PyStrMore.str_startswith "http" u = true
        ∧ u ≠ ""
        ∧ PyStrMore.strip u = u)
  ∧ match f with
    | Loader.Lines lines =>
        length (Loader.load_urls_from_file file_path f csv_reader)
        ≤ match csv_reader lines with
          | Ok rows =>
              if PyStrMore.str_endswith ".csv" (PyStrMore.lower file_path)
              then length rows else length lines
          | Raise => length lines
          end
    | _ => Loader.load_urls_from_file file_path f csv_reader = []
    end.
Proof.
  split.
  - intros u Hu. unfold Loader.load_urls_from_file in Hu.
    destruct f as [| |lines]; [by apply elem_of_nil in Hu..|].
    destruct (PyStrMore.str_endswith ".csv" (PyStrMore.lower file_path)).
    + destruct (csv_reader lines) as [rows|]; [|by apply elem_of_nil in Hu].
      apply elem_of_omap_inv in Hu as (row & _ & Hrow).
      apply csv_url_spec in Hrow as (first & rest & _ & -> & Hs).
      split_and!; [done|by apply str_startswith_nonempty|apply strip_idempotent].
    + apply elem_of_omap_inv in Hu as (line & _ & Hline).
      apply text_url_spec in Hline as [-> Hs].
      split_and!; [done|by apply str_startswith_nonempty|apply strip_idempotent].
  - destruct f as [| |lines]; [done|done|].
    unfold Loader.load_urls_from_file.
    destruct (PyStrMore.str_endswith ".csv" (PyStrMore.lower file_path)).
    + destruct (csv_reader lines) as [rows|]; [apply omap_length_le|simpl; lia].
    + destruct (csv_reader lines); apply omap_length_le.
Qed.

(** X22. Loading a plain list of links is idempotent: for a file that is
    not a CSV file, the links loaded from a file whose lines are the
    links loaded before are those same links, in the same order. *)
Theorem loaded_links_load_unchanged (file_path : string) (lines : list string)
    (csv_reader : list string → result (list (list string)))
    (Htext : PyStrMore.str_endswith ".csv" (PyStrMore.lower file_path) = false) :
  Loader.load_urls_from_file file_path
    (Loader.Lines
       (Loader.load_urls_from_file file_path (Loader.Lines lines) csv_reader))
    csv_reader
  = Loader.load_urls_from_file file_path (Loader.Lines lines) csv_reader.
Proof.
  unfold Loader.load_urls_from_file. rewrite Htext.
  apply omap_fixed. apply text_url_fixed.
Qed.

Lemma loaded_links_load_unchanged_witness :
  Loader.load_urls_from_file "links.txt"
    (Loader.Lines
       (Loader.load_urls_from_file "links.txt"
          (Loader.Lines ["  https://a/b  "; "# comment"; ""; "http://c"])
          (λ _, Raise)))
    (λ _, Raise)
  = Loader.load_urls_from_file "links.txt"
      (Loader.Lines ["  https://a/b  "; "# comment"; ""; "http://c"])
      (λ _, Raise).
Proof.
  apply (loaded_links_load_unchanged "links.txt").
  by vm_compute.
Defined.

(** ** One download (lines 507-578) *)

Section TempNames.

Import Assemble.

Lemma cut_suffix_inv : ∀ r seen r',
  cut_suffix r seen = Some r' → ∃ before, r = before ++ r' ∧ r' ≠ [].
Proof.
  induction r as [|c r IH]; intros seen r' H; simpl in H; [done|].
  destruct (Ascii.eqb c "/"); [done|].
  destruct (Ascii.eqb c ".").
  - destruct r as [|d r]; [done|].
    destruct (Ascii.eqb d "/" || negb seen); [done|].
    injection H as <-. by exists [c].
  - destruct (IH _ _ H) as (before & -> & Hne). by exists (c :: before).
Qed.

Lemma with_suffix_head c p suffix :
  ∃ rest, with_suffix (String c p) suffix = String c rest.
Proof.
  unfold with_suffix.
  destruct (cut_suffix (rev (chars (String c p))) false) as [r|] eqn:Hcut.
  - apply cut_suffix_inv in Hcut as (before & Hrev & Hne).
    apply (f_equal (@rev ascii)) in Hrev. rewrite rev_involutive, rev_app_distr in Hrev.
    destruct (rev r) as [|c' rr] eqn:Hr.
    { destruct r; [done|]. simpl in Hr. by destruct (rev r). }
    simpl in Hrev. injection Hrev as <- _. simpl. by eexists.
  - simpl. by eexists.
Qed.

Lemma temp_file_head n p :
  is_temp_file n p → ∃ rest, p = String "t" rest.
Proof.
  intros (idx & _ & [->| ->]).
  - unfold temp_path. simpl. by eexists.
  - unfold temp_path. simpl. apply with_suffix_head.
Qed.

Lemma apart_from_temp_head c dir :
  c ≠ "t"%char → Download.apart_from_temp (String c dir).
Proof.
  intros Hc n name (rest & H)%temp_file_head.
  unfold Download.child in H. simpl in H. injection H as E _. by apply Hc.
Qed.

End TempNames.

Section OneDownload.

Import Assemble.

Lemma choose_output_path_spec (e : Assemble.env)
    output_dir sanitized_title st :
  ∃ r,
    Download.choose_output_path e output_dir sanitized_title st = (r, st)
    ∧ match r with
      | Raise => True
      | Ok output_path =>
          files st !! output_path = None
          ∧ (output_path
             = pdf_filename (Download.child output_dir sanitized_title)
             ∨ ∃ k, 1 ≤ k
                    ∧ output_path
                      = pdf_filename_n
                          (Download.child output_dir sanitized_title) k)
      end.
Proof.
  unfold Download.choose_output_path.
  destruct (free_output_path_ends (dom (files st))
              (λ p, is_raise (stat e p))
              (Download.child output_dir sanitized_title)
              (size (files st) + 2)) as (r & Hrun & _).
  { rewrite size_dom. lia. }
  rewrite Hrun. exists r. split; [done|].
  destruct r as [name|]; [|done].
  apply while_exists_shape in Hrun as [Hfree Hshape].
  apply path_exists_false in Hfree.
  split; [by apply not_elem_of_dom|done].
Qed.

(** A path of [output_dir]: the directory, a slash, a name. *)
Lemma output_path_child output_dir sanitized_title output_path :
  legal_name sanitized_title →
  output_path = pdf_filename (Download.child output_dir sanitized_title)
  ∨ (∃ k, 1 ≤ k
          ∧ output_path
            = pdf_filename_n (Download.child output_dir sanitized_title) k) →
  ∃ name, output_path = Download.child output_dir name ∧ legal_name name.
Proof.
  unfold pdf_filename, pdf_filename_n, Download.child.
  intros Hlegal [->|(k & _ & ->)].
  - exists (sanitized_title ++ ".pdf")%string. split.
    + apply chars_inj. rewrite !chars_app. by rewrite <- !app_assoc.
    + apply legal_name_app; [done|]. unfold legal_name. by repeat constructor.
  - exists (sanitized_title ++ "_" ++ pretty k ++ ".pdf")%string. split.
    + apply chars_inj. rewrite !chars_app. by rewrite <- !app_assoc.
    + repeat apply legal_name_app; [done| |apply pretty_nat_legal|];
        unfold legal_name; by repeat constructor.
Qed.

Lemma log_all_run evs : ∀ st,
  Download.log_all evs st
  = (Ok tt, {| files := files st; log := log st ++ evs |}).
Proof.
  unfold Download.log_all.
  induction evs as [|ev evs IH]; intros st.
  { simpl. unfold ret. rewrite app_nil_r. by destruct st. }
  cbn [foldM]. unfold mbind, M_bind, bind. unfold logger at 1.
  rewrite IH. cbn [files log]. by rewrite <- app_assoc.
Qed.

Lemma download_to_post (e : Download.env) (output_dir : string) st pre :
  ∃ ok msg st',
    try_exceptM (Download.download_to e output_dir)
      (logger ErrorDownloading;; ret (false, Download.ErrorRaised))
      {| files := files st; log := log st ++ pre |}
    = (Ok (ok, msg), st')
    ∧ download_post output_dir e st ok msg st'.
Proof.
  unfold try_exceptM, Download.download_to.
  unfold mbind, M_bind, bind, download_post.
  unfold lift at 1. destruct (Download.new_page e) as [[]|].
  2: { eexists _, _, _. unfold logger, ret. by split_and!. }
  unfold logger at 1. cbv beta iota. cbn [files log].
  unfold lift at 1. destruct (Download.goto e) as [[]|].
  2: { eexists _, _, _. unfold logger, ret. by split_and!. }
  rewrite log_all_run. cbn [files log].
  unfold lift at 1.
  destruct (Wait.wait_for_pdf_pages (Download.waiting e)
              Wait.default_max_retries).1 as [[]|].
  3: { eexists _, _, _. unfold logger, ret. by split_and!. }
  2: { eexists _, _, _. unfold ret. split_and!; [done|done|]. cbn beta iota.
       split_and!; [done|done|].
       cbn [log]. eexists. split; cycle 1.
       { rewrite <- !app_assoc. reflexivity. }
       by destruct pre. }
  cbn [negb]. unfold lift at 1.
  destruct (Title.get_document_title (Download.document_title e)) as [title|].
  2: { eexists _, _, _. unfold logger, ret. by split_and!. }
  unfold logger at 1. cbv beta iota. cbn [files log].
  rewrite log_all_run. cbn [files log].
  destruct (Pages.capture_blob_images (Download.pages e)) as [|img imgs] eqn:Himgs.
  { eexists _, _, _. unfold ret. split_and!; [done|done|]. cbn beta iota.
       split_and!; [done|done|].
    cbn [log]. eexists. split; cycle 1.
    { rewrite <- !app_assoc. reflexivity. }
    by destruct pre. }
  match goal with
  | |- context [Download.choose_output_path _ _ _ ?s] =>
      remember s as st0 eqn:Hst0
  end.
  assert (files st0 = files st) as Hfiles0 by (by rewrite Hst0).
  clear Hst0.
  destruct (choose_output_path_spec (Download.pdf e) output_dir
              (sanitize_filename title) st0) as (r & Hout & Hr).
  rewrite Hout. destruct r as [out|].
  2: { eexists _, _, _. unfold logger, ret. split_and!; [done| |done].
       intros p _ _. simpl. by rewrite Hfiles0. }
  destruct Hr as [Hfree Hshape]. rewrite Hfiles0 in Hfree.
  destruct (compile_pdf_post (Download.pdf e) (img :: imgs) out st0)
    as (b & st' & Hrun & Hframe & _ & Htrue).
  rewrite Hrun.
  assert (∀ p, is_Some (files st !! p) → (∀ n, ¬ is_temp_file n p) →
               files st' !! p = files st !! p) as Hkeep.
  { intros p [x Hp] Htemp. rewrite <- Hfiles0. apply Hframe; [|apply Htemp].
    intros ->. by rewrite Hfree in Hp. }
  destruct b; cbn [negb]; unfold logger, ret.
  - eexists _, _, _. split_and!; [done|done|].
    cbn beta iota.
    split_and!;
      [done|done
      |by eapply output_path_child; [apply sanitize_filename_legal|]|].
    intros Hapart. destruct (Htrue eq_refl) as (_ & _ & Hrest).
    destruct Hrest as (_ & contents & pdf & Hlen & Hpdf & Hfile).
    { apply output_path_child in Hshape as (name & -> & _);
        [apply Hapart|apply sanitize_filename_legal]. }
    exists contents, pdf. split_and!; [|done|done].
    intros ->. done.
  - eexists _, _, _. by split_and!.
Qed.

Lemma download_pdf_post (e : Download.env) (output_dir : option string) st :
  ∃ ok msg st',
    Download.download_pdf e output_dir st = (Ok (ok, msg), st')
    ∧ download_post (Download.dir_of output_dir) e st ok msg st'.
Proof.
  pose proof (download_to_post e (Download.dir_of output_dir) st
                [InfoProcessing]) as Hto.
  unfold Download.download_pdf, Download.download_body.
  unfold try_exceptM in *. unfold mbind, M_bind, bind in *.
  unfold logger at 1. cbv beta iota.
  destruct output_dir as [d|]; [|exact Hto].
  unfold lift at 1. destruct (Download.mkdir_output e) as [[]|]; [exact Hto|].
  eexists _, _, _. unfold logger, ret, download_post. by split_and!.
Qed.

(** X23. [download_pdf] always answers, and its flag agrees with its
    message. Whatever the browser, the page and the file system do, the
    call returns a pair and raises nothing; the flag is [True] exactly
    when the message is [Saved to ...]; and when the message is
    [Could not detect PDF pages] or [Failed to capture PDF pages], the
    call has written to the log and to no other file: every path other
    than the log file holds what it held, and the records logged before
    the call are the first of those logged after it. *)
Theorem download_pdf_reports_outcome (e : Download.env)
    (output_dir : option string) (st : Assemble.state) :
  ∃ ok msg st',
    Download.download_pdf e output_dir st = (Ok (ok, msg), st')
    ∧ (ok = true ↔ ∃ output_path, msg = Download.SavedTo output_path)
    ∧ (msg = Download.CouldNotDetect ∨ msg = Download.FailedToCapture →
       (∀ p, p ≠ Assemble.log_file →
             Assemble.files st' !! p = Assemble.files st !! p)
       ∧ ∃ records,
           records ≠ []
           ∧ Assemble.log st' = Assemble.log st ++ records).
Proof.
  destruct (download_pdf_post e output_dir st)
    as (ok & msg & st' & Hrun & _ & Hmsg).
  exists ok, msg, st'. split; [done|].
  destruct msg; simpl in Hmsg.
  - destruct Hmsg as (-> & Hfiles & Hlog).
    split; [split; [done|by intros [? [=]]]|].
    intros _. split; [|done]. intros p _. by rewrite Hfiles.
  - destruct Hmsg as (-> & Hfiles & Hlog).
    split; [split; [done|by intros [? [=]]]|].
    intros _. split; [|done]. intros p _. by rewrite Hfiles.
  - subst ok.
    split; [split; [done|by intros [? [=]]]|by intros [[=]|[=]]].
  - destruct Hmsg as [-> _].
    split; [split; [by eexists|done]|by intros [[=]|[=]]].
  - subst ok.
    split; [split; [done|by intros [? [=]]]|by intros [[=]|[=]]].
Qed.

(** X24. A saved document is a new file of the output directory. When
    [download_pdf] answers [Saved to p] and the output directory holds
    none of the temporary files of [compile_pdf], then [p] did not exist
    before the call, [p] is the output directory (the given one, or
    [downloads]), a slash and a name without any illegal character, so
    without a further slash, and after the call [p] holds the document
    that [img2pdf.convert] made of a non-empty list of page files. *)
Theorem saved_document_is_new_file (e : Download.env)
    (output_dir : option string) (st st' : Assemble.state)
    (ok : bool) (output_path : string)
    (Hdir : Download.apart_from_temp (Download.dir_of output_dir))
    (Hrun : Download.download_pdf e output_dir st
            = (Ok (ok, Download.SavedTo output_path), st')) :
  Assemble.files st !! output_path = None
  ∧ (∃ name, output_path = Download.child (Download.dir_of output_dir) name
             ∧ legal_name name)
  ∧ ∃ contents pdf,
      contents ≠ []
      ∧ Assemble.img2pdf_convert (Download.pdf e) contents = Ok pdf
      ∧ Assemble.files st' !! output_path = Some pdf.
Proof.
  destruct (download_pdf_post e output_dir st)
    as (ok1 & msg & st1 & Hrun1 & _ & Hmsg).
  rewrite Hrun in Hrun1. injection Hrun1 as <- <- <-.
  destruct Hmsg as (_ & Hfree & Hname & Hpdf).
  split_and!; [done|done|by apply Hpdf].
Qed.

Lemma saved_document_is_new_file_witness :
  Assemble.files Download.disk_with_report !! "downloads/Report_ 1_1.pdf"
  = None
  ∧ (∃ name,
       "downloads/Report_ 1_1.pdf"
       = Download.child (Download.dir_of None) name
       ∧ legal_name name)
  ∧ ∃ contents pdf,
      contents ≠ []
      ∧ Assemble.img2pdf_convert (Download.pdf Download.report) contents
        = Ok pdf
      ∧ Assemble.files
          (Download.download_pdf Download.report None
             Download.disk_with_report).2
        !! "downloads/Report_ 1_1.pdf" = Some pdf.
Proof.
  apply (saved_document_is_new_file Download.report None
           Download.disk_with_report _ true).
  - by apply apart_from_temp_head.
  - by vm_compute.
Defined.

(** X25. [download_pdf] overwrites nothing. Whatever the outcome of the
    call (saved, failed or an error caught), every file that existed
    before the call and is neither one of the temporary [page_NNNN]
    files of [compile_pdf] nor the log file, which the call appends
    records to, holds after the call what it held before; in particular
    an earlier download of the same title is kept. *)
Theorem download_pdf_overwrites_nothing (e : Download.env)
    (output_dir : option string) (st : Assemble.state) (p : string)
    (Hexists : is_Some (Assemble.files st !! p))
    (Hlog : p ≠ Assemble.log_file)
    (Htemp : ∀ n, ¬ Assemble.is_temp_file n p) :
  Assemble.files (Download.download_pdf e output_dir st).2 !! p
  = Assemble.files st !! p.
Proof.
  destruct (download_pdf_post e output_dir st)
    as (ok & msg & st' & Hrun & Hkeep & _).
  rewrite Hrun. simpl. by apply Hkeep.
Qed.

Lemma download_pdf_overwrites_nothing_witness :
  Assemble.files
    (Download.download_pdf Download.report None Download.disk_with_report).2
    !! "downloads/Report_ 1.pdf"
  = Some Scenario.png.
Proof.
  rewrite (download_pdf_overwrites_nothing Download.report None
             Download.disk_with_report "downloads/Report_ 1.pdf").
  - reflexivity.
  - by eexists.
  - done.
  - intros n (rest & H)%temp_file_head. discriminate H.
Defined.

End OneDownload.

(** ** The batch (lines 580-688) *)

Section BatchLoops.

Import Assemble Batch.

Lemma classify_acc : ∀ urls folder_urls file_urls,
  foldl (λ lists url,
           let '(folder_urls, file_urls) := lists in
           if is_folder_url url then (folder_urls ++ [url], file_urls)
           else if is_file_url url then (folder_urls, file_urls ++ [url])
           else (folder_urls, file_urls ++ [url]))
        (folder_urls, file_urls) urls
  = (folder_urls ++ filter (λ u, is_folder_url u = true) urls,
     file_urls ++ filter (λ u, is_folder_url u = false) urls).
Proof.
  induction urls as [|u urls IH]; intros fo fi.
  { by rewrite !filter_nil, !app_nil_r. }
  cbn [foldl]. destruct (is_folder_url u) eqn:Hu.
  - rewrite IH, (filter_cons_True _ u), (filter_cons_False _ u);
      [|by rewrite Hu|done]. by rewrite <- app_assoc.
  - assert ((if is_file_url u then (fo, fi ++ [u]) else (fo, fi ++ [u]))
            = (fo, fi ++ [u])) as -> by (by destruct (is_file_url u)).
    rewrite IH, (filter_cons_False _ u), (filter_cons_True _ u);
      [|done|by rewrite Hu]. by rewrite <- app_assoc.
Qed.

Lemma classify_spec urls :
  classify urls
  = (filter (λ u, is_folder_url u = true) urls,
     filter (λ u, is_folder_url u = false) urls).
Proof. unfold classify. by rewrite classify_acc. Qed.

Lemma saved_paths_snoc ds d :
  saved_paths (ds ++ [d])
  = saved_paths ds ++ match saved_path d with
                      | Some p => [p]
                      | None => []
                      end.
Proof.
  unfold saved_paths. rewrite omap_app. f_equal.
Qed.

Lemma kept_refl st : kept st st.
Proof. by intros p _ _. Qed.

Lemma sound_start st : sound st no_results st.
Proof.
  unfold sound, no_results. simpl.
  split_and!; [done|done|constructor|constructor|].
  intros p Hp. by apply elem_of_nil in Hp.
Qed.

(** One download and its entry. *)
Lemma tally_sound (e : Download.env) (output_dir : option string)
    (file_url : string) st0 r st :
  Download.apart_from_temp (Download.dir_of output_dir) →
  sound st0 r st → kept st0 st →
  ∃ ok msg st1,
    Download.download_pdf e output_dir st = (Ok (ok, msg), st1)
    ∧ sound st0 (tally r file_url ok msg) st1
    ∧ kept st0 st1.
Proof.
  intros Hdir (Hsum & Hcount & Hagree & Hnd & Hsaved) Hkept.
  destruct (download_pdf_post e output_dir st)
    as (ok & msg & st1 & Hrun & Hstep & Hmsg).
  exists ok, msg, st1. split; [done|].
  assert (kept st0 st1) as Hkept1.
  { intros p Hp Htemp. rewrite <- (Hkept p Hp Htemp).
    apply Hstep; [|done]. by rewrite (Hkept p Hp Htemp). }
  split; [|done].
  assert (status {| url := file_url;
                    status := if ok then SUCCESS else FAILED;
                    message := Answer msg |} = SUCCESS
          ↔ is_Some (saved_path {| url := file_url;
                                   status := if ok then SUCCESS else FAILED;
                                   message := Answer msg |})) as Hnew.
  { unfold saved_path. simpl. destruct msg; simpl in Hmsg.
    - destruct Hmsg as [-> _]. split; [done|by intros [? [=]]].
    - destruct Hmsg as [-> _]. split; [done|by intros [? [=]]].
    - subst ok. split; [done|by intros [? [=]]].
    - destruct Hmsg as [-> _]. split; [by eexists|done].
    - subst ok. split; [done|by intros [? [=]]]. }
  unfold sound, tally. cbn [success failed details].
  rewrite length_app, filter_app, length_app, saved_paths_snoc.
  cbn [length]. split_and!.
  - destruct ok; lia.
  - destruct ok.
    + rewrite filter_cons_True by done. simpl. lia.
    + rewrite filter_cons_False by done. simpl. lia.
  - apply Forall_app. split; [done|]. by constructor.
  - unfold saved_path at 1. cbn [message].
    destruct msg; rewrite ?app_nil_r; try done.
    destruct Hmsg as (_ & Hfree & _).
    apply NoDup_app. split_and!; [done| |apply NoDup_singleton].
    intros p Hp ->%list_elem_of_singleton.
    destruct (Hsaved _ Hp) as (_ & [x Hx] & _). by rewrite Hfree in Hx.
  - unfold saved_path at 1. cbn [message].
    assert (∀ p, p ∈ saved_paths (details r) →
                 files st0 !! p = None
                 ∧ is_Some (files st1 !! p)
                 ∧ ∀ n, ¬ is_temp_file n p) as Hold.
    { intros p Hp. destruct (Hsaved p Hp) as (H0 & H1 & Ht).
      split_and!; [done| |done]. by rewrite Hstep. }
    destruct msg; rewrite ?app_nil_r; try done.
    destruct Hmsg as (_ & Hfree & (name & -> & _) & Hpdf).
    intros p [Hp| ->%list_elem_of_singleton]%elem_of_app; [by apply Hold|].
    destruct (Hpdf Hdir) as (contents & pdf & _ & _ & Hfile).
    split_and!.
    + destruct (files st0 !! Download.child (Download.dir_of output_dir) name)
        as [x|] eqn:Hx; [|done].
      rewrite <- (Hkept _ (mk_is_Some _ _ Hx) (λ n, Hdir n name)) in Hx.
      by rewrite Hfree in Hx.
    + by rewrite Hfile.
    + intros n. apply Hdir.
Qed.

Lemma download_each_spec (document : nat → string → Download.env)
    (output_dir : option string) st0 :
  Download.apart_from_temp (Download.dir_of output_dir) →
  ∀ file_urls file_idx r st,
    sound st0 r st → kept st0 st →
    ∃ r' st' ds,
      download_each document output_dir file_idx file_urls r st = (Ok r', st')
      ∧ sound st0 r' st' ∧ kept st0 st'
      ∧ details r' = details r ++ ds
      ∧ url <$> ds = file_urls
      ∧ Forall (λ d, message d ≠ NoFilesFound) ds.
Proof.
  intros Hdir. induction file_urls as [|u urls IH]; intros idx r st Hs Hk.
  { exists r, st, []. rewrite app_nil_r. by split_and!. }
  cbn [download_each]. unfold mbind, M_bind, bind.
  destruct (tally_sound (document idx u) output_dir u st0 r st Hdir Hs Hk)
    as (ok & msg & st1 & Hrun & Hs1 & Hk1).
  rewrite Hrun. cbn [fst snd].
  destruct (IH (S idx) _ _ Hs1 Hk1)
    as (r' & st' & ds & Hrest & Hs' & Hk' & Hds & Hurls & Hmsgs).
  exists r', st', ({| url := u; status := if ok then SUCCESS else FAILED;
                     message := Answer msg |} :: ds).
  split_and!; [done|done|done| | |].
  - rewrite Hds. unfold tally. cbn [details]. by rewrite <- app_assoc.
  - by rewrite fmap_cons, Hurls.
  - by constructor.
Qed.

Lemma join_apart name :
  Download.apart_from_temp (join Download.downloads_dir name).
Proof.
  unfold join. destruct (String.eqb name "").
  - by apply apart_from_temp_head.
  - unfold Download.child, Download.downloads_dir. simpl.
    by apply apart_from_temp_head.
Qed.

Lemma extracted_are_file_urls iter (e : Folder.env) u :
  u ∈ Folder.extract_files_from_folder iter e →
  ∃ file_id, u = file_url_of file_id.
Proof.
  unfold Folder.extract_files_from_folder.
  destruct (Folder.open_page e) as [[]|]; simpl; [|by intros ?%elem_of_nil].
  destruct (Folder.close_page e) as [[]|]; simpl; [|by intros ?%elem_of_nil].
  intros (file_id & -> & _)%list_elem_of_fmap. by eexists.
Qed.

Lemma process_folders_spec iter (e : Batch.env) st0 :
  ∀ folder_urls folder_idx r st,
    sound st0 r st → kept st0 st →
    ∃ res st',
      process_folders iter e folder_idx folder_urls r st = (res, st')
      ∧ kept st0 st'
      ∧ match res with
        | Raise => True
        | Ok r' =>
            sound st0 r' st'
            ∧ ∃ ds, details r' = details r ++ ds
                    ∧ Forall (from_folder folder_urls) ds
        end.
Proof.
  induction folder_urls as [|u urls IH]; intros idx r st Hs Hk.
  { exists (Ok r), st. split_and!; [done|done|done|].
    exists []. by rewrite app_nil_r. }
  cbn [process_folders].
  destruct (Folder.extract_files_from_folder iter (folder e idx u))
    as [|f fs] eqn:Hfiles.
  - assert (sound st0 (tally_empty_folder r u) st) as Hs1.
    { destruct Hs as (Hsum & Hcount & Hagree & Hnd & Hsaved).
      unfold sound, tally_empty_folder. cbn [success failed details].
      rewrite length_app, filter_app, length_app, saved_paths_snoc.
      rewrite filter_cons_False by done. unfold saved_path at 1 3.
      cbn [message length]. rewrite !app_nil_r, filter_nil.
      split_and!; [simpl; lia|simpl; lia| |done|done].
      apply Forall_app. split; [done|]. constructor; [|constructor].
      unfold saved_path. simpl. split; [done|by intros [? [=]]]. }
    destruct (IH (S idx) _ _ Hs1 Hk) as (res & st' & Hrun & Hk' & Hres).
    exists res, st'. split_and!; [done|done|].
    destruct res as [r'|]; [|done].
    destruct Hres as (Hs' & ds & Hds & Hfrom). split; [done|].
    exists ({| url := u; status := FAILED; message := NoFilesFound |} :: ds).
    split.
    + rewrite Hds. unfold tally_empty_folder. cbn [details].
      by rewrite <- app_assoc.
    + constructor.
      * left. split_and!; [done|done|]. simpl. by left.
      * eapply Forall_impl; [exact Hfrom|].
        intros d [(? & ? & ?)|?]; [left|by right].
        split_and!; [done|done|by right].
  - unfold mbind, M_bind, bind. unfold lift at 1.
    destruct (mkdir_folder e idx) as [[]|].
    2: { exists Raise, st. by split_and!. }
    destruct (download_each_spec (folder_file e idx)
                (Some (join Download.downloads_dir
                         (Title.folder_name_of (folder_title e idx u))))
                st0 (join_apart _) (f :: fs) 0 r st Hs Hk)
      as (r1 & st1 & ds1 & Hrun1 & Hs1 & Hk1 & Hds1 & Hurls1 & Hmsgs1).
    rewrite Hrun1.
    destruct (IH (S idx) _ _ Hs1 Hk1) as (res & st' & Hrun & Hk' & Hres).
    exists res, st'. split_and!; [done|done|].
    destruct res as [r'|]; [|done].
    destruct Hres as (Hs' & ds & Hds & Hfrom). split; [done|].
    exists (ds1 ++ ds). split.
    + by rewrite Hds, Hds1, <- app_assoc.
    + apply Forall_app. split.
      * apply Forall_forall. intros d Hd. right. split.
        { by apply (proj1 (Forall_forall _ _) Hmsgs1). }
        apply (extracted_are_file_urls iter (folder e idx u)).
        rewrite Hfiles, <- Hurls1. by apply list_elem_of_fmap_2.
      * eapply Forall_impl; [exact Hfrom|].
        intros d [(? & ? & ?)|?]; [left|by right].
        split_and!; [done|done|by right].
Qed.

(** The whole batch. *)
Lemma download_multiple_spec iter (e : Batch.env) urls st :
  ∃ res st',
    download_multiple iter e urls st = (res, st')
    ∧ kept st st'
    ∧ match res with
      | Raise => True
      | Ok None => urls = [] ∧ st' = st
      | Ok (Some r) =>
          urls ≠ []
          ∧ sound st r st'
          ∧ ∃ folder_details file_details,
              details r = folder_details ++ file_details
              ∧ Forall (from_folder (filter (λ u, is_folder_url u = true) urls))
                  folder_details
              ∧ url <$> file_details
                = filter (λ u, is_folder_url u = false) urls
              ∧ Forall (λ d, message d ≠ NoFilesFound) file_details
      end.
Proof.
  unfold download_multiple. destruct urls as [|u0 urls0].
  { exists (Ok None), st. split_and!; [done|apply kept_refl|done|done]. }
  remember (u0 :: urls0) as urls eqn:Hurls.
  rewrite classify_spec. unfold mbind, M_bind, bind.
  unfold lift at 1. destruct (launch e) as [[]|].
  2: { exists Raise, st. split_and!; [done|apply kept_refl|done]. }
  unfold finallyM.
  destruct (process_folders_spec iter e st
              (filter (λ u, is_folder_url u = true) urls) 0 no_results st
              (sound_start st) (kept_refl st))
    as (res & st1 & Hrun1 & Hk1 & Hres).
  rewrite Hrun1. destruct res as [r1|].
  2: { unfold lift. destruct (close_browser e) as [[]|];
         exists Raise, st1; by split_and!. }
  destruct Hres as (Hs1 & ds1 & Hds1 & Hfrom).
  destruct (download_each_spec (file e) None st
              (apart_from_temp_head "d" "ownloads" ltac:(done))
              (filter (λ u, is_folder_url u = false) urls) 0 r1 st1 Hs1 Hk1)
    as (r2 & st2 & ds2 & Hrun2 & Hs2 & Hk2 & Hds2 & Hurls2 & Hmsgs2).
  rewrite Hrun2. unfold lift.
  destruct (close_browser e) as [[]|].
  2: { exists Raise, st2. by split_and!. }
  exists (Ok (Some r2)), st2. unfold ret. split_and!; [done|done| |done|].
  - by rewrite Hurls.
  - exists ds1, ds2. split_and!; [|done|done|done].
    rewrite Hds2, Hds1. done.
Qed.

Lemma status_counts (ds : list detail) :
  length ds
  = length (filter (λ d, status d = SUCCESS) ds)
    + length (filter (λ d, status d = FAILED) ds).
Proof.
  induction ds as [|d ds IH]; [done|].
  destruct (status d) eqn:Hd.
  - rewrite (filter_cons_True _ d), (filter_cons_False _ d);
      [|by rewrite Hd|done]. simpl. lia.
  - rewrite (filter_cons_False _ d), (filter_cons_True _ d);
      [|done|by rewrite Hd]. simpl. lia.
Qed.

Lemma saved_path_spec (d : detail) p :
  saved_path d = Some p ↔ message d = Answer (Download.SavedTo p).
Proof.
  unfold saved_path. destruct (message d) as [|[]]; split; congruence.
Qed.

(** X26. The summary of a batch adds up. When [download_multiple] gets
    to its summary, the two counters sum to the number of entries of
    [details]; [success] is the number of entries marked [SUCCESS] and
    [failed] the number of entries marked [FAILED]; and an entry is
    marked [SUCCESS] exactly when its message is [Saved to ...]. *)
Theorem batch_summary_adds_up (iter : gset string → list string)
    (e : Batch.env) (urls : list string) (st st' : Assemble.state)
    (r : Batch.results)
    (Hrun : Batch.download_multiple iter e urls st = (Ok (Some r), st')) :
  Batch.success r + Batch.failed r = length (Batch.details r)
  ∧ Batch.success r
    = length (filter (λ d, Batch.status d = Batch.SUCCESS) (Batch.details r))
  ∧ Batch.failed r
    = length (filter (λ d, Batch.status d = Batch.FAILED) (Batch.details r))
  ∧ Forall (λ d, Batch.status d = Batch.SUCCESS
                 ↔ ∃ output_path,
                     Batch.message d
                     = Batch.Answer (Download.SavedTo output_path))
      (Batch.details r).
Proof.
  destruct (download_multiple_spec iter e urls st)
    as (res & st1 & Hrun1 & _ & Hres).
  rewrite Hrun in Hrun1. injection Hrun1 as <- <-.
  destruct Hres as (_ & (Hsum & Hcount & Hagree & _) & _).
  pose proof (status_counts (details r)) as Hall.
  split_and!; [done|done|lia|].
  eapply Forall_impl; [exact Hagree|]. intros d Hd. rewrite Hd.
  split.
  - intros [p Hp]. exists p. by apply saved_path_spec.
  - intros [p Hp]. exists p. by apply saved_path_spec.
Qed.

Lemma batch_summary_adds_up_witness :
  Batch.success Batch.mixed_results + Batch.failed Batch.mixed_results
  = length (Batch.details Batch.mixed_results)
  ∧ Batch.success Batch.mixed_results
    = length (filter (λ d, Batch.status d = Batch.SUCCESS)
                (Batch.details Batch.mixed_results))
  ∧ Batch.failed Batch.mixed_results
    = length (filter (λ d, Batch.status d = Batch.FAILED)
                (Batch.details Batch.mixed_results))
  ∧ Forall (λ d, Batch.status d = Batch.SUCCESS
                 ↔ ∃ output_path,
                     Batch.message d
                     = Batch.Answer (Download.SavedTo output_path))
      (Batch.details Batch.mixed_results).
Proof.
  apply (batch_summary_adds_up elements Batch.mixed Batch.mixed_urls
           Download.disk_with_report
           (Batch.download_multiple elements Batch.mixed Batch.mixed_urls
              Download.disk_with_report).2).
  by vm_compute.
Defined.

(** X27. Folders first, then the other URLs in their order. The entries
    of [details] are those of the folder phase followed by one entry for
    each URL that is not a folder URL, in the order of the input list,
    whatever the position of the folder URLs in that list. An entry of
    the folder phase is either a folder URL of the input that gave no
    file, marked [FAILED] with [No files found in folder], or the URL
    built from a file id with the answer of its download; none of the
    entries of the second phase carries [No files found in folder]. *)
Theorem standalone_urls_come_last (iter : gset string → list string)
    (e : Batch.env) (urls : list string) (st st' : Assemble.state)
    (r : Batch.results)
    (Hrun : Batch.download_multiple iter e urls st = (Ok (Some r), st')) :
  ∃ folder_details file_details,
    Batch.details r = folder_details ++ file_details
    ∧ Forall (Batch.from_folder (filter (λ u, is_folder_url u = true) urls))
        folder_details
    ∧ Batch.url <$> file_details
      = filter (λ u, is_folder_url u = false) urls
    ∧ Forall (λ d, Batch.message d ≠ Batch.NoFilesFound) file_details.
Proof.
  destruct (download_multiple_spec iter e urls st)
    as (res & st1 & Hrun1 & _ & Hres).
  rewrite Hrun in Hrun1. injection Hrun1 as <- <-.
  by destruct Hres as (_ & _ & Hdetails).
Qed.

Lemma standalone_urls_come_last_witness :
  ∃ folder_details file_details,
    Batch.details Batch.mixed_results = folder_details ++ file_details
    ∧ Forall (Batch.from_folder
                (filter (λ u, is_folder_url u = true) Batch.mixed_urls))
        folder_details
    ∧ Batch.url <$> file_details
      = filter (λ u, is_folder_url u = false) Batch.mixed_urls
    ∧ Forall (λ d, Batch.message d ≠ Batch.NoFilesFound) file_details.
Proof.
  apply (standalone_urls_come_last elements Batch.mixed Batch.mixed_urls
           Download.disk_with_report
           (Batch.download_multiple elements Batch.mixed Batch.mixed_urls
              Download.disk_with_report).2).
  by vm_compute.
Defined.

(** X28. No download of a batch overwrites another. The paths reported
    as saved in [details] are pairwise distinct; none of them existed
    before the batch; and each of them is a file when the batch ends.
    In particular two documents of the same title, in the same folder or
    among the standalone URLs, end up in two files. *)
Theorem batch_saves_distinct_new_files (iter : gset string → list string)
    (e : Batch.env) (urls : list string) (st st' : Assemble.state)
    (r : Batch.results)
    (Hrun : Batch.download_multiple iter e urls st = (Ok (Some r), st')) :
  NoDup (Batch.saved_paths (Batch.details r))
  ∧ ∀ output_path, output_path ∈ Batch.saved_paths (Batch.details r) →
      Assemble.files st !! output_path = None
      ∧ is_Some (Assemble.files st' !! output_path).
Proof.
  destruct (download_multiple_spec iter e urls st)
    as (res & st1 & Hrun1 & _ & Hres).
  rewrite Hrun in Hrun1. injection Hrun1 as <- <-.
  destruct Hres as (_ & (_ & _ & _ & Hnd & Hsaved) & _).
  split; [done|]. intros p Hp. by destruct (Hsaved p Hp) as (? & ? & _).
Qed.

Lemma batch_saves_distinct_new_files_witness :
  NoDup (Batch.saved_paths (Batch.details Batch.mixed_results))
  ∧ ∀ output_path,
      output_path ∈ Batch.saved_paths (Batch.details Batch.mixed_results) →
      Assemble.files Download.disk_with_report !! output_path = None
      ∧ is_Some
          (Assemble.files
             (Batch.download_multiple elements Batch.mixed Batch.mixed_urls
                Download.disk_with_report).2 !! output_path).
Proof.
  apply (batch_saves_distinct_new_files elements Batch.mixed
           Batch.mixed_urls).
  by vm_compute.
Defined.

(** X29. A batch overwrites nothing. However [download_multiple] ends,
    with its summary or with an exception of the browser or of
    [mkdir], every file that existed before the batch and is neither one
    of the temporary [page_NNNN] files of [compile_pdf] nor the log
    file, which the batch appends records to, holds at the end what it
    held before. *)
Theorem batch_overwrites_nothing (iter : gset string → list string)
    (e : Batch.env) (urls : list string) (st : Assemble.state) (p : string)
    (Hexists : is_Some (Assemble.files st !! p))
    (Hlog : p ≠ Assemble.log_file)
    (Htemp : ∀ n, ¬ Assemble.is_temp_file n p) :
  Assemble.files (Batch.download_multiple iter e urls st).2 !! p
  = Assemble.files st !! p.
Proof.
  destruct (download_multiple_spec iter e urls st)
    as (res & st1 & Hrun1 & Hkept & _).
  rewrite Hrun1. simpl. by apply Hkept.
Qed.

Lemma batch_overwrites_nothing_witness :
  Assemble.files
    (Batch.download_multiple elements Batch.mixed Batch.mixed_urls
       Download.disk_with_report).2 !! "downloads/Report_ 1.pdf"
  = Some Scenario.png.
Proof.
  rewrite (batch_overwrites_nothing elements Batch.mixed Batch.mixed_urls
             Download.disk_with_report "downloads/Report_ 1.pdf").
  - reflexivity.
  - by eexists.
  - done.
  - intros n (rest & H)%temp_file_head. discriminate H.
Defined.

End BatchLoops.

Section BatchErrors.

Import Assemble Batch.

Lemma download_each_total (document : nat → string → Download.env)
    (output_dir : option string) :
  ∀ file_urls file_idx r st,
    ∃ r' st',
      download_each document output_dir file_idx file_urls r st = (Ok r', st').
Proof.
  induction file_urls as [|u urls IH]; intros idx r st; [by eexists _, _|].
  cbn [download_each]. unfold mbind, M_bind, bind.
  destruct (download_pdf_post (document idx u) output_dir st)
    as (ok & msg & st1 & -> & _).
  apply IH.
Qed.

Lemma process_folders_raises iter (e : Batch.env) :
  ∀ folder_urls folder_idx r st,
    (process_folders iter e folder_idx folder_urls r st).1 = Raise
    ↔ ∃ k u,
        folder_urls !! k = Some u
        ∧ Folder.extract_files_from_folder iter (folder e (folder_idx + k) u)
          ≠ []
        ∧ mkdir_folder e (folder_idx + k) = Raise.
Proof.
  induction folder_urls as [|u urls IH]; intros idx r st.
  { simpl. split; [done|]. by intros (k & u & Hk & _). }
  assert ((∃ k u',
             urls !! k = Some u'
             ∧ Folder.extract_files_from_folder iter (folder e (S idx + k) u')
               ≠ []
             ∧ mkdir_folder e (S idx + k) = Raise)
          → ∃ k u',
              (u :: urls) !! k = Some u'
              ∧ Folder.extract_files_from_folder iter (folder e (idx + k) u')
                ≠ []
              ∧ mkdir_folder e (idx + k) = Raise) as Hshift.
  { intros (k & u' & Hk & Hne & Hmk). exists (S k), u'.
    rewrite Nat.add_succ_r. cbn [Nat.add] in Hne, Hmk.
    split_and!; [exact Hk|exact Hne|exact Hmk]. }
  cbn [process_folders].
  destruct (Folder.extract_files_from_folder iter (folder e idx u))
    as [|f fs] eqn:Hfiles.
  - rewrite IH. split; [exact Hshift|].
    intros ([|k] & u' & Hk & Hne & Hmk).
    + injection Hk as <-. rewrite Nat.add_0_r, Hfiles in Hne. by destruct Hne.
    + exists k, u'. rewrite Nat.add_succ_r in Hne, Hmk. cbn [Nat.add].
      split_and!; [exact Hk|exact Hne|exact Hmk].
  - unfold mbind, M_bind, bind. unfold lift at 1.
    destruct (mkdir_folder e idx) as [[]|] eqn:Hmkdir.
    2: { split; [|done]. intros _. exists 0, u.
         rewrite Nat.add_0_r, Hfiles, Hmkdir. split_and!; [done|done|done]. }
    destruct (download_each_total (folder_file e idx)
                (Some (join Download.downloads_dir
                         (Title.folder_name_of (folder_title e idx u))))
                (f :: fs) 0 r st) as (r1 & st1 & ->).
    rewrite IH. split; [exact Hshift|].
    intros ([|k] & u' & Hk & Hne & Hmk).
    + rewrite Nat.add_0_r, Hmkdir in Hmk. discriminate Hmk.
    + exists k, u'. rewrite Nat.add_succ_r in Hne, Hmk. cbn [Nat.add].
      split_and!; [exact Hk|exact Hne|exact Hmk].
Qed.

(** X30. What aborts a batch. [download_multiple] raises exactly when the
    list of URLs is not empty and the browser cannot be launched, or
    cannot be closed, or the local directory of a folder that gave files
    cannot be made. No failure of a download, of a folder page or of a
    document page aborts the batch: those are entries of the summary. *)
Theorem batch_aborts_only_on_browser_or_mkdir
    (iter : gset string → list string) (e : Batch.env) (urls : list string)
    (st : Assemble.state) :
  (Batch.download_multiple iter e urls st).1 = Raise
  ↔ urls ≠ []
    ∧ (Batch.launch e = Raise
       ∨ Batch.close_browser e = Raise
       ∨ ∃ k folder_url,
           filter (λ u, is_folder_url u = true) urls !! k = Some folder_url
           ∧ Folder.extract_files_from_folder iter
               (Batch.folder e k folder_url) ≠ []
           ∧ Batch.mkdir_folder e k = Raise).
Proof.
  unfold download_multiple. destruct urls as [|u0 urls0].
  { simpl. split; [done|]. by intros [? _]. }
  remember (u0 :: urls0) as urls eqn:Hurls.
  assert (urls ≠ []) as Hne by (by rewrite Hurls).
  rewrite classify_spec. unfold mbind, M_bind, bind.
  unfold lift at 1. destruct (launch e) as [[]|] eqn:Hlaunch.
  2: { simpl. split; [|done]. intros _. split; [done|by left]. }
  unfold finallyM.
  pose proof (process_folders_raises iter e
                (filter (λ u, is_folder_url u = true) urls) 0 no_results st)
    as Hfolders.
  destruct (process_folders iter e 0
              (filter (λ u, is_folder_url u = true) urls) no_results st)
    as [[r1|] st1]; simpl in Hfolders.
  - destruct (download_each_total (file e) None
                (filter (λ u, is_folder_url u = false) urls) 0 r1 st1)
      as (r2 & st2 & ->).
    unfold lift. destruct (close_browser e) as [[]|] eqn:Hclose; simpl.
    + split; [done|]. intros [_ [H|[H|H]]]; [done|done|].
      by apply Hfolders in H.
    + split; [|done]. intros _. split; [done|]. right. by left.
  - assert ((let (r, st'') :=
               match lift (close_browser e) st1 with
               | (Ok _, st'') => (@Raise results, st'')
               | (Raise, st'') => (Raise, st'')
               end in
             match r with
             | Ok a => ret (Some a) st''
             | Raise => (Raise, st'')
             end).1 = Raise) as ->.
    { unfold lift. by destruct (close_browser e) as [[]|]. }
    split; [|done]. intros _. split; [done|]. right. right.
    by apply Hfolders.
Qed.

End BatchErrors.
